(** * A shallow embedding of the KN5 node writer

    Source: [exporter/node_writer.py].  The module serialises a scene
    hierarchy into a stream of node records.

    - Exceptions are modelled by an error type; the output file and the
      warning list by explicit state that keeps what was appended before an
      exception.
    - The primitive writers of [KN5Writer] (another module) are modelled by
      the sequence of the calls they receive, with their arguments.
    - Numbers (Python integers and floats alike) are exact rationals, so
      rounding, infinities and NaN are outside the model.
    - What the module imports from other modules and libraries is gathered
      in the class [Host]; every general statement is made for every host.
      This includes three behaviours of the libraries that the module
      relies on: the equality of two [mathutils.Vector]s (tolerant, known
      only to be reflexive), the order in which a [set] is iterated (any
      order, every element once), and [mesh.calc_tangents()] (which raises
      on a mesh without UV data).

    The first part gives the model, the second the vocabulary of the
    statements, the third the proofs. *)

From Stdlib Require Import String Ascii DecimalString ZArith Bool Lia QArith Qcanon Lqa.
From Stdlib Require Import List Sorted.
Import ListNotations.
Local Open Scope string_scope.
Local Open Scope nat_scope.
Local Open Scope list_scope.

Set Implicit Arguments.

(** ** Exceptions and fallible computations *)

(** The Python exceptions the module can raise.  [OutOfFuel] is not a Python
    exception: it marks a [while] loop of the model that has used up its
    iteration budget, and is shown below never to be returned. *)
Inductive Exn : Type :=
| Exception (msg : string)
| KeyError (key : string)
| IndexError
| ZeroDivisionError
| ValueError
| RuntimeError (msg : string)
| OutOfFuel.

Inductive Result (A : Type) : Type :=
| Ok (a : A)
| Raise (e : Exn).
Arguments Ok {A} a.
Arguments Raise {A} e.

Definition rbind {A B} (r : Result A) (k : A -> Result B) : Result B :=
  match r with
  | Ok a => k a
  | Raise e => Raise e
  end.

Declare Scope result_scope.
Delimit Scope result_scope with result.
Notation "x <- r ;; k" := (rbind r (fun x => k))
  (at level 61, r at next level, right associativity) : result_scope.
Notation "' p <- r ;; k" := (rbind r (fun x => let p := x in k))
  (at level 61, p pattern, r at next level, right associativity) : result_scope.

(** ** Python built-ins used by the module *)

Module Py.

(** [l[i]] on a list, for a non-negative index. *)
Definition getitem {A} (l : list A) (i : nat) : Result A :=
  match nth_error l i with
  | Some a => Ok a
  | None => Raise IndexError
  end.

(** [l[i:j]] on a list, for non-negative bounds: slices never raise. *)
Definition slice {A} (l : list A) (i j : nat) : list A :=
  firstn (j - i) (skipn i l).

(** [range(start, stop, 3)] as the list of the values it yields.  The
    recursion is on the number of values left. *)
Fixpoint range_from (n : nat) (start step : nat) : list nat :=
  match n with
  | O => []
  | S n' => start :: range_from n' (start + step) step
  end.

Definition range3 (start stop : nat) : list nat :=
  range_from ((stop - start + 2) / 3) start 3.

(** [sorted(l, key=key)]: a stable sort, here by insertion. *)
Section Sorted.
Context {A : Type} (key : A -> Z).

Fixpoint insert_by (x : A) (l : list A) : list A :=
  match l with
  | [] => [x]
  | y :: l' => if (key y <=? key x)%Z then y :: insert_by x l' else x :: y :: l'
  end.

Definition sorted (l : list A) : list A :=
  fold_left (fun acc x => insert_by x acc) l [].
End Sorted.

(** A [dict]: Python dictionaries keep their entries in insertion order,
    so a dictionary is the list of its entries, oldest first.  [keq] is
    the key comparison the dictionary uses (same hash and [__eq__]). *)
Definition dict (K V : Type) : Type := list (K * V).

Section Dict.
Context {K V : Type} (keq : K -> K -> bool).

Fixpoint get (d : dict K V) (k : K) : option V :=
  match d with
  | [] => None
  | (k', v) :: d' => if keq k' k then Some v else get d' k
  end.

(** [k in d] *)
Definition mem (d : dict K V) (k : K) : bool :=
  match get d k with Some _ => true | None => false end.

(** [d[k] = v]: an existing entry keeps its key object and its place. *)
Fixpoint set (d : dict K V) (k : K) (v : V) : dict K V :=
  match d with
  | [] => [(k, v)]
  | (k', v') :: d' =>
      if keq k' k then (k', v) :: d' else (k', v') :: set d' k v
  end.

(** [d.items()] *)
Definition items (d : dict K V) : list (K * V) := d.
End Dict.

(** [s.startswith(prefix)] *)
Definition startswith (s prefix : string) : bool := String.prefix prefix s.

(** [str(n)] for a non-negative integer. *)
Definition str (n : nat) : string := NilEmpty.string_of_uint (Nat.to_uint n).

(** [max(a, b, c)]: the first of the largest arguments. *)
Definition max3 (lt : Qc -> Qc -> bool) (a b c : Qc) : Qc :=
  let m := a in
  let m := if lt m b then b else m in
  if lt m c then c else m.

(** A loop that threads a value through a list and stops at the first
    exception. *)
Definition rfold {A B} (f : B -> A -> Result B) : list A -> B -> Result B :=
  fix go (l : list A) (b : B) : Result B :=
    match l with
    | [] => Ok b
    | x :: l' => (b' <- f b x ;; go l' b')%result
    end.

End Py.

(** ** Module-level data *)

Definition vec2 : Type := (Qc * Qc)%type.
Definition vec3 : Type := (Qc * Qc * Qc)%type.

Definition v3_0 (v : vec3) : Qc := fst (fst v).
Definition v3_1 (v : vec3) : Qc := snd (fst v).
Definition v3_2 (v : vec3) : Qc := snd v.
Definition v2_0 (v : vec2) : Qc := fst v.
Definition v2_1 (v : vec2) : Qc := snd v.

Definition vec3_eqb (a b : vec3) : bool :=
  Qc_eq_bool (v3_0 a) (v3_0 b) && Qc_eq_bool (v3_1 a) (v3_1 b)
  && Qc_eq_bool (v3_2 a) (v3_2 b).

Definition vec2_eqb (a b : vec2) : bool :=
  Qc_eq_bool (v2_0 a) (v2_0 b) && Qc_eq_bool (v2_1 a) (v2_1 b).

(** [class UvVertex] *)
Record UvVertex : Type := mkUvVertex {
  co : vec3;
  normal : vec3;
  uv : vec2;
  tangent : vec3
}.

(** [class Mesh]; [material_id] may be [None]. *)
Record Mesh : Type := mkMesh {
  material_id : option Z;
  vertices : list UvVertex;
  indices : list nat
}.

(** ** The index-limit splitter *)

Section Splitter.

(** [limit = 2**16] in the source; the loops are written for any limit so
    that they can also be run on small meshes. *)
Variable limit : Z.

Definition index_dict : Type := Py.dict nat nat.

(** Lines 364-368: one [face_index] of the face. *)
Definition remap_index (st : index_dict * list nat) (face_index : nat)
  : Result (index_dict * list nat) :=
  let '(vertex_index_mapping, new_indices) := st in
  let vertex_index_mapping :=
    if negb (Py.mem Nat.eqb vertex_index_mapping face_index) then
      let new_index := length vertex_index_mapping in
      Py.set Nat.eqb vertex_index_mapping face_index new_index
    else vertex_index_mapping in
  match Py.get Nat.eqb vertex_index_mapping face_index with
  | Some j => Ok (vertex_index_mapping, new_indices ++ [j])
  | None => Raise (KeyError "face_index")
  end.

Fixpoint remap_face (face : list nat) (st : index_dict * list nat)
  : Result (index_dict * list nat) :=
  match face with
  | [] => Ok st
  | face_index :: face' =>
      (st' <- remap_index st face_index ;; remap_face face' st')%result
  end.

(** Lines 361-370: the [for i in range(start_index, len(mesh.indices), 3)]
    loop with its [break], run over the values of the range. *)
Fixpoint fill_group (mesh_indices : list nat) (rng : list nat)
    (start_index : nat) (st : index_dict * list nat)
  : Result (nat * (index_dict * list nat)) :=
  match rng with
  | [] => Ok (start_index, st)
  | i :: rng' =>
      let start_index := start_index + 3 in
      let face := Py.slice mesh_indices i (i + 3) in
      (st' <- remap_face face st ;;
       if (limit - 3 <=? Z.of_nat (length (fst st')))%Z
       then Ok (start_index, st')
       else fill_group mesh_indices rng' start_index st')%result
  end.

(** Line 371: the vertices of the sub-group, in the order of their new
    index. *)
Fixpoint gather (mesh_vertices : list UvVertex) (keys : list (nat * nat))
  : Result (list UvVertex) :=
  match keys with
  | [] => Ok []
  | (v, _) :: keys' =>
      (x <- Py.getitem mesh_vertices v ;;
       xs <- gather mesh_vertices keys' ;;
       Ok (x :: xs))%result
  end.

(** Lines 358-372: the [while start_index < len(mesh.indices)] loop.  [fuel]
    bounds the number of its turns; [split_mesh] starts it with the number
    of indices, which is enough since every turn moves [start_index] forward
    by at least 3. *)
Fixpoint split_loop (fuel : nat) (mesh : Mesh) (start_index : nat)
    (new_meshes : list Mesh) : Result (list Mesh) :=
  if start_index <? length (indices mesh) then
    match fuel with
    | O => Raise OutOfFuel
    | S fuel' =>
        let vertex_index_mapping : index_dict := [] in
        let new_indices : list nat := [] in
        (' (start_index', (vertex_index_mapping, new_indices)) <-
           fill_group (indices mesh)
             (Py.range3 start_index (length (indices mesh)))
             start_index (vertex_index_mapping, new_indices) ;;
         verts <- gather (vertices mesh)
           (Py.sorted (fun kv => Z.of_nat (snd kv))
              (Py.items vertex_index_mapping)) ;;
         split_loop fuel' mesh start_index'
           (new_meshes ++ [mkMesh (material_id mesh) verts new_indices]))%result
    end
  else Ok new_meshes.

(** Lines 355-374: the body of the loop over the meshes. *)
Definition split_mesh (new_meshes : list Mesh) (mesh : Mesh)
  : Result (list Mesh) :=
  if (Z.of_nat (length (vertices mesh)) >? limit)%Z then
    split_loop (length (indices mesh)) mesh 0 new_meshes
  else Ok (new_meshes ++ [mesh]).

Fixpoint split_meshes (divided_meshes : list Mesh) (new_meshes : list Mesh)
  : Result (list Mesh) :=
  match divided_meshes with
  | [] => Ok new_meshes
  | mesh :: rest =>
      (new_meshes' <- split_mesh new_meshes mesh ;;
       split_meshes rest new_meshes')%result
  end.

End Splitter.

Definition _split_meshes_for_vertex_limit (divided_meshes : list Mesh)
  : Result (list Mesh) :=
  split_meshes (2 ^ 16) divided_meshes [].

(** ** The scene, as the writer reads it *)

Definition Z2Qc (z : Z) : Qc := Q2Qc (inject_Z z).

Definition Qc_ltb (x y : Qc) : bool :=
  match (x ?= y)%Qc with Lt => true | _ => false end.

(** [mathutils.Matrix]: rows of numbers.  [Matrix()] is the 4x4 identity. *)
Definition Matrix : Type := list (list Qc).

Definition Matrix_identity : Matrix :=
  let o := Z2Qc 0 in let i := Z2Qc 1 in
  [[i; o; o; o]; [o; i; o; o]; [o; o; i; o]; [o; o; o; i]].

(** A texture node as [_calculate_uvs] reads it:
    [texture_mapping.scale] and [texture_mapping.translation]. *)
Record TextureNode : Type := mkTextureNode {
  scale : vec3;
  translation : vec3
}.

Record Material : Type := mkMaterial {
  material_name : string
}.

(** A mesh loop: [loop.vertex_index], [loop.normal], [loop.tangent]. *)
Record MeshLoop : Type := mkMeshLoop {
  vertex_index : nat;
  loop_normal : vec3;
  loop_tangent : vec3
}.

(** A loop triangle: [triangle.material_index], [triangle.loops]. *)
Record LoopTriangle : Type := mkLoopTriangle {
  material_index : nat;
  loops : list nat
}.

(** [mesh_copy] once it has been triangulated (lines 286-295) and its loop
    triangles computed (line 298): the coordinates of its vertices, its
    loops with the tangents that line 299 gives them when it returns, its
    loop triangles, the data of the active UV layer if there is one, and
    its material slots (an empty slot is [None]). *)
Record BlenderMesh : Type := mkBlenderMesh {
  mesh_vertices : list vec3;
  mesh_loops : list MeshLoop;
  mesh_triangles : list LoopTriangle;
  uv_layer : option (list vec2);
  materials : list (option Material)
}.

(** The attributes named by [NODE_SETTINGS], each present or not: the
    [ac_properties] of an object, or the settings of one node key. *)
Record NodeOverrides : Type := mkNodeOverrides {
  o_lodIn : option Qc;
  o_lodOut : option Qc;
  o_layer : option Z;
  o_castShadows : option bool;
  o_visible : option bool;
  o_transparent : option bool;
  o_renderable : option bool
}.

(** A Blender object.  [parent] holds the [matrix_world] of the parent when
    the object has one; [visible_get] is the answer of
    [obj.visible_get(view_layer=view_layer)]; [evaluated_mesh] is the mesh of
    the evaluated object, read for objects of type ["MESH"] only. *)
#[local] Set Warnings "-register-all".
Inductive Object : Type := mkObject {
  name : string;
  type : string;
  visible_get : bool;
  parent : option Matrix;
  children : list Object;
  matrix_local : Matrix;
  matrix_world : Matrix;
  dimensions : vec3;
  ac_properties : option NodeOverrides;
  evaluated_mesh : BlenderMesh
}.

(** Induction on an object, given the statement for its children. *)
Section ObjectInduction.
Variable P : Object -> Prop.
Hypothesis step : forall obj, Forall P (children obj) -> P obj.

Fixpoint Object_children_ind (obj : Object) : P obj :=
  step obj
    ((fix all (cs : list Object) : Forall P cs :=
        match cs with
        | [] => Forall_nil P
        | c :: cs' => Forall_cons c (Object_children_ind c) (all cs')
        end) (children obj)).
End ObjectInduction.

(** What the module takes from its environment: the helpers of
    [exporter_utils] and the constants of [utils.constants], which live in
    other modules, and the library calls whose result the model does not
    compute ([re], [mathutils], [bpy], [hash], [os.linesep], the iteration
    of a [set]), with what the model relies on about them. *)
Class Host : Type := {
  convert_vector3 : vec3 -> vec3;
  convert_matrix : Matrix -> Matrix;
  get_active_material_texture_slot : option Material -> option TextureNode;
  ASSETTO_CORSA_OBJECTS : list string;
  (** [re.compile(pattern).match(s)] is not [None] *)
  re_match : string -> string -> bool;
  (** [m.inverted()]; [None] when [m] has no inverse ([ValueError]) *)
  matrix_inverted : Matrix -> option Matrix;
  (** [m @ v] *)
  matrix_apply : Matrix -> vec3 -> vec3;
  (** [hash] of a tuple of numbers *)
  py_hash : list Qc -> Z;
  linesep : string;
  (** [a == b] on two [mathutils.Vector]: the library compares the
      components up to a tolerance, so that it need not be transitive; a
      vector equals itself *)
  vector_eq : vec3 -> vec3 -> bool;
  vector_eq_refl : forall v, vector_eq v v = true;
  (** the iteration of [set(l)]: every element of [l] once, in an order that
      the language leaves open *)
  set_iter : list nat -> list nat;
  set_iter_NoDup : forall l, NoDup (set_iter l);
  set_iter_In : forall l x, In x (set_iter l) <-> In x l;
  (** [mesh.calc_tangents()]: computed from the active UV map; it raises
      ([RuntimeError] in Blender) when the mesh has no UV data, that is no
      active UV layer or no loop to carry one *)
  calc_tangents : BlenderMesh -> Result unit;
  calc_tangents_uv :
    forall m, calc_tangents m = Ok tt ->
              exists uv data, uv_layer m = Some (uv :: data)
}.

(** ** [UvVertex.__eq__] and [UvVertex.__hash__] *)

(** [co] and [normal] are [mathutils.Vector]s (the results of
    [convert_vector3]), [uv] is a tuple of two numbers. *)
Definition UvVertex__eq__ `{Host} (self other : UvVertex) : bool :=
  vector_eq (co self) (co other)
  && vector_eq (normal self) (normal other)
  && vec2_eqb (uv self) (uv other).

Definition UvVertex_hash_key (self : UvVertex) : list Qc :=
  [v3_0 (co self); v3_1 (co self); v3_2 (co self);
   v3_0 (normal self); v3_1 (normal self); v3_2 (normal self);
   v2_0 (uv self); v2_1 (uv self)].

Definition UvVertex__hash__ `{Host} (self : UvVertex) : Z :=
  py_hash (UvVertex_hash_key self).

(** The comparison of keys in a dictionary keyed by [UvVertex]: the hashes
    agree and [__eq__] answers [True]. *)
Definition UvVertex_keq `{Host} (a b : UvVertex) : bool :=
  (UvVertex__hash__ a =? UvVertex__hash__ b)%Z && UvVertex__eq__ a b.

(** ** [NodeProperties] and [NodeSettings] *)

Record NodeProperties : Type := mkNodeProperties {
  lodIn : Qc;
  lodOut : Qc;
  layer : Z;
  castShadows : bool;
  visible : bool;
  transparent : bool;
  renderable : bool
}.

Definition or_else {A} (o : option A) (a : A) : A :=
  match o with Some x => x | None => a end.

(** [setattr] of every attribute that is present. *)
Definition apply_overrides (o : NodeOverrides) (p : NodeProperties)
  : NodeProperties :=
  {| lodIn := or_else (o_lodIn o) (lodIn p);
     lodOut := or_else (o_lodOut o) (lodOut p);
     layer := or_else (o_layer o) (layer p);
     castShadows := or_else (o_castShadows o) (castShadows p);
     visible := or_else (o_visible o) (visible p);
     transparent := or_else (o_transparent o) (transparent p);
     renderable := or_else (o_renderable o) (renderable p) |}.

(** [NodeProperties.__init__] *)
Definition NodeProperties_init (obj : Object) : NodeProperties :=
  let self :=
    {| lodIn := Z2Qc 0; lodOut := Z2Qc 1000; layer := 0%Z;
       castShadows := true; visible := true; transparent := false;
       renderable := true |} in
  match ac_properties obj with
  | Some props => apply_overrides props self
  | None => self
  end.

(** [class NodeSettings]: the pattern of the node key and its settings. *)
Record NodeSettings : Type := mkNodeSettings {
  node_regexp : string;
  settings : NodeOverrides
}.

Definition apply_settings_to_node (self : NodeSettings)
    (node_properties : NodeProperties) : NodeProperties :=
  apply_overrides (settings self) node_properties.

(** ** The writer and its output *)

(** A call of a primitive writer of [KN5Writer], with its argument. *)
Inductive Event : Type :=
| Uint (n : Z)
| Ushort (n : nat)
| Bool (b : bool)
| Float (x : Qc)
| Str (s : string)
| Vector2 (v : vec2)
| Vector3 (v : vec3)
| Mat (m : Matrix).

(** The two objects the writer appends to: the output file and the list of
    warnings. *)
Record Streams : Type := mkStreams {
  file : list Event;
  warnings : list string
}.

(** A method of the writer: it may append to the streams and may raise; the
    streams keep what was appended before an exception. *)
Definition W (A : Type) : Type := Streams -> Result A * Streams.

Definition ret {A} (a : A) : W A := fun s => (Ok a, s).

Definition raise {A} (e : Exn) : W A := fun s => (Raise e, s).

Definition bind {A B} (c : W A) (k : A -> W B) : W B :=
  fun s =>
    match c s with
    | (Ok a, s') => k a s'
    | (Raise e, s') => (Raise e, s')
    end.

Definition lift {A} (r : Result A) : W A := fun s => (r, s).

Declare Scope writer_scope.
Delimit Scope writer_scope with writer.
Notation "x <- c ;; k" := (bind c (fun x => k))
  (at level 61, c at next level, right associativity) : writer_scope.
Notation "' p <- c ;; k" := (bind c (fun x => let p := x in k))
  (at level 61, p pattern, c at next level, right associativity) : writer_scope.
Notation "c ;; k" := (bind c (fun _ => k))
  (at level 61, right associativity) : writer_scope.

(** [for x in l: body(x)] *)
Definition for_each {A} (body : A -> W unit) : list A -> W unit :=
  fix go (l : list A) : W unit :=
    match l with
    | [] => ret tt
    | x :: l' => (body x ;; go l')%writer
    end.

Definition emit (e : Event) : W unit :=
  fun s => (Ok tt, {| file := file s ++ [e]; warnings := warnings s |}).

Definition write_uint (n : Z) : W unit := emit (Uint n).
Definition write_ushort (n : nat) : W unit := emit (Ushort n).
Definition write_bool (b : bool) : W unit := emit (Bool b).
Definition write_float (x : Qc) : W unit := emit (Float x).
Definition write_string (s : string) : W unit := emit (Str s).
Definition write_vector2 (v : vec2) : W unit := emit (Vector2 v).
Definition write_vector3 (v : vec3) : W unit := emit (Vector3 v).
Definition write_matrix (m : Matrix) : W unit := emit (Mat m).

(** [self.warnings.append(msg)] *)
Definition warn (msg : string) : W unit :=
  fun s => (Ok tt, {| file := file s; warnings := warnings s ++ [msg] |}).

(** Modelled from the spec: the type of [material_writer.material_positions],
    which is filled by a class of another module.  The specification calls
    it a "mapping from material name to an integer identifier already
    assigned in a prior export phase"; it is taken to be a dictionary, whose
    subscript [material_positions[material_name]] raises [KeyError] for a
    name that is not a key. *)
Definition MaterialPositions : Type := Py.dict string Z.

(** The fields of the writer that the methods read.  [objects] is
    [context.blend_data.objects]; [node_settings] is the list that
    [_init_node_settings] builds from the settings. *)
Record NodeWriter : Type := mkNodeWriter {
  objects : list Object;
  node_settings : list NodeSettings;
  material_positions : MaterialPositions
}.

(** ** [class NodeWriter] *)

Definition NODE_CLASS : Py.dict string Z :=
  [("Node", 1%Z); ("Mesh", 2%Z); ("SkinnedMesh", 3%Z)].

(** The dictionary [node_data] of [_write_base_node] and
    [_write_mesh_node]. *)
Record NodeData : Type := mkNodeData {
  nd_name : string;
  nd_childCount : Z;
  nd_active : bool;
  nd_transform : Matrix
}.

(** [obj.parent] as a truth value. *)
Definition has_parent (obj : Object) : bool :=
  match parent obj with Some _ => true | None => false end.

Definition Qc_gtb (x y : Qc) : bool := Qc_ltb y x.

(** The six accumulators of [_write_bounding_sphere]. *)
Record Bounds : Type := mkBounds {
  max_x : Qc; max_y : Qc; max_z : Qc;
  min_x : Qc; min_y : Qc; min_z : Qc
}.

Definition Bounds_init : Bounds :=
  {| max_x := Z2Qc (-999999999); max_y := Z2Qc (-999999999);
     max_z := Z2Qc (-999999999);
     min_x := Z2Qc 999999999; min_y := Z2Qc 999999999;
     min_z := Z2Qc 999999999 |}.

(** Lines 260-272: the body of the loop over the vertices. *)
Definition Bounds_step (b : Bounds) (vertex : UvVertex) : Bounds :=
  let co := co vertex in
  {| max_x := if Qc_gtb (v3_0 co) (max_x b) then v3_0 co else max_x b;
     min_x := if Qc_ltb (v3_0 co) (min_x b) then v3_0 co else min_x b;
     max_y := if Qc_gtb (v3_1 co) (max_y b) then v3_1 co else max_y b;
     min_y := if Qc_ltb (v3_1 co) (min_y b) then v3_1 co else min_y b;
     max_z := if Qc_gtb (v3_2 co) (max_z b) then v3_2 co else max_z b;
     min_z := if Qc_ltb (v3_2 co) (min_z b) then v3_2 co else min_z b |}.

(** Lines 253-279: the centre and the radius that are written. *)
Definition bounding_sphere (vertices : list UvVertex) : vec3 * Qc :=
  let b := fold_left Bounds_step vertices Bounds_init in
  let two := Z2Qc 2 in
  let sphere_center :=
    (min_x b + (max_x b - min_x b) / two,
     min_y b + (max_y b - min_y b) / two,
     min_z b + (max_z b - min_z b) / two)%Qc in
  let sphere_radius :=
    (Py.max3 Qc_ltb ((max_x b - min_x b) / two) ((max_y b - min_y b) / two)
       ((max_z b - min_z b) / two) * two)%Qc in
  (sphere_center, sphere_radius).

Definition _write_bounding_sphere (vertices : list UvVertex) : W unit :=
  let '(sphere_center, sphere_radius) := bounding_sphere vertices in
  (write_vector3 sphere_center ;;
   write_float sphere_radius)%writer.

Definition _write_node_class (node_class : string) : W unit :=
  match Py.get String.eqb NODE_CLASS node_class with
  | Some c => write_uint c
  | None => raise (KeyError node_class)
  end.

Definition _write_base_node_data (node_data : NodeData) : W unit :=
  (_write_node_class "Node" ;;
   write_string (nd_name node_data) ;;
   write_uint (nd_childCount node_data) ;;
   write_bool (nd_active node_data) ;;
   write_matrix (nd_transform node_data))%writer.

Definition _write_mesh (obj : Object) (mesh : Mesh)
    (node_properties : NodeProperties) : W unit :=
  (_write_node_class "Mesh" ;;
   write_string (name obj) ;;
   write_uint 0 ;;
   let is_active := true in
   write_bool is_active ;;
   write_bool (castShadows node_properties) ;;
   write_bool (visible node_properties) ;;
   write_bool (transparent node_properties) ;;
   (if (Z.of_nat (length (vertices mesh)) >? 2 ^ 16)%Z
    then raise (Exception ("Only " ++ Py.str (2 ^ 16) ++
                           " vertices per mesh allowed. ('" ++ name obj ++ "')")%string)
    else ret tt) ;;
   write_uint (Z.of_nat (length (vertices mesh))) ;;
   for_each (fun vertex =>
       write_vector3 (co vertex) ;;
       write_vector3 (normal vertex) ;;
       write_vector2 (uv vertex) ;;
       write_vector3 (tangent vertex)) (vertices mesh) ;;
   write_uint (Z.of_nat (length (indices mesh))) ;;
   for_each (fun i => write_ushort i) (indices mesh) ;;
   match material_id mesh with
   | None =>
       warn ("No material to mesh '" ++ name obj ++ "' assigned")%string ;;
       write_uint 0
   | Some id => write_uint id
   end ;;
   write_uint (layer node_properties) ;;
   write_float (lodIn node_properties) ;;
   write_float (lodOut node_properties) ;;
   _write_bounding_sphere (vertices mesh) ;;
   write_bool (renderable node_properties))%writer.

Section Methods.

Context `{Host}.
Variable self : NodeWriter.

Definition _is_ac_object (name : string) : bool :=
  existsb (fun obj_name => re_match ("^" ++ obj_name ++ "$")%string name)
    ASSETTO_CORSA_OBJECTS.

Fixpoint _any_child_is_mesh (obj : Object) : bool :=
  (fix go (cs : list Object) : bool :=
     match cs with
     | [] => false
     | child :: cs' =>
         if (type child =? "MESH")%string || (type child =? "CURVE")%string
            || _any_child_is_mesh child
         then true else go cs'
     end) (children obj).

(** Lines 174-175 and 183-184: the children that count. *)
Definition count_if (p : Object -> bool) (l : list Object) : Z :=
  fold_left (fun num_children obj =>
               if p obj then (num_children + 1)%Z else num_children) l 0%Z.

Definition _write_base_node (obj : option Object) (node_name : string)
  : W unit :=
  (' (matrix, num_children) <-
     match obj with
     | None =>
         let matrix := Matrix_identity in
         ret (matrix,
              count_if (fun obj => negb (has_parent obj)
                                   && negb (Py.startswith (name obj) "__")
                                   && visible_get obj) (objects self))
     | Some obj =>
         (if negb (_is_ac_object (name obj)) && negb (_any_child_is_mesh obj)
          then
            let msg := ("Unknown logical object '" ++ name obj ++
                        "' might prevent other objects from loading." ++
                        linesep)%string in
            let msg := (msg ++ String (ascii_of_nat 9)
                          "Rename it to '__{obj.name}' if you do not want to export it.")%string in
            warn msg
          else ret tt) ;;
         let matrix := convert_matrix (matrix_local obj) in
         ret (matrix,
              count_if (fun child => negb (Py.startswith (name child) "__")
                                     && visible_get child) (children obj))
     end ;;
   _write_base_node_data
     {| nd_name := node_name; nd_childCount := num_children;
        nd_active := true; nd_transform := matrix |})%writer.

(** [_calculate_uvs] *)
Definition _calculate_uvs (obj : Object) (mesh : BlenderMesh)
    (material_id : nat) (co : vec3) : Result vec2 :=
  let size := dimensions obj in
  if Qc_eq_bool (v3_0 size) (Z2Qc 0) then Raise ZeroDivisionError else
  let x := (v3_0 co / v3_0 size)%Qc in
  if Qc_eq_bool (v3_1 size) (Z2Qc 0) then Raise ZeroDivisionError else
  let y := (v3_1 co / v3_1 size)%Qc in
  (mat <- Py.getitem (materials mesh) material_id ;;
   let texture_node := get_active_material_texture_slot mat in
   match texture_node with
   | Some texture_node =>
       let x := (x * v3_0 (scale texture_node))%Qc in
       let y := (y * v3_1 (scale texture_node))%Qc in
       let x := (x + v3_0 (translation texture_node))%Qc in
       let y := (y + v3_1 (translation texture_node))%Qc in
       Ok (x, y)
   | None => Ok (x, y)
   end)%result.

Definition vertex_dict : Type := Py.dict UvVertex nat.

(** Lines 325-336: the vertex of one loop of a triangle. *)
Definition loop_vertex (obj : Object) (mesh_copy : BlenderMesh)
    (material_index loop_index : nat) : Result UvVertex :=
  (loop <- Py.getitem (mesh_loops mesh_copy) loop_index ;;
   vertex_co <- Py.getitem (mesh_vertices mesh_copy) (vertex_index loop) ;;
   let local_position := matrix_apply (matrix_world obj) vertex_co in
   let converted_position := convert_vector3 local_position in
   let converted_normal := convert_vector3 (loop_normal loop) in
   uv <- match uv_layer mesh_copy with
         | Some data =>
             uv <- Py.getitem data loop_index ;;
             Ok (v2_0 uv, (- v2_1 uv)%Qc)
         | None => _calculate_uvs obj mesh_copy material_index local_position
         end ;;
   let tangent := loop_tangent loop in
   Ok (mkUvVertex converted_position converted_normal uv tangent))%result.

(** Lines 337-340: the vertex enters the dictionary if it is not in it, and
    its index enters [face_indices]. *)
Definition add_vertex (st : vertex_dict * list nat) (vertex : UvVertex)
  : Result (vertex_dict * list nat) :=
  let '(vertices, face_indices) := st in
  let vertices :=
    if negb (Py.mem UvVertex_keq vertices vertex) then
      let new_index := length vertices in
      Py.set UvVertex_keq vertices vertex new_index
    else vertices in
  match Py.get UvVertex_keq vertices vertex with
  | Some i => Ok (vertices, face_indices ++ [i])
  | None => Raise (KeyError "vertex")
  end.

(** Lines 342-344. *)
Definition extend_indices (indices face_indices : list nat)
  : Result (list nat) :=
  (f1 <- Py.getitem face_indices 1 ;;
   f2 <- Py.getitem face_indices 2 ;;
   f0 <- Py.getitem face_indices 0 ;;
   let indices := indices ++ [f1; f2; f0] in
   if length face_indices =? 4 then
     f2 <- Py.getitem face_indices 2 ;;
     f3 <- Py.getitem face_indices 3 ;;
     f0 <- Py.getitem face_indices 0 ;;
     Ok (indices ++ [f2; f3; f0])
   else Ok indices)%result.

(** Lines 324-341: the loop over the loops of a triangle. *)
Definition face_loop (obj : Object) (mesh_copy : BlenderMesh)
    (material_index : nat) (triangle : LoopTriangle) (vertices : vertex_dict)
  : Result (vertex_dict * list nat) :=
  Py.rfold (fun st loop_index =>
              (vertex <- loop_vertex obj mesh_copy material_index loop_index ;;
               add_vertex st vertex)%result)
    (loops triangle) (vertices, []).

(** Lines 319-344: the body of the loop over the triangles. *)
Definition triangle_step (obj : Object) (mesh_copy : BlenderMesh)
    (material_index0 : nat) (st : vertex_dict * list nat)
    (triangle : LoopTriangle) : Result (vertex_dict * list nat) :=
  if negb (material_index0 =? material_index triangle) then Ok st
  else
    let '(vertices, indices) := st in
    (' (vertices, face_indices) <-
       face_loop obj mesh_copy material_index0 triangle vertices ;;
     indices <- extend_indices indices face_indices ;;
     Ok (vertices, indices))%result.

(** Line 345: the keys of the dictionary in the order of their index. *)
Definition vertex_buffer (vertices : vertex_dict) : list UvVertex :=
  map fst (Py.sorted (fun kv => Z.of_nat (snd kv)) (Py.items vertices)).

(** [self.material_writer.material_positions[material_name]] *)
Definition material_position (material_name : string) : Result Z :=
  match Py.get String.eqb (material_positions self) material_name with
  | Some material_id => Ok material_id
  | None => Raise (KeyError material_name)
  end.

(** Lines 310-347: the body of the loop over the used materials. *)
Definition material_group (obj : Object) (mesh_copy : BlenderMesh)
    (meshes : list Mesh) (material_index : nat) : Result (list Mesh) :=
  (slot <- Py.getitem (materials mesh_copy) material_index ;;
   match slot with
   | None =>
       Raise (Exception ("Material slot " ++ Py.str material_index ++
                         " for object '" ++ name obj ++
                         "' has no material assigned")%string)
   | Some material =>
       let material_name := material_name material in
       if Py.startswith material_name "__" then
         Raise (Exception ("Material '" ++ material_name ++
                           "' is ignored but is used by object '" ++
                           name obj ++ "'")%string)
       else
         ' (vertices, indices) <-
           Py.rfold (triangle_step obj mesh_copy material_index)
             (mesh_triangles mesh_copy) ([], []) ;;
         let vertices := vertex_buffer vertices in
         material_id <- material_position material_name ;;
         Ok (meshes ++ [mkMesh (Some material_id) vertices indices])
   end)%result.

(** Lines 283-350.  [evaluated_mesh obj] is the triangulated mesh of lines
    286-295, with its loop triangles (line 298); line 299 computes the
    tangents, which the loops carry, and may raise. *)
Definition _split_object_by_materials (obj : Object) : Result (list Mesh) :=
  let meshes := [] in
  let mesh_copy := evaluated_mesh obj in
  (_ <- calc_tangents mesh_copy ;;
   match materials mesh_copy with
   | [] => Raise (Exception ("Object '" ++ name obj ++
                             "' has no material assigned")%string)
   | _ :: _ =>
       let used_materials :=
         set_iter (map material_index (mesh_triangles mesh_copy)) in
       Py.rfold (material_group obj mesh_copy) used_materials meshes
   end)%result.

Definition _write_mesh_node (obj : Object) : W unit :=
  (divided_meshes <- lift (_split_object_by_materials obj) ;;
   divided_meshes <- lift (_split_meshes_for_vertex_limit divided_meshes) ;;
   (if has_parent obj || (1 <? length divided_meshes) then
      transform_matrix <-
        match parent obj with
        | Some parent_matrix_world =>
            match matrix_inverted parent_matrix_world with
            | Some inverted => ret (convert_matrix inverted)
            | None => raise ValueError
            end
        | None => ret Matrix_identity
        end ;;
      _write_base_node_data
        {| nd_name := name obj;
           nd_childCount := Z.of_nat (length divided_meshes);
           nd_active := true;
           nd_transform := transform_matrix |}
    else ret tt) ;;
   let node_properties :=
     fold_left (fun node_properties node_setting =>
                  apply_settings_to_node node_setting node_properties)
       (node_settings self) (NodeProperties_init obj) in
   for_each (fun mesh => _write_mesh obj mesh node_properties)
     divided_meshes)%writer.

Fixpoint _write_object (obj : Object) : W unit :=
  if negb (Py.startswith (name obj) "__") && visible_get obj then
    ((if (type obj =? "MESH")%string then
        (match children obj with
         | _ :: _ =>
             raise (Exception ("A mesh cannot contain children ('" ++
                               name obj ++ "')")%string)
         | [] => ret tt
         end ;;
         _write_mesh_node obj)
      else _write_base_node (Some obj) (name obj)) ;;
     for_each (fun child =>
                 if visible_get child then _write_object child else ret tt)
       (children obj))%writer
  else ret tt.

Definition write : W unit :=
  (_write_base_node None "BlenderFile" ;;
   for_each (fun obj =>
               if negb (has_parent obj) && visible_get obj
               then _write_object obj else ret tt)
     (Py.sorted (fun k => Z.of_nat (length (children k))) (objects self)))%writer.

End Methods.

(** ** A host and some scenes on which the model runs *)

Module Demo.

(** The product [m @ (x, y, z)] of a 4x4 matrix with a point. *)
Definition apply_rows (m : Matrix) (v : vec3) : vec3 :=
  let row (r : list Qc) : Qc :=
    match r with
    | [a; b; c; d] => (a * v3_0 v + b * v3_1 v + c * v3_2 v + d)%Qc
    | _ => Z2Qc 0
    end in
  match m with
  | r0 :: r1 :: r2 :: _ => (row r0, row r1, row r2)
  | _ => v
  end.

(** The inverse of a translation; other matrices are treated as singular. *)
Definition invert_translation (m : Matrix) : option Matrix :=
  let o := Z2Qc 0 in let i := Z2Qc 1 in
  match m with
  | [[a; b; c; x]; [d; e; f; y]; [g; h; k; z]; [p; q; r; s]] =>
      if forallb (fun t => Qc_eq_bool (fst t) (snd t))
           [(a, i); (b, o); (c, o); (d, o); (e, i); (f, o);
            (g, o); (h, o); (k, i); (p, o); (q, o); (r, o); (s, i)]
      then Some [[i; o; o; (- x)%Qc]; [o; i; o; (- y)%Qc];
                 [o; o; i; (- z)%Qc]; [o; o; o; i]]
      else None
  | _ => None
  end.

(** The used slots in ascending order, as CPython iterates a set of small
    numbers. *)
Definition ascending (l : list nat) : list nat :=
  filter (fun i => existsb (Nat.eqb i) l) (seq 0 (S (fold_right Nat.max 0 l))).

Lemma ascending_NoDup (l : list nat) : NoDup (ascending l).
Proof. apply NoDup_filter, seq_NoDup. Qed.

Lemma ascending_In (l : list nat) (x : nat) : In x (ascending l) <-> In x l.
Proof.
  unfold ascending. rewrite filter_In, existsb_exists, in_seq. split.
  - intros [_ (y & Hy & E)]. apply Nat.eqb_eq in E. subst y. exact Hy.
  - intros Hx. split; [|exists x; split; [exact Hx | apply Nat.eqb_refl]].
    split; [apply Nat.le_0_l|]. apply Nat.lt_succ_r.
    induction l as [|y l IH]; [destruct Hx|]. cbn [fold_right].
    destruct Hx as [->|Hx]; [apply Nat.le_max_l|].
    apply Nat.le_trans with (1 := IH Hx). apply Nat.le_max_r.
Qed.

(** Tangents need UV data. *)
Definition tangents_of (m : BlenderMesh) : Result unit :=
  match uv_layer m with
  | Some (_ :: _) => Ok tt
  | _ => Raise (RuntimeError "Tangent space computation needs a UV Map")
  end.

Lemma tangents_of_uv (m : BlenderMesh) :
  tangents_of m = Ok tt -> exists uv data, uv_layer m = Some (uv :: data).
Proof.
  unfold tangents_of. destruct (uv_layer m) as [[|uv data]|]; try discriminate.
  intros _. exists uv, data. reflexivity.
Qed.

Lemma vec3_eqb_same (v : vec3) : vec3_eqb v v = true.
Proof.
  unfold vec3_eqb, Qc_eq_bool.
  destruct (Qc_eq_dec (v3_0 v) (v3_0 v)); [|congruence].
  destruct (Qc_eq_dec (v3_1 v) (v3_1 v)); [|congruence].
  destruct (Qc_eq_dec (v3_2 v) (v3_2 v)); [|congruence].
  reflexivity.
Qed.

#[export] Instance host : Host := {
  convert_vector3 := fun v => (v3_0 v, v3_2 v, (- v3_1 v)%Qc);
  convert_matrix := fun m => m;
  get_active_material_texture_slot := fun _ => None;
  ASSETTO_CORSA_OBJECTS := ["AC_PIT_0"; "AC_START_0"];
  re_match := fun pattern s => (pattern =? "^" ++ s ++ "$")%string;
  matrix_inverted := invert_translation;
  matrix_apply := apply_rows;
  py_hash := fun l =>
    fold_left (fun h x => (31 * h + Qnum (this x) + Zpos (Qden (this x)))%Z) l 7%Z;
  linesep := String (ascii_of_nat 10) "";
  vector_eq := vec3_eqb;
  vector_eq_refl := vec3_eqb_same;
  set_iter := ascending;
  set_iter_NoDup := ascending_NoDup;
  set_iter_In := ascending_In;
  calc_tangents := tangents_of;
  calc_tangents_uv := tangents_of_uv
}.

Definition zero3 : vec3 := (Z2Qc 0, Z2Qc 0, Z2Qc 0).

Definition point (x y z : Z) : UvVertex :=
  mkUvVertex (Z2Qc x, Z2Qc y, Z2Qc z) zero3 (Z2Qc 0, Z2Qc 0) zero3.

(** The eight corners of the unit cube. *)
Definition unit_cube : list UvVertex :=
  [point 0 0 0; point 1 0 0; point 0 1 0; point 1 1 0;
   point 0 0 1; point 1 0 1; point 0 1 1; point 1 1 1].

(** A vertex outside the range of the initial values of the accumulators. *)
Definition far_vertex : UvVertex := point 2000000000 0 0.

(** [n] vertices on a line, from x = [z] on. *)
Fixpoint points_from (n : nat) (z : Z) : list UvVertex :=
  match n with
  | O => []
  | S n' => point z 0 0 :: points_from n' (z + 1)
  end.

(** A group of one triangle, and a group with more vertices than the limit
    allows: 65537 vertices and two triangles among the first four. *)
Definition small_group : Mesh :=
  {| material_id := Some 4%Z;
     vertices := [point 0 0 0; point 1 0 0; point 0 1 0];
     indices := [0; 1; 2] |}.

Definition large_group : Mesh :=
  {| material_id := Some 7%Z;
     vertices := points_from (Z.to_nat 65537) 0;
     indices := [0; 1; 2; 2; 1; 3] |}.

(** Ten vertices and five triangles, to run the splitter with a small
    limit. *)
Definition ten_vertices : Mesh :=
  {| material_id := Some 5%Z;
     vertices := points_from 10 0;
     indices := [0; 1; 2; 2; 1; 3; 4; 5; 6; 7; 8; 9; 0; 9; 5] |}.

Definition translation_by (x y z : Z) : Matrix :=
  let o := Z2Qc 0 in let i := Z2Qc 1 in
  [[i; o; o; Z2Qc x]; [o; i; o; Z2Qc y]; [o; o; i; Z2Qc z]; [o; o; o; i]].

Definition no_mesh : BlenderMesh :=
  {| mesh_vertices := []; mesh_loops := []; mesh_triangles := [];
     uv_layer := None; materials := [] |}.

(** One triangle in the plane z = 0, with one material slot. *)
Definition triangle_mesh (material : string) : BlenderMesh :=
  {| mesh_vertices := [(Z2Qc 0, Z2Qc 0, Z2Qc 0); (Z2Qc 1, Z2Qc 0, Z2Qc 0);
                       (Z2Qc 0, Z2Qc 1, Z2Qc 0)];
     mesh_loops := [mkMeshLoop 0 (Z2Qc 0, Z2Qc 0, Z2Qc 1) zero3;
                    mkMeshLoop 1 (Z2Qc 0, Z2Qc 0, Z2Qc 1) zero3;
                    mkMeshLoop 2 (Z2Qc 0, Z2Qc 0, Z2Qc 1) zero3];
     mesh_triangles := [mkLoopTriangle 0 [0; 1; 2]];
     uv_layer := Some [(Z2Qc 0, Z2Qc 0); (Z2Qc 1, Z2Qc 0); (Z2Qc 0, Z2Qc 1)];
     materials := [Some (mkMaterial material)] |}.

Definition object (name type : string) (parent : option Matrix)
    (children : list Object) (mesh : BlenderMesh) : Object :=
  {| name := name; type := type; visible_get := true; parent := parent;
     children := children; matrix_local := Matrix_identity;
     matrix_world := Matrix_identity;
     dimensions := (Z2Qc 1, Z2Qc 1, Z2Qc 1);
     ac_properties := None; evaluated_mesh := mesh |}.

(** [blend_data.objects] of a scene given by its top-level objects: every
    object of the hierarchy, parents first. *)
Fixpoint all_objects (obj : Object) : list Object :=
  obj :: (fix go (cs : list Object) : list Object :=
            match cs with
            | [] => []
            | c :: cs' => all_objects c ++ go cs'
            end) (children obj).

Definition writer (roots : list Object) (positions : Py.dict string Z)
  : NodeWriter :=
  {| objects := flat_map all_objects roots;
     node_settings := [];
     material_positions := positions |}.

(** A top-level mesh object made of one triangle, and one made of a quad
    whose four loops form a single face. *)
Definition triangle_object : Object :=
  object "Tri" "MESH" None [] (triangle_mesh "Paint").

Definition quad_object : Object :=
  object "Quad" "MESH" None []
    {| mesh_vertices := [(Z2Qc 0, Z2Qc 0, Z2Qc 0); (Z2Qc 1, Z2Qc 0, Z2Qc 0);
                         (Z2Qc 1, Z2Qc 1, Z2Qc 0); (Z2Qc 0, Z2Qc 1, Z2Qc 0)];
       mesh_loops := [mkMeshLoop 0 (Z2Qc 0, Z2Qc 0, Z2Qc 1) zero3;
                      mkMeshLoop 1 (Z2Qc 0, Z2Qc 0, Z2Qc 1) zero3;
                      mkMeshLoop 2 (Z2Qc 0, Z2Qc 0, Z2Qc 1) zero3;
                      mkMeshLoop 3 (Z2Qc 0, Z2Qc 0, Z2Qc 1) zero3];
       mesh_triangles := [mkLoopTriangle 0 [0; 1; 2; 3]];
       uv_layer := Some [(Z2Qc 0, Z2Qc 0); (Z2Qc 1, Z2Qc 0);
                         (Z2Qc 1, Z2Qc 1); (Z2Qc 0, Z2Qc 1)];
       materials := [Some (mkMaterial "Paint")] |}.

(** A mesh object under a parent that is translated by (1, 2, 3). *)
Definition child_triangle : Object :=
  object "Wheel" "MESH" (Some (translation_by 1 2 3)) [] (triangle_mesh "Paint").

(** A top-level mesh object without faces, and a top-level mesh object that
    has a child. *)

Definition helper_object : Object :=
  object "__helper" "EMPTY" (Some Matrix_identity)
    [object "Hidden" "MESH" (Some Matrix_identity) [] (triangle_mesh "Paint")]
    no_mesh.

Definition mesh_with_child : Object :=
  object "Body" "MESH" None [object "Seat" "EMPTY" (Some Matrix_identity) [] no_mesh]
    (triangle_mesh "Paint").

Definition paint : Py.dict string Z := [("Paint", 4%Z)].

(** A top-level mesh object of two triangles that share an edge: the first
    one uses the material slot 1, the second one the slot 0. *)
Definition two_materials : Object :=
  object "Door" "MESH" None []
    {| mesh_vertices := [(Z2Qc 0, Z2Qc 0, Z2Qc 0); (Z2Qc 1, Z2Qc 0, Z2Qc 0);
                         (Z2Qc 1, Z2Qc 1, Z2Qc 0); (Z2Qc 0, Z2Qc 1, Z2Qc 0)];
       mesh_loops := [mkMeshLoop 0 (Z2Qc 0, Z2Qc 0, Z2Qc 1) zero3;
                      mkMeshLoop 1 (Z2Qc 0, Z2Qc 0, Z2Qc 1) zero3;
                      mkMeshLoop 2 (Z2Qc 0, Z2Qc 0, Z2Qc 1) zero3;
                      mkMeshLoop 0 (Z2Qc 0, Z2Qc 0, Z2Qc 1) zero3;
                      mkMeshLoop 2 (Z2Qc 0, Z2Qc 0, Z2Qc 1) zero3;
                      mkMeshLoop 3 (Z2Qc 0, Z2Qc 0, Z2Qc 1) zero3];
       mesh_triangles := [mkLoopTriangle 1 [0; 1; 2];
                          mkLoopTriangle 0 [3; 4; 5]];
       uv_layer := Some [(Z2Qc 0, Z2Qc 0); (Z2Qc 1, Z2Qc 0); (Z2Qc 1, Z2Qc 1);
                         (Z2Qc 0, Z2Qc 0); (Z2Qc 1, Z2Qc 1); (Z2Qc 0, Z2Qc 1)];
       materials := [Some (mkMaterial "Paint"); Some (mkMaterial "Glass")] |}.

Definition palette : Py.dict string Z := [("Paint", 4%Z); ("Glass", 9%Z)].

(** The value of a computation that does not raise. *)
Definition value {A} (default : A) (r : Result A) : A :=
  match r with Ok a => a | Raise _ => default end.

Definition no_output : Streams := {| file := []; warnings := [] |}.

End Demo.

(** ** Vocabulary of the statements about the splitter *)

(** A mesh group as the grouping step hands it over: whole triangles, and
    every index refers to a vertex of the group. *)
Definition mesh_wf (m : Mesh) : bool :=
  (length (indices m) mod 3 =? 0)
  && forallb (fun i => i <? length (vertices m)) (indices m).

(** [orig] lists, for a sub-group [g] of [m], the index in [m] of each of
    its vertices. *)
Record subgroup (m g : Mesh) (orig : list nat) : Prop := {
  sg_material : material_id g = material_id m;
  sg_triangles : length (indices g) mod 3 = 0;
  sg_count : (Z.of_nat (length (vertices g)) <= 65536)%Z;
  sg_distinct : NoDup orig;
  sg_vertices : map Some (vertices g) = map (nth_error (vertices m)) orig
}.

(** The index in the parent mesh that each index of a sub-group stands for. *)
Definition sources (p : Mesh * list nat) : list (option nat) :=
  map (nth_error (snd p)) (indices (fst p)).

(** [part] cuts the index list of [m] into consecutive sub-groups. *)
Definition splits_into (m : Mesh) (part : list (Mesh * list nat)) : Prop :=
  Forall (fun p => subgroup m (fst p) (snd p)) part /\
  concat (map sources part) = map Some (indices m).

(** Every triangle of [m] is a triangle of one sub-group of [part]. *)
Definition triangles_kept (m : Mesh) (part : list (Mesh * list nat)) : Prop :=
  forall t, 3 * t + 2 < length (indices m) ->
    exists p t', In p part /\
      forall c, c < 3 ->
        nth_error (sources p) (3 * t' + c)
        = nth_error (map Some (indices m)) (3 * t + c).

(** ** Vocabulary of the statements about the bounding sphere *)

Definition Qc_max (a b : Qc) : Qc := if Qc_ltb a b then b else a.
Definition Qc_min (a b : Qc) : Qc := if Qc_ltb b a then b else a.

(** The largest and the smallest of the numbers [x :: l]. *)
Definition largest (x : Qc) (l : list Qc) : Qc := fold_left Qc_max l x.
Definition smallest (x : Qc) (l : list Qc) : Qc := fold_left Qc_min l x.

(** The coordinates of the vertices along one axis. *)
Definition axis (f : vec3 -> Qc) (vs : list UvVertex) : list Qc :=
  map (fun v => f (co v)) vs.

(** The axis-aligned bounds of the vertex set [v :: vs]. *)
Definition true_bounds (v : UvVertex) (vs : list UvVertex) : Bounds :=
  {| max_x := largest (v3_0 (co v)) (axis v3_0 vs);
     max_y := largest (v3_1 (co v)) (axis v3_1 vs);
     max_z := largest (v3_2 (co v)) (axis v3_2 vs);
     min_x := smallest (v3_0 (co v)) (axis v3_0 vs);
     min_y := smallest (v3_1 (co v)) (axis v3_1 vs);
     min_z := smallest (v3_2 (co v)) (axis v3_2 vs) |}.

(** The bounding sphere in the words of the specification: the centre is the
    midpoint of the minimum and the maximum on each axis, the radius is the
    full extent of the largest axis.  It is defined for a non-empty vertex
    set. *)
Definition spec_bounding_sphere (vertices : list UvVertex)
  : option (vec3 * Qc) :=
  match vertices with
  | [] => None
  | v :: vs =>
      let b := true_bounds v vs in
      let two := Z2Qc 2 in
      Some (((min_x b + max_x b) / two,
             (min_y b + max_y b) / two,
             (min_z b + max_z b) / two)%Qc,
            Qc_max (Qc_max (max_x b - min_x b) (max_y b - min_y b))
              (max_z b - min_z b)%Qc)
  end.

Definition Qc_leb (x y : Qc) : bool := negb (Qc_ltb y x).

(** Every coordinate of every vertex lies between [lo] and [hi]: strictly
    between them when [strict], else possibly on them. *)
Definition coordinate_between (strict : bool) (lo hi : Qc) (c : Qc) : bool :=
  if strict then Qc_ltb lo c && Qc_ltb c hi else Qc_leb lo c && Qc_leb c hi.

Definition within (strict : bool) (lo hi : Z) (vs : list UvVertex) : bool :=
  forallb (fun v =>
             coordinate_between strict (Z2Qc lo) (Z2Qc hi) (v3_0 (co v))
             && coordinate_between strict (Z2Qc lo) (Z2Qc hi) (v3_1 (co v))
             && coordinate_between strict (Z2Qc lo) (Z2Qc hi) (v3_2 (co v)))
    vs.

(** What a method leaves in the output file when it appends [evs]. *)
Definition appended (s : Streams) (evs : list Event) : Streams :=
  {| file := file s ++ evs; warnings := warnings s |}.

(** ** Vocabulary of the statements about the grouping step *)

(** The index of a vertex in the buffer under construction: the index of the
    entry that compares equal to it if there is one, else the next free
    index, with the vertex appended as a new entry. *)
Definition lookup_or_add `{Host} (d : vertex_dict) (v : UvVertex)
  : vertex_dict * nat :=
  match Py.get UvVertex_keq d v with
  | Some i => (d, i)
  | None => (d ++ [(v, length d)], length d)
  end.

(** The values of a dictionary built by the grouping step are the positions
    of its entries. *)
Definition compact {K} (d : Py.dict K nat) : Prop :=
  map snd d = seq 0 (length d).

(** ** Vocabulary of the statements about the node records *)

(** A method that does not raise and appends the events [evs] to the file
    and the messages [ws] to the warnings. *)
Definition appends (c : W unit) (evs : list Event) (ws : list string) : Prop :=
  forall s, c s = (Ok tt, {| file := file s ++ evs;
                            warnings := warnings s ++ ws |}).

(** A method that raises [e] and leaves the file and the warnings as they
    are. *)
Definition aborts (c : W unit) (e : Exn) : Prop :=
  forall s, c s = (Raise e, s).

(** The record of a generic node: class tag, name, child count, active flag,
    transform. *)
Definition node_record (nd : NodeData) : list Event :=
  [Uint 1; Str (nd_name nd); Uint (nd_childCount nd); Bool (nd_active nd);
   Mat (nd_transform nd)].

Definition vertex_events (v : UvVertex) : list Event :=
  [Vector3 (co v); Vector3 (normal v); Vector2 (uv v); Vector3 (tangent v)].

(** The record of a mesh: class tag, name, child count 0, active flag,
    cast-shadows, visible and transparent flags, the vertices, the indices,
    the material reference, layer, lod-in, lod-out, bounding sphere and
    renderable flag. *)
Definition mesh_record (obj : Object) (props : NodeProperties) (mesh : Mesh)
  : list Event :=
  [Uint 2; Str (name obj); Uint 0; Bool true;
   Bool (castShadows props); Bool (visible props); Bool (transparent props);
   Uint (Z.of_nat (length (vertices mesh)))]
  ++ flat_map vertex_events (vertices mesh)
  ++ [Uint (Z.of_nat (length (indices mesh)))]
  ++ map Ushort (indices mesh)
  ++ [Uint (or_else (material_id mesh) 0%Z); Uint (layer props);
      Float (lodIn props); Float (lodOut props);
      Vector3 (fst (bounding_sphere (vertices mesh)));
      Float (snd (bounding_sphere (vertices mesh)));
      Bool (renderable props)].

Definition mesh_warnings (obj : Object) (mesh : Mesh) : list string :=
  match material_id mesh with
  | None => [("No material to mesh '" ++ name obj ++ "' assigned")%string]
  | Some _ => []
  end.

(** The properties a mesh node is written with: the defaults, the
    [ac_properties] of the object, then every node setting in order. *)
Definition node_properties_of (self : NodeWriter) (obj : Object)
  : NodeProperties :=
  fold_left (fun p node_setting => apply_settings_to_node node_setting p)
    (node_settings self) (NodeProperties_init obj).

(** An object that is exported: not excluded by its name, and visible. *)
Definition exported (obj : Object) : bool :=
  negb (Py.startswith (name obj) "__") && visible_get obj.

(** The reader's side of the stream.  [read_record] reads one record and
    returns its declared child count and the events after it. *)
Definition read_record (evs : list Event) : option (Z * list Event) :=
  match evs with
  | Uint 1 :: Str _ :: Uint child_count :: Bool _ :: Mat _ :: rest =>
      Some (child_count, rest)
  | Uint 2 :: Str _ :: Uint child_count :: Bool _ :: Bool _ :: Bool _
      :: Bool _ :: Uint vertex_count :: rest =>
      match skipn (4 * Z.to_nat vertex_count) rest with
      | Uint index_count :: rest =>
          match skipn (Z.to_nat index_count) rest with
          | Uint _ :: Uint _ :: Float _ :: Float _ :: Vector3 _ :: Float _
              :: Bool _ :: rest => Some (child_count, rest)
          | _ => None
          end
      | _ => None
      end
  | _ => None
  end.

(** [read_nodes fuel n evs] reads [n] nodes, each followed by as many child
    nodes as it declares, and returns the events left over; [None] when the
    stream ends or is malformed before that. *)
Fixpoint read_nodes (fuel : nat) (n : nat) (evs : list Event)
  : option (list Event) :=
  match n with
  | O => Some evs
  | S n' =>
      match fuel with
      | O => None
      | S fuel' =>
          match read_record evs with
          | None => None
          | Some (child_count, rest) =>
              match read_nodes fuel' (Z.to_nat child_count) rest with
              | None => None
              | Some rest' => read_nodes fuel' n' rest'
              end
          end
      end
  end.

(** The stream is one node whose declared child counts, at every level, are
    the numbers of child records that follow. *)
Definition child_counts_hold (evs : list Event) : bool :=
  match read_nodes (S (length evs)) 1 evs with
  | Some [] => true
  | _ => false
  end.

(** A stream of [n] nodes, each followed by the nodes of its children: the
    streams that [read_nodes] reads to the end. *)
Inductive Nodes : nat -> list Event -> Prop :=
| Nodes_none : Nodes 0 []
| Nodes_more (n : nat) (record kids siblings : list Event) (child_count : Z) :
    record <> [] ->
    (forall rest, read_record (record ++ rest) = Some (child_count, rest)) ->
    Nodes (Z.to_nat child_count) kids ->
    Nodes n siblings ->
    Nodes (S n) (record ++ kids ++ siblings).

(** The groups a mesh object is written as. *)
Definition groups_of `{Host} (self : NodeWriter) (obj : Object)
  : Result (list Mesh) :=
  (ms <- _split_object_by_materials self obj ;;
   _split_meshes_for_vertex_limit ms)%result.

(** No exported mesh object without a parent, in the hierarchy below [obj],
    is written as zero groups. *)
Fixpoint no_empty_mesh `{Host} (self : NodeWriter) (obj : Object) : Prop :=
  (exported obj = true -> (type obj =? "MESH")%string = true ->
   parent obj = None -> groups_of self obj <> Ok []) /\
  (fix all (cs : list Object) : Prop :=
     match cs with
     | [] => True
     | c :: cs' => no_empty_mesh self c /\ all cs'
     end) (children obj).

(** ** Invariants used in the proofs *)

Unset Implicit Arguments.

(** The remapping of the splitter: [d] is the index dictionary, [ni] the new
    index list and [c] the indices of the parent consumed so far for the
    current sub-group. *)
Record remap_inv (d : index_dict) (ni c : list nat) : Prop := {
  ri_compact : map snd d = seq 0 (length d);
  ri_nodup : NoDup (map fst d);
  ri_sources : map (nth_error (map fst d)) ni = map Some c;
  ri_keys : incl (map fst d) c
}.

(** A group that [_write_mesh] accepts. *)
Definition fits (g : Mesh) : Prop :=
  (Z.of_nat (length (vertices g)) <= 65536)%Z.

(** What holds of the dictionary and of an index list under construction. *)
Definition indexed (n0 : nat) (st : vertex_dict * list nat) : Prop :=
  compact (fst st) /\ n0 <= length (fst st) /\
  Forall (fun i => i < length (fst st)) (snd st).

(** The dictionary is compact, the index list is made of whole triangles,
    and every index refers to an entry of the dictionary. *)
Definition grouped (st : vertex_dict * list nat) : Prop :=
  compact (fst st) /\ length (snd st) mod 3 = 0 /\
  Forall (fun i => i < length (fst st)) (snd st).

(** What a visit that ends well has written: one node with its children
    when the object is exported, nothing otherwise. *)
Definition visit_writes `{Host} (self : NodeWriter) (obj : Object) : Prop :=
  forall s s',
    no_empty_mesh self obj ->
    _write_object self obj s = (Ok tt, s') ->
    exists evs, file s' = file s ++ evs /\
                Nodes (if exported obj then 1 else 0) evs.

(** ** Vocabulary of the further statements *)

(** Every index of the group refers to one of its vertices. *)
Definition indices_in_range (g : Mesh) : bool :=
  forallb (fun i => i <? length (vertices g)) (indices g).

(** Every vertex of the group is referred to by one of its indices. *)
Definition all_referenced (g : Mesh) : bool :=
  forallb (fun j => existsb (Nat.eqb j) (indices g))
    (seq 0 (length (vertices g))).

(** The group has more vertices than the splitter lets through. *)
Definition oversize (g : Mesh) : bool :=
  (Z.of_nat (length (vertices g)) >? 2 ^ 16)%Z.

(** Every index of the group can be written as an unsigned 16-bit number. *)
Definition ushort_indices (g : Mesh) : bool :=
  forallb (fun i => (Z.of_nat i <? 2 ^ 16)%Z) (indices g).

(** A sub-group that the splitter builds from [m] when the limit is
    [limit]. *)
Definition produced (limit : Z) (m g : Mesh) : Prop :=
  material_id g = material_id m /\
  indices_in_range g = true /\
  all_referenced g = true /\
  (Z.of_nat (length (vertices g)) < limit)%Z.

(** A sub-group that was closed because it was full. *)
Definition full (limit : Z) (g : Mesh) : Prop :=
  (limit - 3 <= Z.of_nat (length (vertices g)))%Z.

(** Two vertices with the same position, normal and UV. *)
Definition same_vertex (a b : UvVertex) : Prop :=
  co a = co b /\ normal a = normal b /\ uv a = uv b.

(** The order in which the corners of a face are written: (B, C, A) for the
    corners (A, B, C), followed by (C, D, A) when there are exactly four
    corners (A, B, C, D). *)
Definition wind {A} (face : list A) : list A :=
  match face with
  | a :: b :: c :: rest =>
      [b; c; a] ++ match rest with [d] => [c; d; a] | _ => [] end
  | _ => []
  end.

(** The vertex that an index refers to in a vertex buffer is the key under
    which a dictionary holds [v]: it has the hash of [v], and [__eq__]
    finds it equal to [v]. *)
Definition stands_for `{Host} (buffer : list UvVertex) (i : nat)
    (v : UvVertex) : Prop :=
  exists k, nth_error buffer i = Some k /\ UvVertex_keq k v = true.

(** The vertices of the loops of a triangle, in the order of the loops. *)
Definition corners `{Host} (obj : Object) (mesh_copy : BlenderMesh) (mi : nat)
    (triangle : LoopTriangle) (face : list UvVertex) : Prop :=
  Forall2 (fun l v => loop_vertex obj mesh_copy mi l = Ok v)
    (loops triangle) face.

(** The triangles of a mesh that use the material slot [mi]. *)
Definition triangles_of (mesh_copy : BlenderMesh) (mi : nat)
  : list LoopTriangle :=
  filter (fun t => mi =? material_index t) (mesh_triangles mesh_copy).

(** [g] is the group of the material slot [mi]: the slot holds a material
    that is not excluded, the group carries the id of that material, its
    vertices differ pairwise in position, normal or UV, and its indices
    stand for the corners of the triangles of the slot, wound, in the order
    of the triangles. *)
Definition group_of `{Host} (self : NodeWriter) (obj : Object) (mi : nat)
    (g : Mesh) : Prop :=
  (exists material,
     nth_error (materials (evaluated_mesh obj)) mi = Some (Some material) /\
     Py.startswith (material_name material) "__" = false /\
     Py.get String.eqb (material_positions self) (material_name material)
     = material_id g /\ material_id g <> None) /\
  (forall p q a b, p < q -> nth_error (vertices g) p = Some a ->
                   nth_error (vertices g) q = Some b -> ~ same_vertex a b) /\
  exists faces,
    Forall2 (corners obj (evaluated_mesh obj) mi)
      (triangles_of (evaluated_mesh obj) mi) faces /\
    Forall2 (stands_for (vertices g)) (indices g) (flat_map wind faces).

(** What the loop over the triangles keeps: the dictionary is compact, its
    keys differ pairwise, and the indices stand for [soup]. *)
Definition grouping_inv `{Host} (st : vertex_dict * list nat)
    (soup : list UvVertex) : Prop :=
  compact (fst st) /\
  (forall p q a b, p < q -> nth_error (map fst (fst st)) p = Some a ->
                   nth_error (map fst (fst st)) q = Some b ->
                   UvVertex_keq a b = false) /\
  Forall2 (stands_for (map fst (fst st))) (snd st) soup.

(** Every exported mesh object without a parent, in the hierarchy of [obj],
    has at least one triangle. *)
Fixpoint meshes_have_faces (obj : Object) : bool :=
  (if exported obj && (type obj =? "MESH")%string && negb (has_parent obj)
   then match mesh_triangles (evaluated_mesh obj) with
        | [] => false
        | _ :: _ => true
        end
   else true)
  && forallb meshes_have_faces (children obj).

(** The square of the distance between two points. *)
Definition sq_distance (a b : vec3) : Qc :=
  ((v3_0 a - v3_0 b) * (v3_0 a - v3_0 b) +
   (v3_1 a - v3_1 b) * (v3_1 a - v3_1 b) +
   (v3_2 a - v3_2 b) * (v3_2 a - v3_2 b))%Qc.

(** The objects below [obj] in the hierarchy, at any depth. *)
Fixpoint descendants (obj : Object) : list Object :=
  (fix go (cs : list Object) : list Object :=
     match cs with
     | [] => []
     | c :: cs' => c :: descendants c ++ go cs'
     end) (children obj).

Definition is_mesh_or_curve (obj : Object) : bool :=
  (type obj =? "MESH")%string || (type obj =? "CURVE")%string.

(** The warning of [_write_base_node] for an object of the given name. *)
Definition unknown_object_warning `{Host} (name : string) : string :=
  (("Unknown logical object '" ++ name ++
    "' might prevent other objects from loading." ++ linesep) ++
   String (ascii_of_nat 9)
     "Rename it to '__{obj.name}' if you do not want to export it.")%string.

(** The last of the values that are present. *)
Fixpoint last_given {A} (l : list (option A)) : option A :=
  match l with
  | [] => None
  | o :: l' =>
      match last_given l' with
      | Some x => Some x
      | None => o
      end
  end.

(** The overrides a mesh node is subject to, in the order in which they are
    applied: the [ac_properties] of the object, then the settings of every
    node key. *)
Definition overrides_of (self : NodeWriter) (obj : Object)
  : list NodeOverrides :=
  match ac_properties obj with
  | Some props => [props]
  | None => []
  end ++ map settings (node_settings self).

(** The visit of [obj] meets none of the three obstacles: below every
    exported object that is reached, a mesh object has no children, its
    grouping step returns, and the world matrix of its parent, if it has
    one, has an inverse. *)
Fixpoint visit_ok `{Host} (self : NodeWriter) (obj : Object) : Prop :=
  exported obj = true ->
  if (type obj =? "MESH")%string then
    children obj = [] /\
    (exists ms, _split_object_by_materials self obj = Ok ms) /\
    (forall parent_matrix_world,
       parent obj = Some parent_matrix_world ->
       matrix_inverted parent_matrix_world <> None)
  else
    (fix all (cs : list Object) : Prop :=
       match cs with
       | [] => True
       | c :: cs' => visit_ok self c /\ all cs'
       end) (children obj).

(** The loop and its vertex exist, and the active UV layer has an entry
    for the loop. *)
Definition loop_ok (mesh_copy : BlenderMesh) (loop_index : nat) : bool :=
  match nth_error (mesh_loops mesh_copy) loop_index with
  | None => false
  | Some loop =>
      match nth_error (mesh_vertices mesh_copy) (vertex_index loop) with
      | None => false
      | Some _ =>
          match uv_layer mesh_copy with
          | Some data => loop_index <? length data
          | None => false
          end
      end
  end.

(** The material slot of the triangle holds a material that is exported and
    that the material writer knows. *)
Definition slot_known (self : NodeWriter) (mesh_copy : BlenderMesh)
    (triangle : LoopTriangle) : bool :=
  match nth_error (materials mesh_copy) (material_index triangle) with
  | Some (Some material) =>
      negb (Py.startswith (material_name material) "__")
      && match Py.get String.eqb (material_positions self)
                 (material_name material) with
         | Some _ => true
         | None => false
         end
  | _ => false
  end.

(** The triangle has at least three loops, and each of them is in order. *)
Definition triangle_ok (mesh_copy : BlenderMesh) (triangle : LoopTriangle)
  : bool :=
  (3 <=? length (loops triangle))
  && forallb (loop_ok mesh_copy) (loops triangle).

(** The tangents of the mesh can be computed, the mesh has material slots,
    and every triangle is in order and has a known material. *)
Definition mesh_ok `{Host} (self : NodeWriter) (obj : Object) : bool :=
  match calc_tangents (evaluated_mesh obj) with
  | Raise _ => false
  | Ok _ =>
      match materials (evaluated_mesh obj) with
      | [] => false
      | _ :: _ =>
          forallb (fun t => slot_known self (evaluated_mesh obj) t
                            && triangle_ok (evaluated_mesh obj) t)
            (mesh_triangles (evaluated_mesh obj))
      end
  end.

(** An event that is not an index, or an index that can be written as an
    unsigned 16-bit number. *)
Definition ushort_event (e : Event) : Prop :=
  match e with
  | Ushort n => (Z.of_nat n < 2 ^ 16)%Z
  | _ => True
  end.

(** A method that, whether it returns or raises, leaves the file and the
    warnings as they were, followed by what it has added, and that adds no
    index beyond 16 bits. *)
Definition only_appends {A} (c : W A) : Prop :=
  forall s, exists evs ws,
    snd (c s) = {| file := file s ++ evs; warnings := warnings s ++ ws |} /\
    Forall ushort_event evs.

(** The UV data of a mesh sits on the loops of its faces: a mesh that has
    UV data has a face, hence a loop triangle. *)
Definition uv_on_faces (mesh : BlenderMesh) : bool :=
  match uv_layer mesh with
  | Some (_ :: _) =>
      match mesh_triangles mesh with
      | [] => false
      | _ :: _ => true
      end
  | _ => true
  end.

(** This holds of the mesh of every object of the hierarchy of [obj]. *)
Fixpoint meshes_consistent (obj : Object) : bool :=
  uv_on_faces (evaluated_mesh obj)
  && forallb meshes_consistent (children obj).

(** ** Vocabulary of the statements about the walk over the hierarchy *)

(** An object with other children, and a writer with other objects. *)
Definition with_children (p : Object) (cs : list Object) : Object :=
  {| name := name p; type := type p; visible_get := visible_get p;
     parent := parent p; children := cs; matrix_local := matrix_local p;
     matrix_world := matrix_world p; dimensions := dimensions p;
     ac_properties := ac_properties p; evaluated_mesh := evaluated_mesh p |}.

Definition with_objects (self : NodeWriter) (objs : list Object) : NodeWriter :=
  {| objects := objs; node_settings := node_settings self;
     material_positions := material_positions self |}.

(** Two outcomes with the same result and the same file; the warnings may
    differ. *)
Definition same_output {A} (x y : Result A * Streams) : Prop :=
  fst x = fst y /\ file (snd x) = file (snd y).

(** A method whose result and whose file do not depend on the warnings. *)
Definition file_only {A} (c : W A) : Prop :=
  forall s t, file s = file t -> same_output (c s) (c t).

(** The visit of [anc], started with the streams [s], arrives at the visit
    of [target] with the streams [s']: [target] is [anc] itself, or it is
    arrived at from a visible child [c] of [anc], where [anc] is exported
    and is not a mesh, and the record of [anc] and the visits of the
    children before [c] have ended well. *)
Inductive walk_reaches `{Host} (self : NodeWriter) (target : Object)
  : Object -> Streams -> Streams -> Prop :=
| reaches_here (s : Streams) : walk_reaches self target target s s
| reaches_below (p c : Object) (before after : list Object)
    (s s1 s' : Streams) :
    exported p = true ->
    (type p =? "MESH")%string = false ->
    children p = before ++ c :: after ->
    (_write_base_node self (Some p) (name p) ;;
     for_each (fun child => if visible_get child
                            then _write_object self child else ret tt)
       before)%writer s = (Ok tt, s1) ->
    visible_get c = true ->
    walk_reaches self target c s1 s' ->
    walk_reaches self target p s s'.

(** The export, started with the streams [s], arrives at the visit of
    [target] with the streams [s']: from a visible object [top] without a
    parent, after the root record and the visits of the objects before
    [top] have ended well. *)
Definition export_reaches `{Host} (self : NodeWriter) (target : Object)
    (s s' : Streams) : Prop :=
  exists before top after s1,
    Py.sorted (fun k => Z.of_nat (length (children k))) (objects self)
    = before ++ top :: after /\
    (_write_base_node self None "BlenderFile" ;;
     for_each (fun obj => if negb (has_parent obj) && visible_get obj
                          then _write_object self obj else ret tt)
       before)%writer s = (Ok tt, s1) /\
    has_parent top = false /\
    visible_get top = true /\
    walk_reaches self target top s1 s'.

(** [target] is [anc] or lies below it, at any depth, under exported objects
    that are not meshes and through visible children: the objects that the
    walk gets to from [anc] when nothing raises before. *)
Inductive reached_below : Object -> Object -> Prop :=
| below_here (obj : Object) : reached_below obj obj
| below_child (p c target : Object) :
    exported p = true ->
    (type p =? "MESH")%string = false ->
    In c (children p) ->
    visible_get c = true ->
    reached_below c target ->
    reached_below p target.

(** * Proofs *)

(** Closed examples run on the demonstration host; the general statements
    are made for every host. *)
#[local] Existing Instance Demo.host.

(** ** Lists, slices and ranges *)

Lemma firstn_plus {A} (a b : nat) (l : list A) :
  firstn (a + b) l = firstn a l ++ firstn b (skipn a l).
Proof.
  revert l. induction a as [|a IH]; intros l; simpl; [reflexivity|].
  destruct l as [|x l]; simpl.
  - rewrite firstn_nil. reflexivity.
  - rewrite IH. reflexivity.
Qed.

Lemma slice_app {A} (l : list A) (a b c : nat) :
  a <= b -> b <= c -> Py.slice l a c = Py.slice l a b ++ Py.slice l b c.
Proof.
  intros Hab Hbc. unfold Py.slice.
  replace (c - a) with ((b - a) + (c - b)) by lia.
  rewrite firstn_plus, skipn_skipn.
  replace (b - a + a) with b by lia. reflexivity.
Qed.

Lemma slice_nil {A} (l : list A) (a : nat) : Py.slice l a a = [].
Proof. unfold Py.slice. rewrite Nat.sub_diag. reflexivity. Qed.

Lemma slice_length {A} (l : list A) (a b : nat) :
  length (Py.slice l a b) = Nat.min (b - a) (length l - a).
Proof. unfold Py.slice. rewrite length_firstn, length_skipn. reflexivity. Qed.

Lemma In_firstn {A} (n : nat) (l : list A) x : In x (firstn n l) -> In x l.
Proof.
  intros H. rewrite <- (firstn_skipn n l). apply in_or_app. left. exact H.
Qed.

Lemma In_skipn {A} (n : nat) (l : list A) x : In x (skipn n l) -> In x l.
Proof.
  intros H. rewrite <- (firstn_skipn n l). apply in_or_app. right. exact H.
Qed.

Lemma slice_incl {A} (l : list A) (a b : nat) : incl (Py.slice l a b) l.
Proof.
  unfold Py.slice. intros x Hx.
  apply In_firstn in Hx. eapply In_skipn; eauto.
Qed.

Lemma slice_to_end {A} (l : list A) (a b : nat) :
  length l <= b -> Py.slice l a b = skipn a l.
Proof.
  intros H. unfold Py.slice. apply firstn_all2. rewrite length_skipn. lia.
Qed.

(** ** Dictionaries in general *)

Section DictFacts.
Context {K V : Type} (keq : K -> K -> bool).

Lemma dict_get_set_same (d : Py.dict K V) (k : K) (v : V) :
  keq k k = true -> Py.get keq (Py.set keq d k v) k = Some v.
Proof.
  intros Hrefl. induction d as [|[k' v'] d IH]; cbn [Py.set Py.get].
  - rewrite Hrefl. reflexivity.
  - destruct (keq k' k) eqn:E; cbn [Py.get]; rewrite E; [reflexivity | exact IH].
Qed.

Lemma dict_set_absent (d : Py.dict K V) (k : K) (v : V) :
  Py.get keq d k = None -> Py.set keq d k v = d ++ [(k, v)].
Proof.
  induction d as [|[k' v'] d IH]; cbn [Py.set Py.get]; [reflexivity|].
  destruct (keq k' k); [discriminate|].
  intros H. rewrite (IH H). reflexivity.
Qed.

Lemma dict_get_ext (d : Py.dict K V) (a b : K) :
  (forall k, keq k a = keq k b) -> Py.get keq d a = Py.get keq d b.
Proof.
  intros Hext. induction d as [|[k' v'] d IH]; cbn [Py.get]; [reflexivity|].
  rewrite Hext, IH. reflexivity.
Qed.

Lemma dict_get_app_absent (d : Py.dict K V) (k : K) (v : V) :
  keq k k = true ->
  Py.get keq d k = None -> Py.get keq (d ++ [(k, v)]) k = Some v.
Proof.
  intros Hrefl. induction d as [|[k' v'] d IH]; cbn [Py.get app].
  - rewrite Hrefl. reflexivity.
  - destruct (keq k' k); [discriminate | exact IH].
Qed.

End DictFacts.

Lemma dict_get_app_present {K V} (keq : K -> K -> bool) (d d' : Py.dict K V)
    (k : K) (v : V) :
  Py.get keq d k = Some v -> Py.get keq (d ++ d') k = Some v.
Proof.
  induction d as [|[k0 v0] d IH]; cbn [Py.get app]; [discriminate|].
  destruct (keq k0 k); [trivial | exact IH].
Qed.

Lemma dict_get_nth {K V} (keq : K -> K -> bool) (d : Py.dict K V) k v :
  Py.get keq d k = Some v ->
  exists p k', nth_error d p = Some (k', v) /\ keq k' k = true.
Proof.
  induction d as [|[k' v'] d IH]; cbn [Py.get]; [discriminate|].
  destruct (keq k' k) eqn:E.
  - intros [= ->]. exists 0, k'. split; [reflexivity | exact E].
  - intros Hg. destruct (IH Hg) as (p & k'' & Hp & Hk).
    exists (S p), k''. split; [exact Hp | exact Hk].
Qed.

(** ** Dictionaries keyed by integers *)

Lemma get_not_in (d : Py.dict nat nat) k :
  Py.get Nat.eqb d k = None -> ~ In k (map fst d).
Proof.
  induction d as [|[k' v] d IH]; simpl; [tauto|].
  destruct (Nat.eqb_spec k' k); [discriminate|].
  intros H [E|E]; [congruence | exact (IH H E)].
Qed.

Lemma get_nth (d : Py.dict nat nat) k v :
  Py.get Nat.eqb d k = Some v -> exists p, nth_error d p = Some (k, v).
Proof.
  intros Hget. destruct (dict_get_nth Nat.eqb d k v Hget) as (p & k' & Hp & Hk).
  apply Nat.eqb_eq in Hk. subst k'. exists p. exact Hp.
Qed.

(** ** Sorting an already sorted list *)

Section SortedId.
Context {A : Type} (key : A -> Z).

Lemma insert_by_last (x : A) (l : list A) :
  Forall (fun y => (key y <= key x)%Z) l -> Py.insert_by key x l = l ++ [x].
Proof.
  induction 1 as [|y l Hy _ IH]; simpl; [reflexivity|].
  destruct (Z.leb_spec (key y) (key x)); [|lia].
  rewrite IH. reflexivity.
Qed.

Lemma sorted_fold_id (l acc : list A) :
  Forall (fun y => Forall (fun x => (key y <= key x)%Z) l) acc ->
  StronglySorted (fun a b => (key a <= key b)%Z) l ->
  fold_left (fun acc x => Py.insert_by key x acc) l acc = acc ++ l.
Proof.
  revert acc. induction l as [|x l IH]; intros acc Hacc Hs; simpl.
  - rewrite app_nil_r. reflexivity.
  - inversion Hs as [|? ? Hs' Hx]; subst.
    rewrite insert_by_last.
    + rewrite IH; [rewrite <- app_assoc; reflexivity | | assumption].
      apply Forall_app. split.
      * eapply Forall_impl; [|exact Hacc].
        intros y Hy. inversion Hy; assumption.
      * constructor; [exact Hx | constructor].
    + eapply Forall_impl; [|exact Hacc].
      intros y Hy. inversion Hy; assumption.
Qed.

Lemma sorted_id (l : list A) :
  StronglySorted (fun a b => (key a <= key b)%Z) l -> Py.sorted key l = l.
Proof.
  intros Hs. unfold Py.sorted. rewrite sorted_fold_id; auto.
Qed.
End SortedId.

Lemma compact_is_sorted {K} (d : Py.dict K nat) a :
  map snd d = seq a (length d) ->
  StronglySorted (fun x y => (Z.of_nat (snd x) <= Z.of_nat (snd y))%Z) d.
Proof.
  revert a. induction d as [|[k v] d IH]; intros a H; simpl in *.
  - constructor.
  - injection H as -> Hd. constructor; [exact (IH _ Hd)|].
    apply Forall_forall. intros [k' v'] Hin. simpl.
    assert (In v' (seq (S a) (length d))) as Hv
      by (rewrite <- Hd; exact (in_map snd _ _ Hin)).
    apply in_seq in Hv. lia.
Qed.

(** ** The remapping invariant of the splitter *)


Lemma remap_inv_init : remap_inv ([] : index_dict) [] [].
Proof. split; simpl; auto using NoDup_nil, incl_nil_l. Qed.

Lemma remap_index_spec (d : index_dict) ni c fi :
  remap_inv d ni c ->
  exists d' j,
    remap_index (d, ni) fi = Ok (d', ni ++ [j]) /\
    remap_inv d' (ni ++ [j]) (c ++ [fi]) /\
    length d <= length d' <= length d + 1.
Proof.
  intros [Hc Hn Hs Hk]. unfold remap_index, Py.mem.
  destruct (Py.get Nat.eqb d fi) as [j|] eqn:Hget; simpl.
  - rewrite Hget. exists d, j. split; [reflexivity|]. split; [|lia].
    destruct (get_nth _ _ _ Hget) as [p Hp].
    assert (j = p) as ->.
    { assert (nth_error (map snd d) p = Some j) as Hj
        by (rewrite nth_error_map, Hp; reflexivity).
      rewrite Hc in Hj.
      assert (p < length d) by (apply nth_error_Some; congruence).
      rewrite nth_error_seq in Hj.
      destruct (Nat.ltb_spec p (length d)); [|lia].
      simpl in Hj. congruence. }
    split; auto.
    + rewrite !map_app, Hs. simpl.
      rewrite nth_error_map, Hp. reflexivity.
    + apply incl_appl. exact Hk.
  - rewrite (dict_set_absent Nat.eqb _ _ _ Hget).
    rewrite (dict_get_app_absent Nat.eqb _ _ _ (Nat.eqb_refl fi) Hget).
    exists (d ++ [(fi, length d)] : index_dict), (length d).
    split; [reflexivity|]. split; [|rewrite length_app; simpl; lia].
    split.
    + rewrite map_app, length_app, Hc. simpl.
      rewrite Nat.add_1_r, seq_S. reflexivity.
    + rewrite map_app. simpl.
      apply NoDup_app; auto.
      * constructor; [simpl; tauto | constructor].
      * intros x Hx [<-|[]]. exact (get_not_in _ _ Hget Hx).
    + rewrite !map_app. simpl. f_equal.
      * rewrite <- Hs. apply map_ext_in. intros i Hi.
        apply nth_error_app1. apply nth_error_Some.
        assert (In (nth_error (map fst d) i) (map Some c)) as Hin
          by (rewrite <- Hs; apply in_map; exact Hi).
        apply in_map_iff in Hin. destruct Hin as [x [Hx _]]. congruence.
      * rewrite nth_error_app2; rewrite length_map; [|lia].
        rewrite Nat.sub_diag. reflexivity.
    + rewrite map_app. simpl. apply incl_app.
      * apply incl_appl. exact Hk.
      * apply incl_appr. apply incl_refl.
Qed.

Lemma remap_face_spec face : forall (d : index_dict) ni c,
  remap_inv d ni c ->
  exists d' ni',
    remap_face face (d, ni) = Ok (d', ni') /\
    remap_inv d' ni' (c ++ face) /\
    length ni' = length ni + length face /\
    length d <= length d' <= length d + length face.
Proof.
  induction face as [|fi face IH]; intros d ni c Hinv; cbn [remap_face].
  - exists d, ni. rewrite app_nil_r.
    split; [reflexivity|]. split; [exact Hinv|]. simpl. lia.
  - destruct (remap_index_spec _ _ _ fi Hinv) as (d1 & j & -> & Hinv1 & Hlen1).
    cbn [rbind].
    destruct (IH _ _ _ Hinv1) as (d2 & ni2 & -> & Hinv2 & Hni & Hlen2).
    exists d2, ni2. split; [reflexivity|].
    rewrite <- app_assoc in Hinv2. simpl in Hinv2.
    split; [exact Hinv2|].
    rewrite length_app in Hni. simpl in *. lia.
Qed.

Lemma remap_inv_length (d : index_dict) ni c :
  remap_inv d ni c -> length ni = length c.
Proof.
  intros H. pose proof (f_equal (@length _) (ri_sources _ _ _ H)) as E.
  rewrite !length_map in E. exact E.
Qed.

Lemma gather_spec (vs : list UvVertex) (keys : list (nat * nat)) :
  Forall (fun k => k < length vs) (map fst keys) ->
  exists verts,
    gather vs keys = Ok verts /\
    map Some verts = map (nth_error vs) (map fst keys).
Proof.
  induction keys as [|[k v] keys IH]; simpl; intros H.
  - exists []. split; reflexivity.
  - inversion H as [|? ? Hk Hrest]; subst.
    destruct (IH Hrest) as (verts & -> & Hv).
    unfold Py.getitem.
    destruct (nth_error vs k) as [x|] eqn:Hx.
    + exists (x :: verts). simpl. rewrite Hv. split; reflexivity.
    + apply nth_error_None in Hx. lia.
Qed.

Lemma gather_not_out_of_fuel (vs : list UvVertex) keys :
  gather vs keys <> Raise OutOfFuel.
Proof.
  induction keys as [|[k v] keys IH]; simpl; [discriminate|].
  unfold Py.getitem. destruct (nth_error vs k); simpl; [|discriminate].
  destruct (gather vs keys) as [xs|e]; simpl; [discriminate|].
  intros [= ->]. apply IH. reflexivity.
Qed.

Section SplitterProofs.

Variable limit : Z.

(** The inner [for] loop: it consumes whole steps of the range, at least one
    when the range is not empty, and stops before the dictionary can reach
    [limit] entries. *)
Lemma fill_group_spec (idx : list nat) (s0 n : nat) :
  forall i (d : index_dict) ni,
    s0 <= i ->
    remap_inv d ni (Py.slice idx s0 i) ->
    exists i' (d' : index_dict) ni',
      fill_group limit idx (Py.range_from n i 3) i (d, ni) = Ok (i', (d', ni')) /\
      remap_inv d' ni' (Py.slice idx s0 i') /\
      (exists k, i' = i + 3 * k /\ k <= n /\ (0 < n -> 0 < k)) /\
      ((Z.of_nat (length d) < limit - 3)%Z -> (Z.of_nat (length d') < limit)%Z).
Proof.
  induction n as [|n IH]; intros i d ni Hle Hinv; cbn [Py.range_from fill_group].
  - exists i, d, ni. split; [reflexivity|]. split; [exact Hinv|].
    split; [exists 0; lia | lia].
  - destruct (remap_face_spec (Py.slice idx i (i + 3)) _ _ _ Hinv)
      as (d1 & ni1 & -> & Hinv1 & _ & Hlen1).
    cbn [rbind fst].
    rewrite <- slice_app in Hinv1 by lia.
    assert (length (Py.slice idx i (i + 3)) <= 3) as Hface
      by (rewrite slice_length; lia).
    destruct (Z.leb_spec (limit - 3) (Z.of_nat (length d1))) as [Hbrk|Hcont].
    + exists (i + 3), d1, ni1. split; [reflexivity|]. split; [exact Hinv1|].
      split; [exists 1; lia | lia].
    + destruct (IH (i + 3) d1 ni1 ltac:(lia) Hinv1)
        as (i' & d' & ni' & -> & Hinv' & (k & -> & Hk & _) & Hbound).
      exists (i + 3 + 3 * k), d', ni'. split; [reflexivity|].
      split; [exact Hinv'|]. split; [exists (S k); lia | lia].
Qed.

Hypothesis limit_range : (4 <= limit <= 65536)%Z.

Section OneMesh.

Variable m : Mesh.
Hypothesis m_triangles : length (indices m) mod 3 = 0.
Hypothesis m_in_range : Forall (fun i => i < length (vertices m)) (indices m).

Lemma range3_steps s0 :
  s0 mod 3 = 0 -> s0 <= length (indices m) ->
  s0 + 3 * ((length (indices m) - s0 + 2) / 3) = length (indices m).
Proof.
  intros Hs Hle.
  pose proof (Nat.div_mod_eq (length (indices m)) 3) as E1.
  pose proof (Nat.div_mod_eq s0 3) as E2.
  rewrite m_triangles in E1. rewrite Hs in E2.
  set (a := length (indices m) / 3) in *. set (b := s0 / 3) in *.
  replace (length (indices m) - s0 + 2) with (2 + (a - b) * 3) by lia.
  rewrite Nat.div_add by lia. simpl. lia.
Qed.

Lemma split_loop_spec (fuel : nat) :
  forall s0 acc,
    length (indices m) - s0 <= fuel ->
    s0 mod 3 = 0 -> s0 <= length (indices m) ->
    exists part,
      split_loop limit fuel m s0 acc = Ok (acc ++ map fst part) /\
      Forall (fun p => subgroup m (fst p) (snd p)) part /\
      concat (map sources part) = map Some (skipn s0 (indices m)).
Proof.
  induction fuel as [|fuel IH]; intros s0 acc Hfuel Hmod Hle;
    cbn [split_loop]; destruct (Nat.ltb_spec s0 (length (indices m))) as [Hlt|Hge];
    try lia;
    try (exists []; simpl; rewrite app_nil_r, skipn_all2 by lia;
         split; [reflexivity|]; split; [constructor | reflexivity]).
  unfold Py.range3.
  pose proof (range3_steps s0 Hmod Hle) as Hsteps.
  set (n := (length (indices m) - s0 + 2) / 3) in *.
  assert (remap_inv ([] : index_dict) [] (Py.slice (indices m) s0 s0)) as Hinit
    by (rewrite slice_nil; exact remap_inv_init).
  destruct (fill_group_spec (indices m) s0 n s0 [] [] (le_n _) Hinit)
    as (i' & d' & ni' & Hfill & Hinv & (k & -> & Hk & Hpos) & Hbound).
  cbv zeta. rewrite Hfill.
  cbn [rbind]. unfold Py.items.
  rewrite (sorted_id _ _ (compact_is_sorted _ 0 (ri_compact _ _ _ Hinv))).
  assert (Forall (fun j => j < length (vertices m)) (map fst d')) as Hkeys.
  { apply Forall_forall. intros j Hj.
    apply (ri_keys _ _ _ Hinv), slice_incl in Hj.
    exact (proj1 (Forall_forall _ _) m_in_range _ Hj). }
  destruct (gather_spec (vertices m) d' Hkeys) as (verts & -> & Hverts).
  cbn [rbind].
  assert (0 < n) as Hn by lia. specialize (Hpos Hn).
  destruct (IH (s0 + 3 * k)
              (acc ++ [mkMesh (material_id m) verts ni'])) as (part & -> & Hpart & Hcat).
  { lia. }
  { rewrite Nat.Div0.add_mod, Hmod, (Nat.mul_comm 3 k), Nat.Div0.mod_mul.
    reflexivity. }
  { lia. }
  exists ((mkMesh (material_id m) verts ni', map fst d') :: part).
  split; [rewrite <- app_assoc; reflexivity|]. split.
  - constructor; [|exact Hpart].
    split; cbn [fst snd indices vertices material_id].
    + reflexivity.
    + rewrite (remap_inv_length _ _ _ Hinv), slice_length.
      replace (Nat.min (s0 + 3 * k - s0) (length (indices m) - s0)) with (k * 3)
        by lia.
      apply Nat.Div0.mod_mul.
    + assert (length verts = length d') as ->.
      { pose proof (f_equal (@length _) Hverts) as E.
        rewrite !length_map in E. exact E. }
      simpl in Hbound. lia.
    + exact (ri_nodup _ _ _ Hinv).
    + exact Hverts.
  - cbn [map concat]. rewrite Hcat. unfold sources at 1.
    cbn [fst snd indices].
    rewrite (ri_sources _ _ _ Hinv), <- map_app. f_equal.
    rewrite <- (slice_to_end (indices m) s0 (length (indices m))) by lia.
    rewrite <- (slice_to_end (indices m) (s0 + 3 * k) (length (indices m))) by lia.
    symmetry. apply slice_app; lia.
Qed.

Lemma seq_sources (n : nat) (l : list nat) :
  Forall (fun i => i < n) l -> map (nth_error (seq 0 n)) l = map Some l.
Proof.
  intros H. apply map_ext_in. intros i Hi.
  rewrite nth_error_seq.
  pose proof (proj1 (Forall_forall _ _) H _ Hi) as Hlt. cbv beta in Hlt.
  destruct (Nat.ltb_spec i n); [reflexivity | lia].
Qed.

Lemma map_nth_error_seq {A} (l : list A) :
  map (nth_error l) (seq 0 (length l)) = map Some l.
Proof.
  induction l as [|x l IH] using rev_ind; [reflexivity|].
  rewrite length_app. simpl. rewrite Nat.add_1_r, seq_S, !map_app. simpl.
  rewrite nth_error_app2, Nat.sub_diag by lia. simpl. f_equal.
  rewrite <- IH. apply map_ext_in. intros i Hi. apply in_seq in Hi.
  apply nth_error_app1. lia.
Qed.

Lemma split_mesh_spec acc :
  exists part,
    split_mesh limit acc m = Ok (acc ++ map fst part) /\ splits_into m part.
Proof.
  unfold split_mesh.
  destruct (Z.gtb_spec (Z.of_nat (length (vertices m))) limit) as [Hbig|Hsmall].
  - destruct (split_loop_spec (length (indices m)) 0 acc) as (part & E & Hp & Hc);
      [lia | reflexivity | lia |].
    exists part. split; [exact E|]. split; [exact Hp | exact Hc].
  - exists [(m, seq 0 (length (vertices m)))]. split; [reflexivity|]. split.
    + constructor; [|constructor]. simpl. split.
      * reflexivity.
      * exact m_triangles.
      * lia.
      * apply seq_NoDup.
      * symmetry. apply map_nth_error_seq.
    + simpl. rewrite app_nil_r. unfold sources. simpl.
      apply seq_sources. exact m_in_range.
Qed.

End OneMesh.

End SplitterProofs.

(** Consecutive chunks of whole triangles keep every triangle whole. *)
Lemma chunks_keep_triples {A} (ls : list (list A)) :
  Forall (fun c => length c mod 3 = 0) ls ->
  forall t, 3 * t + 2 < length (concat ls) ->
    exists c t', In c ls /\
      forall k, k < 3 ->
        nth_error c (3 * t' + k) = nth_error (concat ls) (3 * t + k).
Proof.
  induction 1 as [|c ls Hc _ IH]; intros t Ht; simpl in Ht; [lia|].
  rewrite length_app in Ht.
  pose proof (Nat.div_mod_eq (length c) 3) as E. rewrite Hc in E.
  set (q := length c / 3) in *.
  destruct (Nat.lt_ge_cases t q) as [Hlt|Hge].
  - exists c, t. split; [left; reflexivity|]. intros k Hk.
    cbn [concat]. rewrite nth_error_app1 by lia. reflexivity.
  - destruct (IH (t - q)) as (c' & t' & Hin & Hnth); [lia|].
    exists c', t'. split; [right; exact Hin|]. intros k Hk.
    cbn [concat]. rewrite nth_error_app2 by lia.
    rewrite (Hnth k Hk). f_equal. lia.
Qed.

Lemma splits_keep_triangles (m : Mesh) (part : list (Mesh * list nat)) :
  splits_into m part -> triangles_kept m part.
Proof.
  intros [Hsub Hcat] t Ht.
  destruct (chunks_keep_triples (map sources part)) with (t := t)
    as (c & t' & Hin & Hnth).
  - apply Forall_map. eapply Forall_impl; [|exact Hsub].
    intros p Hp. unfold sources. rewrite length_map.
    exact (sg_triangles Hp).
  - rewrite Hcat, length_map. exact Ht.
  - apply in_map_iff in Hin. destruct Hin as (p & <- & Hp).
    exists p, t'. split; [exact Hp|]. intros k Hk.
    rewrite (Hnth k Hk), Hcat. reflexivity.
Qed.

Lemma mesh_wf_spec (m : Mesh) :
  mesh_wf m = true ->
  length (indices m) mod 3 = 0 /\
  Forall (fun i => i < length (vertices m)) (indices m).
Proof.
  unfold mesh_wf. intros H. apply andb_prop in H. destruct H as [H1 H2].
  split; [apply Nat.eqb_eq; exact H1|].
  apply Forall_forall. intros i Hi.
  apply Nat.ltb_lt. exact (proj1 (forallb_forall _ _) H2 i Hi).
Qed.

Lemma split_meshes_spec (limit : Z) (divided_meshes : list Mesh) :
  (4 <= limit <= 65536)%Z ->
  forallb mesh_wf divided_meshes = true ->
  forall acc,
  exists parts : list (list (Mesh * list nat)),
    split_meshes limit divided_meshes acc = Ok (acc ++ map fst (concat parts)) /\
    Forall2 (fun m part => splits_into m part /\ triangles_kept m part)
      divided_meshes parts.
Proof.
  intros Hlimit. induction divided_meshes as [|m ms IH]; intros Hwf acc;
    cbn [split_meshes].
  - exists []. simpl. rewrite app_nil_r. split; [reflexivity | constructor].
  - cbn [forallb] in Hwf. apply andb_prop in Hwf. destruct Hwf as [Hm Hms].
    destruct (mesh_wf_spec m Hm) as [Htri Hrange].
    destruct (split_mesh_spec limit Hlimit m Htri Hrange acc)
      as (part & -> & Hpart).
    cbn [rbind].
    destruct (IH Hms (acc ++ map fst part)) as (parts & -> & Hparts).
    exists (part :: parts). split.
    + cbn [concat]. rewrite map_app, app_assoc. reflexivity.
    + constructor; [|exact Hparts].
      split; [exact Hpart | exact (splits_keep_triangles m part Hpart)].
Qed.

(** The model's iteration budget is never the reason for a failure. *)
Lemma split_loop_not_out_of_fuel (limit : Z) (m : Mesh) (fuel : nat) :
  forall s0 acc,
    length (indices m) - s0 <= fuel ->
    split_loop limit fuel m s0 acc <> Raise OutOfFuel.
Proof.
  induction fuel as [|fuel IH]; intros s0 acc Hfuel; cbn [split_loop];
    destruct (Nat.ltb_spec s0 (length (indices m))) as [Hlt|Hge];
    try lia; try discriminate.
  unfold Py.range3.
  set (n := (length (indices m) - s0 + 2) / 3).
  assert (0 < n) as Hn.
  { unfold n. apply Nat.div_str_pos. lia. }
  assert (remap_inv ([] : index_dict) [] (Py.slice (indices m) s0 s0)) as Hinit
    by (rewrite slice_nil; exact remap_inv_init).
  destruct (fill_group_spec limit (indices m) s0 n s0 [] [] (le_n _) Hinit)
    as (i' & d' & ni' & Hfill & _ & (k & -> & _ & Hpos) & _).
  cbv zeta. rewrite Hfill. cbn [rbind]. specialize (Hpos Hn).
  destruct (gather (vertices m) _) as [verts|e] eqn:Hg; cbn [rbind].
  - apply IH. lia.
  - intros [= ->]. exact (gather_not_out_of_fuel _ _ Hg).
Qed.

Lemma split_meshes_not_out_of_fuel (limit : Z) (divided_meshes : list Mesh) :
  forall acc, split_meshes limit divided_meshes acc <> Raise OutOfFuel.
Proof.
  induction divided_meshes as [|m ms IH]; intros acc; cbn [split_meshes];
    [discriminate|].
  destruct (split_mesh limit acc m) as [acc'|e] eqn:Hm; cbn [rbind].
  - apply IH.
  - intros [= ->]. revert Hm. unfold split_mesh.
    destruct (Z.of_nat (length (vertices m)) >? limit)%Z; [|discriminate].
    apply split_loop_not_out_of_fuel. lia.
Qed.

(** ** C1: the groups produced by the index-limit splitter *)

(** C1.  For mesh groups made of whole triangles whose indices refer to their
    own vertices, [_split_meshes_for_vertex_limit] returns, for each input
    group, consecutive sub-groups such that every sub-group has the material
    id of its parent, an index list whose length is a multiple of 3, at most
    65536 vertices, all of them distinct vertices of the parent, and such
    that the three indices of every triangle of the parent are mapped into
    one and the same sub-group. *)
Theorem split_meshes_for_vertex_limit_groups (divided_meshes : list Mesh) :
  forallb mesh_wf divided_meshes = true ->
  exists parts : list (list (Mesh * list nat)),
    _split_meshes_for_vertex_limit divided_meshes = Ok (map fst (concat parts)) /\
    Forall2 (fun m part => splits_into m part /\ triangles_kept m part)
      divided_meshes parts.
Proof.
  intros Hwf. unfold _split_meshes_for_vertex_limit.
  destruct (split_meshes_spec (2 ^ 16) divided_meshes) with (acc := @nil Mesh)
    as (parts & E & Hparts); [lia | exact Hwf |].
  exists parts. split; [exact E | exact Hparts].
Qed.

Lemma split_meshes_for_vertex_limit_groups_witness :
  forallb mesh_wf [Demo.small_group; Demo.large_group] = true /\
  exists parts : list (list (Mesh * list nat)),
    _split_meshes_for_vertex_limit [Demo.small_group; Demo.large_group]
    = Ok (map fst (concat parts)) /\
    Forall2 (fun m part => splits_into m part /\ triangles_kept m part)
      [Demo.small_group; Demo.large_group] parts.
Proof.
  split; [vm_compute; reflexivity|].
  apply split_meshes_for_vertex_limit_groups. vm_compute. reflexivity.
Defined.

(** The splitter at work: the large group keeps the four vertices its
    triangles use; with a limit of 7 the loop closes a sub-group as soon as
    it holds 4 vertices. *)
Example split_large_group :
  _split_meshes_for_vertex_limit [Demo.large_group]
  = Ok [{| material_id := Some 7%Z;
           vertices := [Demo.point 0 0 0; Demo.point 1 0 0;
                        Demo.point 2 0 0; Demo.point 3 0 0];
           indices := [0; 1; 2; 2; 1; 3] |}].
Proof. vm_compute. reflexivity. Qed.

Example split_with_limit_7 :
  option_map (map (fun g => (length (vertices g), indices g)))
    (match split_meshes 7 [Demo.ten_vertices] [] with
     | Ok out => Some out
     | Raise _ => None
     end)
  = Some [(4, [0; 1; 2; 2; 1; 3]); (6, [0; 1; 2; 3; 4; 5]); (3, [0; 1; 2])].
Proof. vm_compute. reflexivity. Qed.

(** ** Order and arithmetic on the rationals *)

Lemma Qc_ltb_spec (x y : Qc) : reflect (x < y)%Qc (Qc_ltb x y).
Proof.
  unfold Qc_ltb. destruct (x ?= y)%Qc eqn:E; constructor.
  - intros H. pose proof (proj1 (Qclt_alt x y) H) as H'. congruence.
  - apply Qclt_alt. exact E.
  - intros H. pose proof (proj1 (Qclt_alt x y) H) as H'. congruence.
Qed.

Lemma Qc_leb_spec (x y : Qc) : reflect (x <= y)%Qc (Qc_leb x y).
Proof.
  unfold Qc_leb. destruct (Qc_ltb_spec y x); constructor.
  - apply Qclt_not_le. assumption.
  - apply Qcnot_lt_le. assumption.
Qed.

Lemma two_is_1_plus_1 : Z2Qc 2 = (1 + 1)%Qc.
Proof. apply Qc_is_canon. reflexivity. Qed.

Lemma two_positive : (Z2Qc 0 < Z2Qc 2)%Qc.
Proof. reflexivity. Qed.

Lemma half_double (x : Qc) : (x / Z2Qc 2 * Z2Qc 2)%Qc = x.
Proof. rewrite two_is_1_plus_1. field. discriminate. Qed.

Lemma midpoint_form (lo hi : Qc) :
  (lo + (hi - lo) / Z2Qc 2)%Qc = ((lo + hi) / Z2Qc 2)%Qc.
Proof. rewrite two_is_1_plus_1. field. discriminate. Qed.

Lemma half_lt (a b : Qc) : (a / Z2Qc 2 < b / Z2Qc 2)%Qc <-> (a < b)%Qc.
Proof.
  split; intros H.
  - rewrite <- (half_double a), <- (half_double b).
    apply Qcmult_lt_compat_r; [exact two_positive | exact H].
  - destruct (Qclt_le_dec (a / Z2Qc 2) (b / Z2Qc 2)) as [Hlt|Hle]; [exact Hlt|].
    exfalso. apply (Qcle_not_lt b a); [|exact H].
    rewrite <- (half_double a), <- (half_double b).
    apply Qcmult_le_compat_r; [exact Hle | apply Qclt_le_weak, two_positive].
Qed.

Lemma half_ltb (a b : Qc) :
  Qc_ltb (a / Z2Qc 2) (b / Z2Qc 2) = Qc_ltb a b.
Proof.
  destruct (Qc_ltb_spec (a / Z2Qc 2) (b / Z2Qc 2)) as [H|H];
    destruct (Qc_ltb_spec a b) as [H'|H']; try reflexivity; exfalso.
  - apply H', half_lt, H.
  - apply H, half_lt, H'.
Qed.

(** [max(a / 2, b / 2, c / 2) * 2] is the largest of [a], [b], [c]. *)
Lemma max3_halves (a b c : Qc) :
  (Py.max3 Qc_ltb (a / Z2Qc 2) (b / Z2Qc 2) (c / Z2Qc 2) * Z2Qc 2)%Qc
  = Qc_max (Qc_max a b) c.
Proof.
  unfold Py.max3, Qc_max. rewrite half_ltb.
  destruct (Qc_ltb a b); rewrite half_ltb;
    destruct (Qc_ltb _ c); apply half_double.
Qed.

(** ** The accumulators of the bounding sphere *)

Lemma fold_bounds (vs : list UvVertex) : forall b,
  fold_left Bounds_step vs b =
  {| max_x := largest (max_x b) (axis v3_0 vs);
     max_y := largest (max_y b) (axis v3_1 vs);
     max_z := largest (max_z b) (axis v3_2 vs);
     min_x := smallest (min_x b) (axis v3_0 vs);
     min_y := smallest (min_y b) (axis v3_1 vs);
     min_z := smallest (min_z b) (axis v3_2 vs) |}.
Proof.
  induction vs as [|v vs IH]; intros b.
  - destruct b. reflexivity.
  - cbn [fold_left]. rewrite IH. reflexivity.
Qed.

Lemma Qc_max_above (s x : Qc) : (s <= x)%Qc -> Qc_max s x = x.
Proof.
  intros H. unfold Qc_max. destruct (Qc_ltb_spec s x) as [_|Hn]; [reflexivity|].
  apply Qcle_antisym; [exact H | apply Qcnot_lt_le; exact Hn].
Qed.

Lemma Qc_min_below (s x : Qc) : (x <= s)%Qc -> Qc_min s x = x.
Proof.
  intros H. unfold Qc_min. destruct (Qc_ltb_spec x s) as [_|Hn]; [reflexivity|].
  apply Qcle_antisym; [apply Qcnot_lt_le; exact Hn | exact H].
Qed.

Lemma coordinate_between_weaken (strict : bool) (lo hi c : Qc) :
  coordinate_between strict lo hi c = true ->
  (lo <= c)%Qc /\ (c <= hi)%Qc.
Proof.
  unfold coordinate_between. destruct strict; intros H;
    apply andb_prop in H; destruct H as [H1 H2].
  - split; apply Qclt_le_weak.
    + destruct (Qc_ltb_spec lo c); [assumption | discriminate].
    + destruct (Qc_ltb_spec c hi); [assumption | discriminate].
  - split.
    + destruct (Qc_leb_spec lo c); [assumption | discriminate].
    + destruct (Qc_leb_spec c hi); [assumption | discriminate].
Qed.

(** With a first vertex between the two initial values, the accumulators end
    as the bounds of the vertex set. *)
Lemma bounds_of_nonempty (strict : bool) (v : UvVertex) (vs : list UvVertex) :
  within strict (-999999999) 999999999 (v :: vs) = true ->
  fold_left Bounds_step (v :: vs) Bounds_init = true_bounds v vs.
Proof.
  intros H. cbn [within forallb] in H. apply andb_prop in H.
  destruct H as [Hv _]. apply andb_prop in Hv. destruct Hv as [Hv Hz].
  apply andb_prop in Hv. destruct Hv as [Hx Hy].
  apply coordinate_between_weaken in Hx, Hy, Hz.
  rewrite fold_bounds. unfold true_bounds, largest, smallest, axis.
  cbn [map fold_left Bounds_init max_x max_y max_z min_x min_y min_z].
  rewrite !Qc_max_above, !Qc_min_below by tauto. reflexivity.
Qed.

Lemma bounding_sphere_meets_spec (strict : bool) (vs : list UvVertex) :
  vs <> [] ->
  within strict (-999999999) 999999999 vs = true ->
  spec_bounding_sphere vs = Some (bounding_sphere vs).
Proof.
  destruct vs as [|v vs]; [congruence|]. intros _ H.
  unfold bounding_sphere. rewrite (bounds_of_nonempty strict v vs H).
  cbn [spec_bounding_sphere]. cbv zeta.
  rewrite !midpoint_form, max3_halves. reflexivity.
Qed.

Lemma _write_bounding_sphere_appends (vs : list UvVertex) (s : Streams) :
  _write_bounding_sphere vs s =
  (Ok tt, appended s [Vector3 (fst (bounding_sphere vs));
                      Float (snd (bounding_sphere vs))]).
Proof.
  unfold _write_bounding_sphere. destruct (bounding_sphere vs) as [c r].
  unfold bind, write_vector3, write_float, emit, appended. cbn.
  rewrite <- app_assoc. reflexivity.
Qed.

Lemma vec3_eqb_eq (a b : vec3) : vec3_eqb a b = true -> a = b.
Proof.
  destruct a as [[a0 a1] a2], b as [[b0 b1] b2]. unfold vec3_eqb. cbn.
  intros H. apply andb_prop in H. destruct H as [H H2].
  apply andb_prop in H. destruct H as [H0 H1].
  apply Qc_eq_bool_correct in H0, H1, H2. congruence.
Qed.

Lemma vec2_eqb_eq (a b : vec2) : vec2_eqb a b = true -> a = b.
Proof.
  destruct a as [a0 a1], b as [b0 b1]. unfold vec2_eqb. cbn.
  intros H. apply andb_prop in H. destruct H as [H0 H1].
  apply Qc_eq_bool_correct in H0, H1. congruence.
Qed.

Lemma Qc_eq_bool_refl (x : Qc) : Qc_eq_bool x x = true.
Proof. unfold Qc_eq_bool. destruct (Qc_eq_dec x x); congruence. Qed.

Lemma vec3_eqb_refl (a : vec3) : vec3_eqb a a = true.
Proof. unfold vec3_eqb. rewrite !Qc_eq_bool_refl. reflexivity. Qed.

Lemma vec2_eqb_refl (a : vec2) : vec2_eqb a a = true.
Proof. unfold vec2_eqb. rewrite !Qc_eq_bool_refl. reflexivity. Qed.

(** Closed equations between computed numbers. *)
Ltac qc_decide :=
  first [apply Qc_eq_bool_correct | apply vec3_eqb_eq | apply vec2_eqb_eq];
  vm_compute; reflexivity.

Lemma sphere_events_eq (s : Streams) (c c' : vec3) (r r' : Qc) :
  c = c' -> r = r' ->
  (Ok tt, appended s [Vector3 c; Float r])
  = (Ok tt, appended s [Vector3 c'; Float r']).
Proof. intros -> ->. reflexivity. Qed.

(** [largest] and [smallest] are what their names say. *)
Lemma largest_is_maximum (l : list Qc) : forall x,
  In (largest x l) (x :: l) /\ Forall (fun y => (y <= largest x l)%Qc) (x :: l).
Proof.
  unfold largest. induction l as [|y l IH]; intros x; cbn [fold_left].
  - split; [left; reflexivity|]. constructor; [apply Qcle_refl | constructor].
  - destruct (IH (Qc_max x y)) as [Hin Hall]. split.
    + destruct Hin as [E|Hin]; [|right; right; exact Hin].
      rewrite <- E. unfold Qc_max. destruct (Qc_ltb x y); simpl; auto.
    + inversion Hall as [|? ? Hm Hl]; subst.
      assert ((x <= Qc_max x y)%Qc /\ (y <= Qc_max x y)%Qc) as [Hx Hy].
      { unfold Qc_max. destruct (Qc_ltb_spec x y) as [Hlt|Hge]; split;
          auto using Qcle_refl, Qclt_le_weak, Qcnot_lt_le. }
      constructor; [eapply Qcle_trans; eauto|].
      constructor; [eapply Qcle_trans; eauto | exact Hl].
Qed.

Lemma smallest_is_minimum (l : list Qc) : forall x,
  In (smallest x l) (x :: l) /\ Forall (fun y => (smallest x l <= y)%Qc) (x :: l).
Proof.
  unfold smallest. induction l as [|y l IH]; intros x; cbn [fold_left].
  - split; [left; reflexivity|]. constructor; [apply Qcle_refl | constructor].
  - destruct (IH (Qc_min x y)) as [Hin Hall]. split.
    + destruct Hin as [E|Hin]; [|right; right; exact Hin].
      rewrite <- E. unfold Qc_min. destruct (Qc_ltb y x); simpl; auto.
    + inversion Hall as [|? ? Hm Hl]; subst.
      assert ((Qc_min x y <= x)%Qc /\ (Qc_min x y <= y)%Qc) as [Hx Hy].
      { unfold Qc_min. destruct (Qc_ltb_spec y x) as [Hlt|Hge]; split;
          auto using Qcle_refl, Qclt_le_weak, Qcnot_lt_le. }
      constructor; [eapply Qcle_trans; eauto|].
      constructor; [eapply Qcle_trans; eauto | exact Hl].
Qed.

(** ** C5: the bounding sphere of a non-empty vertex set *)

(** C5, as stated, fails on a vertex outside the initial values of the
    accumulators: for the single vertex (2000000000, 0, 0) the sphere that
    is computed is not the one of the specification (its centre is at
    x = 1499999999.5 and its radius is 1000000001). *)
Lemma bounding_sphere_far_vertex :
  spec_bounding_sphere [Demo.far_vertex]
  <> Some (bounding_sphere [Demo.far_vertex]).
Proof.
  intros E.
  apply (f_equal (fun o => match o with
                           | Some (_, r) => Qnum (this r)
                           | None => 0%Z
                           end)) in E.
  vm_compute in E. discriminate.
Qed.

(** C5, amended.  For every non-empty vertex set whose coordinates all lie
    in [-999999999, 999999999], [_write_bounding_sphere] writes the centre
    that is the per-axis midpoint of the axis-aligned minimum and maximum,
    and the radius that is the full extent of the largest axis; for the
    eight corners of the unit cube it writes the centre (1/2, 1/2, 1/2) and
    the radius 1. *)
Theorem bounding_sphere_within_initial_values :
  (forall (vs : list UvVertex) (s : Streams),
     vs <> [] ->
     within false (-999999999) 999999999 vs = true ->
     exists c r,
       spec_bounding_sphere vs = Some (c, r) /\
       _write_bounding_sphere vs s = (Ok tt, appended s [Vector3 c; Float r]))
  /\
  (forall s : Streams,
     _write_bounding_sphere Demo.unit_cube s =
     (Ok tt, appended s [Vector3 (Q2Qc (1 # 2), Q2Qc (1 # 2), Q2Qc (1 # 2));
                         Float (Z2Qc 1)])).
Proof.
  split.
  - intros vs s Hne Hin.
    exists (fst (bounding_sphere vs)), (snd (bounding_sphere vs)). split.
    + rewrite <- surjective_pairing.
      exact (bounding_sphere_meets_spec false vs Hne Hin).
    + apply _write_bounding_sphere_appends.
  - intros s. rewrite _write_bounding_sphere_appends.
    apply sphere_events_eq; qc_decide.
Qed.

Lemma bounding_sphere_within_initial_values_witness :
  Demo.unit_cube <> [] /\
  within false (-999999999) 999999999 Demo.unit_cube = true /\
  exists c r,
    spec_bounding_sphere Demo.unit_cube = Some (c, r) /\
    _write_bounding_sphere Demo.unit_cube Demo.no_output
    = (Ok tt, appended Demo.no_output [Vector3 c; Float r]).
Proof.
  split; [discriminate|]. split; [vm_compute; reflexivity|].
  apply (proj1 bounding_sphere_within_initial_values);
    [discriminate | vm_compute; reflexivity].
Defined.

(** ** C10: the bounding sphere of the empty vertex set *)

(** C10.  On the empty vertex set [_write_bounding_sphere] does not fail: the
    accumulators keep their initial values, and it writes the centre
    (0, 0, 0) and the radius -1999999998.  On a non-empty vertex set whose
    coordinates lie strictly between -999999999 and 999999999 the
    accumulators end as the bounds of the set; outside that range they need
    not, as the vertex (2000000000, 0, 0) shows. *)
Theorem bounding_sphere_of_nothing :
  (fold_left Bounds_step [] Bounds_init = Bounds_init /\
   forall s : Streams,
     _write_bounding_sphere [] s =
     (Ok tt, appended s [Vector3 (Z2Qc 0, Z2Qc 0, Z2Qc 0);
                         Float (Z2Qc (-1999999998))]))
  /\
  (forall (v : UvVertex) (vs : list UvVertex),
     within true (-999999999) 999999999 (v :: vs) = true ->
     fold_left Bounds_step (v :: vs) Bounds_init = true_bounds v vs)
  /\
  fold_left Bounds_step [Demo.far_vertex] Bounds_init
  <> true_bounds Demo.far_vertex [].
Proof.
  split; [split; [reflexivity|]|split].
  - intros s. rewrite _write_bounding_sphere_appends.
    apply sphere_events_eq; qc_decide.
  - intros v vs H. exact (bounds_of_nonempty true v vs H).
  - intros E. apply (f_equal (fun b => Qnum (this (min_x b)))) in E.
    vm_compute in E. discriminate.
Qed.

Lemma bounding_sphere_of_nothing_witness :
  within true (-999999999) 999999999 Demo.unit_cube = true /\
  fold_left Bounds_step Demo.unit_cube Bounds_init
  = true_bounds (Demo.point 0 0 0) (tl Demo.unit_cube).
Proof.
  split; [vm_compute; reflexivity|].
  apply (proj1 (proj2 bounding_sphere_of_nothing)). vm_compute. reflexivity.
Defined.

(** ** Identity of vertices *)

Section VertexFacts.
Context `{Host}.

Lemma UvVertex__eq__refl (v : UvVertex) : UvVertex__eq__ v v = true.
Proof.
  unfold UvVertex__eq__. rewrite !vector_eq_refl, vec2_eqb_refl. reflexivity.
Qed.

Lemma UvVertex_keq_refl (v : UvVertex) : UvVertex_keq v v = true.
Proof.
  unfold UvVertex_keq. rewrite Z.eqb_refl, UvVertex__eq__refl. reflexivity.
Qed.

(** Comparison and hashing read the position, the normal and the UV of a
    vertex, and nothing else. *)
Lemma UvVertex_keq_same_identity (v v' : UvVertex) :
  co v = co v' -> normal v = normal v' -> uv v = uv v' ->
  forall k, UvVertex_keq k v = UvVertex_keq k v'.
Proof.
  intros Hc Hn Hu k.
  unfold UvVertex_keq, UvVertex__hash__, UvVertex_hash_key, UvVertex__eq__.
  rewrite Hc, Hn, Hu. reflexivity.
Qed.

Lemma add_vertex_spec (d : vertex_dict) (fi : list nat) (v : UvVertex) :
  add_vertex (d, fi) v
  = Ok (fst (lookup_or_add d v), fi ++ [snd (lookup_or_add d v)]).
Proof.
  unfold add_vertex, lookup_or_add, Py.mem.
  destruct (Py.get UvVertex_keq d v) as [i|] eqn:Hget; cbn [negb fst snd].
  - rewrite Hget. reflexivity.
  - rewrite (dict_set_absent _ _ _ _ Hget).
    rewrite (dict_get_app_absent _ _ _ _ (UvVertex_keq_refl v) Hget).
    reflexivity.
Qed.

Lemma lookup_or_add_again (d : vertex_dict) (v v' : UvVertex) :
  co v = co v' -> normal v = normal v' -> uv v = uv v' ->
  lookup_or_add (fst (lookup_or_add d v)) v' = lookup_or_add d v.
Proof.
  intros Hc Hn Hu.
  pose proof (UvVertex_keq_same_identity v v' Hc Hn Hu) as Hext.
  unfold lookup_or_add at 2 3.
  destruct (Py.get UvVertex_keq d v) as [i|] eqn:Hget; cbn [fst];
    unfold lookup_or_add;
    rewrite <- (dict_get_ext UvVertex_keq _ v v' Hext).
  - rewrite Hget. reflexivity.
  - rewrite (dict_get_app_absent _ _ _ _ (UvVertex_keq_refl v) Hget).
    reflexivity.
Qed.

Lemma vertex_buffer_compact (d : vertex_dict) :
  compact d -> vertex_buffer d = map fst d.
Proof.
  intros Hc. unfold vertex_buffer, Py.items.
  rewrite (sorted_id _ _ (compact_is_sorted d 0 Hc)). reflexivity.
Qed.

Lemma compact_app {K} (d : Py.dict K nat) (k : K) :
  compact d -> compact (d ++ [(k, length d)]).
Proof.
  unfold compact. intros Hc.
  rewrite map_app, length_app, Hc. simpl.
  rewrite Nat.add_1_r, seq_S. reflexivity.
Qed.

(** Later insertions keep the entries of the dictionary and what a lookup
    finds in it. *)
Lemma lookup_or_add_keeps (d : vertex_dict) (v w : UvVertex) (i : nat) :
  Py.get UvVertex_keq d v = Some i ->
  (exists added, fst (lookup_or_add d w) = d ++ added) /\
  Py.get UvVertex_keq (fst (lookup_or_add d w)) v = Some i.
Proof.
  intros Hget. unfold lookup_or_add.
  destruct (Py.get UvVertex_keq d w); cbn [fst].
  - split; [exists []; rewrite app_nil_r; reflexivity | exact Hget].
  - split; [eexists; reflexivity | apply dict_get_app_present; exact Hget].
Qed.

(** ** C4: deduplication of vertices *)

(** C4.  Equality and hashing of [UvVertex] ignore the tangent.  Let [v] and
    [v'] have the same position, normal and UV.  If [v] is in the
    dictionary, inserting [v'] leaves the dictionary as it is (no new entry,
    every stored vertex and so every stored tangent unchanged) and yields
    the index of the entry of [v].  Inserting [v] puts it in the dictionary,
    so that inserting [v'] next changes neither the dictionary nor the
    vertex buffer; and if [v] was new, the entry is [v] itself: the vertex
    buffer ends with [v] and its tangent, whatever the tangent of [v']. *)
Theorem vertex_dedup_idempotent (d : vertex_dict) (fi : list nat)
    (v v' : UvVertex) :
  co v = co v' -> normal v = normal v' -> uv v = uv v' ->
  UvVertex__eq__ v v' = true /\
  UvVertex__hash__ v = UvVertex__hash__ v' /\
  (forall i, Py.get UvVertex_keq d v = Some i ->
             add_vertex (d, fi) v' = Ok (d, fi ++ [i])) /\
  exists d1 i,
    add_vertex (d, fi) v = Ok (d1, fi ++ [i]) /\
    Py.get UvVertex_keq d1 v = Some i /\
    add_vertex (d1, fi ++ [i]) v' = Ok (d1, (fi ++ [i]) ++ [i]) /\
    vertex_buffer (fst (lookup_or_add d1 v')) = vertex_buffer d1 /\
    (Py.mem UvVertex_keq d v = false ->
     d1 = d ++ [(v, length d)] /\
     (compact d -> vertex_buffer d1 = vertex_buffer d ++ [v])).
Proof.
  intros Hc Hn Hu.
  pose proof (UvVertex_keq_same_identity v v' Hc Hn Hu) as Hext.
  split; [|split; [|split]].
  - unfold UvVertex__eq__. rewrite <- Hc, <- Hn, <- Hu.
    apply UvVertex__eq__refl.
  - unfold UvVertex__hash__, UvVertex_hash_key. rewrite Hc, Hn, Hu.
    reflexivity.
  - intros i Hget. rewrite add_vertex_spec. unfold lookup_or_add.
    rewrite <- (dict_get_ext UvVertex_keq _ v v' Hext), Hget. reflexivity.
  - exists (fst (lookup_or_add d v)), (snd (lookup_or_add d v)).
    split; [apply add_vertex_spec|]. split; [|split; [|split]].
    + unfold lookup_or_add.
      destruct (Py.get UvVertex_keq d v) as [i|] eqn:Hget; cbn [fst snd].
      * exact Hget.
      * apply dict_get_app_absent; [apply UvVertex_keq_refl | exact Hget].
    + rewrite add_vertex_spec, (lookup_or_add_again d v v' Hc Hn Hu).
      reflexivity.
    + rewrite (lookup_or_add_again d v v' Hc Hn Hu). reflexivity.
    + unfold Py.mem, lookup_or_add.
      destruct (Py.get UvVertex_keq d v); [discriminate|]. intros _.
      cbn [fst]. split; [reflexivity|]. intros Hcompact.
      rewrite (vertex_buffer_compact _ (compact_app d v Hcompact)).
      rewrite (vertex_buffer_compact _ Hcompact), map_app. reflexivity.
Qed.

End VertexFacts.

Lemma vertex_dedup_idempotent_witness :
  let v := mkUvVertex (Z2Qc 1, Z2Qc 2, Z2Qc 3) Demo.zero3 (Z2Qc 0, Z2Qc 1)
             (Z2Qc 1, Z2Qc 0, Z2Qc 0) in
  let v' := mkUvVertex (Z2Qc 1, Z2Qc 2, Z2Qc 3) Demo.zero3 (Z2Qc 0, Z2Qc 1)
              (Z2Qc 0, Z2Qc 0, Z2Qc 1) in
  let d : vertex_dict := [(Demo.point 0 0 0, 0)] in
  let fi : list nat := [0] in
  tangent v <> tangent v' /\
  co v = co v' /\ normal v = normal v' /\ uv v = uv v' /\
  UvVertex__eq__ v v' = true /\
  UvVertex__hash__ v = UvVertex__hash__ v' /\
  (forall i, Py.get UvVertex_keq d v = Some i ->
             add_vertex (d, fi) v' = Ok (d, fi ++ [i])) /\
  exists d1 i,
    add_vertex (d, fi) v = Ok (d1, fi ++ [i]) /\
    Py.get UvVertex_keq d1 v = Some i /\
    add_vertex (d1, fi ++ [i]) v' = Ok (d1, (fi ++ [i]) ++ [i]) /\
    vertex_buffer (fst (lookup_or_add d1 v')) = vertex_buffer d1 /\
    (Py.mem UvVertex_keq d v = false ->
     d1 = d ++ [(v, length d)] /\
     (compact d -> vertex_buffer d1 = vertex_buffer d ++ [v])).
Proof.
  intros v v' d fi. split.
  - intros E. apply (f_equal (fun t => Qnum (this (v3_0 t)))) in E.
    vm_compute in E. discriminate.
  - split; [reflexivity|]. split; [reflexivity|]. split; [reflexivity|].
    apply (vertex_dedup_idempotent d fi v v'); reflexivity.
Defined.

(** Two loops with the same position, normal and UV and different tangents
    make one entry of the vertex buffer, with the tangent of the first. *)
Example dedup_keeps_first_tangent :
  let v := mkUvVertex (Z2Qc 1, Z2Qc 2, Z2Qc 3) Demo.zero3 (Z2Qc 0, Z2Qc 1)
             (Z2Qc 1, Z2Qc 0, Z2Qc 0) in
  let v' := mkUvVertex (Z2Qc 1, Z2Qc 2, Z2Qc 3) Demo.zero3 (Z2Qc 0, Z2Qc 1)
              (Z2Qc 0, Z2Qc 0, Z2Qc 1) in
  Py.rfold add_vertex [v; v'; v] ([], [])
  = Ok ([(v, 0)], [0; 0; 0]) /\
  vertex_buffer [(v, 0)] = [v].
Proof. vm_compute. split; reflexivity. Qed.

(** ** C3: the winding of the faces *)

Section Winding.
Context `{Host}.



End Winding.


(** The two kinds of face, run: the triangle with loops (0, 1, 2) gives the
    indices (1, 2, 0), the quad with loops (0, 1, 2, 3) gives (1, 2, 0) and
    (2, 3, 0). *)
Example winding_of_a_triangle :
  map indices (Demo.value [] (_split_object_by_materials
                                (Demo.writer [] [("Paint", 4%Z)])
                                Demo.triangle_object))
  = [[1; 2; 0]].
Proof. vm_compute. reflexivity. Qed.

Example winding_of_a_quad :
  map indices (Demo.value [] (_split_object_by_materials
                                (Demo.writer [] [("Paint", 4%Z)])
                                Demo.quad_object))
  = [[1; 2; 0; 2; 3; 0]].
Proof. vm_compute. reflexivity. Qed.

(** ** Methods that append *)

Lemma appends_ret : appends (ret tt) [] [].
Proof. intros [f w]. unfold ret. cbn. rewrite !app_nil_r. reflexivity. Qed.

Lemma appends_emit (e : Event) : appends (emit e) [e] [].
Proof. intros [f w]. unfold emit. cbn. rewrite app_nil_r. reflexivity. Qed.

Lemma appends_warn (msg : string) : appends (warn msg) [] [msg].
Proof. intros [f w]. unfold warn. cbn. rewrite app_nil_r. reflexivity. Qed.

Lemma appends_bind (c : W unit) (k : unit -> W unit) evs1 ws1 evs2 ws2 :
  appends c evs1 ws1 -> appends (k tt) evs2 ws2 ->
  appends (bind c k) (evs1 ++ evs2) (ws1 ++ ws2).
Proof.
  intros Hc Hk s. unfold bind. rewrite Hc, Hk. cbn.
  rewrite !app_assoc. reflexivity.
Qed.

Lemma appends_eq (c : W unit) evs ws evs' ws' :
  appends c evs ws -> evs = evs' -> ws = ws' -> appends c evs' ws'.
Proof. intros Hc <- <-. exact Hc. Qed.

Lemma appends_for_each {A} (body : A -> W unit) (f : A -> list Event)
    (g : A -> list string) (l : list A) :
  (forall x, In x l -> appends (body x) (f x) (g x)) ->
  appends (for_each body l) (flat_map f l) (flat_map g l).
Proof.
  induction l as [|x l IH]; intros Hbody; cbn [for_each flat_map].
  - apply appends_ret.
  - apply appends_bind; [apply Hbody; left; reflexivity|].
    apply IH. intros y Hy. apply Hbody. right. exact Hy.
Qed.

Lemma aborts_bind (c : W unit) (k : unit -> W unit) (e : Exn) :
  aborts c e -> aborts (bind c k) e.
Proof. intros Hc s. unfold bind. rewrite Hc. reflexivity. Qed.

(** An exception raised after some output: the output stays, the rest of the
    method is not run. *)
Lemma bind_raises (c : W unit) (k : unit -> W unit) (e : Exn) s s' :
  c s = (Raise e, s') -> bind c k s = (Raise e, s').
Proof. intros Hc. unfold bind. rewrite Hc. reflexivity. Qed.

Lemma bind_continues (c : W unit) (k : unit -> W unit) s s' :
  c s = (Ok tt, s') -> bind c k s = k tt s'.
Proof. intros Hc. unfold bind. rewrite Hc. reflexivity. Qed.

(** A loop stops at the first iteration that raises. *)
Lemma for_each_raises {A} (body : A -> W unit) (l1 l2 : list A) (x : A)
    (e : Exn) s s1 s2 :
  for_each body l1 s = (Ok tt, s1) ->
  body x s1 = (Raise e, s2) ->
  for_each body (l1 ++ x :: l2) s = (Raise e, s2).
Proof.
  revert s. induction l1 as [|y l1 IH]; intros s Hl1 Hx; cbn [for_each app] in *.
  - injection Hl1 as <-. apply bind_raises. exact Hx.
  - unfold bind in *. destruct (body y s) as [[[]|e'] s'] eqn:Hy;
      [|discriminate]. apply IH; assumption.
Qed.

(** A loop skips the iterations that do nothing. *)
Lemma for_each_skips {A} (body : A -> W unit) (l1 l2 : list A) (x : A) s :
  (forall s', body x s' = (Ok tt, s')) ->
  for_each body (l1 ++ x :: l2) s = for_each body (l1 ++ l2) s.
Proof.
  intros Hx. revert s. induction l1 as [|y l1 IH]; intros s;
    cbn [for_each app].
  - unfold bind. rewrite Hx. reflexivity.
  - unfold bind. destruct (body y s) as [[[]|e'] s']; [apply IH | reflexivity].
Qed.

(** ** The records as they are written *)

Lemma _write_node_class_Node : appends (_write_node_class "Node") [Uint 1] [].
Proof. apply appends_emit. Qed.

Lemma _write_node_class_Mesh : appends (_write_node_class "Mesh") [Uint 2] [].
Proof. apply appends_emit. Qed.

Lemma _write_base_node_data_spec (nd : NodeData) :
  appends (_write_base_node_data nd) (node_record nd) [].
Proof.
  unfold _write_base_node_data.
  eapply appends_eq.
  - repeat (eapply appends_bind;
            [first [apply _write_node_class_Node | apply appends_emit]|]).
    apply appends_emit.
  - reflexivity.
  - reflexivity.
Qed.

Lemma _write_bounding_sphere_spec (vs : list UvVertex) :
  appends (_write_bounding_sphere vs)
    [Vector3 (fst (bounding_sphere vs)); Float (snd (bounding_sphere vs))] [].
Proof.
  intros s. rewrite _write_bounding_sphere_appends. unfold appended.
  rewrite app_nil_r. reflexivity.
Qed.

Lemma flat_map_singleton {A B} (f : A -> B) (l : list A) :
  flat_map (fun x => [f x]) l = map f l.
Proof. induction l as [|x l IH]; cbn; [reflexivity | rewrite IH; reflexivity]. Qed.

Lemma flat_map_nil {A B} (l : list A) : flat_map (fun _ => @nil B) l = [].
Proof. induction l; auto. Qed.

Lemma _write_mesh_spec (obj : Object) (mesh : Mesh) (props : NodeProperties) :
  (Z.of_nat (length (vertices mesh)) <= 65536)%Z ->
  appends (_write_mesh obj mesh props)
    (mesh_record obj props mesh) (mesh_warnings obj mesh).
Proof.
  intros Hlen. unfold _write_mesh.
  destruct (Z.gtb_spec (Z.of_nat (length (vertices mesh))) (2 ^ 16)) as [Hgt|_];
    [lia|].
  eapply appends_eq.
  - eapply appends_bind; [apply _write_node_class_Mesh|].
    do 6 (eapply appends_bind; [apply appends_emit|]).
    eapply appends_bind; [apply appends_ret|].
    eapply appends_bind; [apply appends_emit|].
    eapply appends_bind.
    { apply appends_for_each with
        (f := vertex_events) (g := fun _ : UvVertex => @nil string).
      intros v _. unfold vertex_events.
      eapply appends_eq;
        [do 3 (eapply appends_bind; [apply appends_emit|]); apply appends_emit
        | reflexivity | reflexivity]. }
    eapply appends_bind; [apply appends_emit|].
    eapply appends_bind.
    { apply appends_for_each with
        (f := fun i : nat => [Ushort i]) (g := fun _ : nat => @nil string).
      intros i _. apply appends_emit. }
    eapply appends_bind.
    { instantiate (1 := mesh_warnings obj mesh).
      instantiate (1 := [Uint (or_else (material_id mesh) 0%Z)]).
      unfold mesh_warnings. destruct (material_id mesh) as [id|]; cbn [or_else].
      - apply appends_emit.
      - eapply appends_eq;
          [eapply appends_bind; [apply appends_warn | apply appends_emit]
          | reflexivity | reflexivity]. }
    do 3 (eapply appends_bind; [apply appends_emit|]).
    eapply appends_bind; [apply _write_bounding_sphere_spec|].
    apply appends_emit.
  - unfold mesh_record. cbn [app]. rewrite flat_map_singleton.
    reflexivity.
  - rewrite !flat_map_nil. cbn [app]. apply app_nil_r.
Qed.

(** ** The size of the groups the splitter returns, for any input *)

Lemma gather_length (vs : list UvVertex) (keys : list (nat * nat)) :
  forall verts, gather vs keys = Ok verts -> length verts = length keys.
Proof.
  induction keys as [|[k v] keys IH]; cbn [gather]; intros verts.
  - intros [= <-]. reflexivity.
  - destruct (Py.getitem vs k) as [x|]; cbn [rbind]; [|discriminate].
    destruct (gather vs keys) as [xs|]; cbn [rbind]; [|discriminate].
    intros [= <-]. cbn [length]. rewrite (IH xs eq_refl). reflexivity.
Qed.

Lemma sorted_length {A} (key : A -> Z) (l : list A) :
  length (Py.sorted key l) = length l.
Proof.
  unfold Py.sorted.
  assert (forall x acc, length (Py.insert_by key x acc) = S (length acc)) as Hins.
  { intros x acc. induction acc as [|y acc IH]; cbn [Py.insert_by length];
      [reflexivity|].
    destruct (key y <=? key x)%Z; cbn [length]; [rewrite IH|]; reflexivity. }
  assert (forall acc, length (fold_left (fun acc x => Py.insert_by key x acc) l acc)
                      = length acc + length l) as Hfold.
  { induction l as [|x l IH]; intros acc; cbn [fold_left length]; [lia|].
    rewrite IH, Hins. lia. }
  apply Hfold.
Qed.

Lemma split_loop_fits (limit : Z) (m : Mesh) (fuel : nat) :
  (4 <= limit <= 65536)%Z ->
  forall s0 acc out,
    Forall fits acc ->
    split_loop limit fuel m s0 acc = Ok out -> Forall fits out.
Proof.
  intros Hlimit. induction fuel as [|fuel IH]; intros s0 acc out Hacc;
    cbn [split_loop]; destruct (s0 <? length (indices m));
    try discriminate; try (intros [= <-]; exact Hacc).
  unfold Py.range3.
  assert (remap_inv ([] : index_dict) [] (Py.slice (indices m) s0 s0)) as Hinit
    by (rewrite slice_nil; exact remap_inv_init).
  destruct (fill_group_spec limit (indices m) s0
              ((length (indices m) - s0 + 2) / 3) s0 [] [] (le_n _) Hinit)
    as (i' & d' & ni' & Hfill & _ & _ & Hbound).
  cbv zeta. rewrite Hfill. cbn [rbind].
  destruct (gather (vertices m) _) as [verts|e] eqn:Hg; cbn [rbind];
    [|discriminate].
  apply IH. apply Forall_app. split; [exact Hacc|].
  constructor; [|constructor]. unfold fits. cbn [vertices].
  rewrite (gather_length _ _ _ Hg), sorted_length. unfold Py.items.
  cbn [length] in Hbound. lia.
Qed.

Lemma split_meshes_fits (limit : Z) (divided_meshes : list Mesh) :
  (4 <= limit <= 65536)%Z ->
  forall acc out,
    Forall fits acc ->
    split_meshes limit divided_meshes acc = Ok out -> Forall fits out.
Proof.
  intros Hlimit. induction divided_meshes as [|m ms IH]; intros acc out Hacc;
    cbn [split_meshes].
  - intros [= <-]. exact Hacc.
  - destruct (split_mesh limit acc m) as [acc'|e] eqn:Hm; cbn [rbind];
      [|discriminate].
    apply IH. revert Hm. unfold split_mesh.
    destruct (Z.gtb_spec (Z.of_nat (length (vertices m))) limit) as [Hbig|Hsmall].
    + apply split_loop_fits; assumption.
    + intros [= <-]. apply Forall_app. split; [exact Hacc|].
      constructor; [unfold fits; lia | constructor].
Qed.

Lemma _split_meshes_for_vertex_limit_fits (divided_meshes out : list Mesh) :
  _split_meshes_for_vertex_limit divided_meshes = Ok out -> Forall fits out.
Proof.
  apply split_meshes_fits; [lia | constructor].
Qed.

(** ** C7: the records of a mesh-bearing object *)

Section MeshNode.
Context `{Host}.
Variable self : NodeWriter.

Lemma write_meshes_spec (obj : Object) (props : NodeProperties)
    (divided : list Mesh) :
  Forall fits divided ->
  appends (for_each (fun mesh => _write_mesh obj mesh props) divided)
    (flat_map (mesh_record obj props) divided)
    (flat_map (mesh_warnings obj) divided).
Proof.
  intros Hfits. apply appends_for_each. intros g Hg.
  apply _write_mesh_spec. exact (proj1 (Forall_forall _ _) Hfits g Hg).
Qed.

Lemma lift_ok {A} (r : Result A) (a : A) (k : A -> W unit) s :
  r = Ok a -> bind (lift r) k s = k a s.
Proof. intros ->. reflexivity. Qed.

Lemma wrapper_spec (transform : Matrix) (nd : Matrix -> NodeData) :
  appends (bind (ret transform) (fun m => _write_base_node_data (nd m)))
    (node_record (nd transform)) [].
Proof. intros s. unfold bind, ret. apply _write_base_node_data_spec. Qed.

(** C7.  For a mesh-bearing object whose geometry is grouped and split into
    [divided]: every group is written as one Mesh record with child count 0;
    with a parent whose world transform has the inverse [inv], the records
    come after a generic node with the name of the object, as many children
    as there are groups, and the converted [inv] as its transform; without
    a parent but with more than one group, they come after such a node with
    the identity as its transform; without a parent and with exactly one
    group, the Mesh record is all that is written. *)
Theorem mesh_node_layout (obj : Object) (ms divided : list Mesh) :
  _split_object_by_materials self obj = Ok ms ->
  _split_meshes_for_vertex_limit ms = Ok divided ->
  let props := node_properties_of self obj in
  let wrapper transform :=
    node_record {| nd_name := name obj;
                   nd_childCount := Z.of_nat (length divided);
                   nd_active := true;
                   nd_transform := transform |} in
  Forall (fun g => firstn 3 (mesh_record obj props g)
                   = [Uint 2; Str (name obj); Uint 0]) divided /\
  (forall parent_matrix_world inv,
     parent obj = Some parent_matrix_world ->
     matrix_inverted parent_matrix_world = Some inv ->
     appends (_write_mesh_node self obj)
       (wrapper (convert_matrix inv) ++ flat_map (mesh_record obj props) divided)
       (flat_map (mesh_warnings obj) divided)) /\
  (parent obj = None -> 1 < length divided ->
   appends (_write_mesh_node self obj)
     (wrapper Matrix_identity ++ flat_map (mesh_record obj props) divided)
     (flat_map (mesh_warnings obj) divided)) /\
  (parent obj = None -> forall g, divided = [g] ->
   appends (_write_mesh_node self obj)
     (mesh_record obj props g) (mesh_warnings obj g)).
Proof.
  intros Hms Hdiv props wrapper.
  pose proof (_split_meshes_for_vertex_limit_fits _ _ Hdiv) as Hfits.
  pose proof (write_meshes_spec obj props divided Hfits) as Hmeshes.
  split; [apply Forall_forall; intros g _; reflexivity|].
  split; [|split].
  - intros pm inv Hp Hinv s. unfold _write_mesh_node.
    rewrite (lift_ok _ _ _ _ Hms), (lift_ok _ _ _ _ Hdiv).
    unfold has_parent. rewrite Hp, Hinv. cbn [orb].
    fold (node_properties_of self obj). fold props.
    revert s. eapply appends_eq;
      [eapply appends_bind; [apply wrapper_spec | exact Hmeshes]
      | reflexivity | reflexivity].
  - intros Hp Hlen s. unfold _write_mesh_node.
    rewrite (lift_ok _ _ _ _ Hms), (lift_ok _ _ _ _ Hdiv).
    unfold has_parent. rewrite Hp. cbn [orb].
    destruct (Nat.ltb_spec 1 (length divided)) as [_|Hge]; [|lia].
    fold (node_properties_of self obj). fold props.
    revert s. eapply appends_eq;
      [eapply appends_bind; [apply wrapper_spec | exact Hmeshes]
      | reflexivity | reflexivity].
  - intros Hp g Hg s. subst divided. unfold _write_mesh_node.
    rewrite (lift_ok _ _ _ _ Hms), (lift_ok _ _ _ _ Hdiv).
    unfold has_parent. rewrite Hp. cbn [orb length Nat.ltb Nat.leb].
    fold (node_properties_of self obj). fold props.
    revert s. eapply appends_eq;
      [eapply appends_bind; [apply appends_ret | exact Hmeshes] | |];
      cbn [flat_map app]; apply app_nil_r.
Qed.

End MeshNode.

Lemma mesh_node_layout_witness :
  let self := Demo.writer [Demo.child_triangle] Demo.paint in
  let obj := Demo.child_triangle in
  let ms := Demo.value [] (_split_object_by_materials self obj) in
  let divided := Demo.value [] (_split_meshes_for_vertex_limit ms) in
  let inv := match matrix_inverted (Demo.translation_by 1 2 3) with
             | Some m => m
             | None => Matrix_identity
             end in
  _split_object_by_materials self obj = Ok ms /\
  _split_meshes_for_vertex_limit ms = Ok divided /\
  parent obj = Some (Demo.translation_by 1 2 3) /\
  matrix_inverted (Demo.translation_by 1 2 3) = Some inv /\
  length divided = 1 /\
  appends (_write_mesh_node self obj)
    (node_record {| nd_name := name obj;
                    nd_childCount := Z.of_nat (length divided);
                    nd_active := true;
                    nd_transform := convert_matrix inv |}
     ++ flat_map (mesh_record obj (node_properties_of self obj)) divided)
    (flat_map (mesh_warnings obj) divided).
Proof.
  intros self obj ms divided inv.
  assert (_split_object_by_materials self obj = Ok ms) as Hms
    by (vm_compute; reflexivity).
  assert (_split_meshes_for_vertex_limit ms = Ok divided) as Hdiv
    by (vm_compute; reflexivity).
  assert (matrix_inverted (Demo.translation_by 1 2 3) = Some inv) as Hinv
    by (vm_compute; reflexivity).
  split; [exact Hms|]. split; [exact Hdiv|]. split; [reflexivity|].
  split; [exact Hinv|]. split; [vm_compute; reflexivity|].
  exact (proj1 (proj2 (mesh_node_layout self obj ms divided Hms Hdiv))
           (Demo.translation_by 1 2 3) inv eq_refl Hinv).
Defined.

(** The three cases at once: what [_write_mesh_node] appends, given the
    transform of the enclosing node. *)
Lemma _write_mesh_node_spec `{Host} (self : NodeWriter) (obj : Object)
    (ms divided : list Mesh) (transform : Matrix) :
  _split_object_by_materials self obj = Ok ms ->
  _split_meshes_for_vertex_limit ms = Ok divided ->
  match parent obj with
  | Some parent_matrix_world =>
      option_map convert_matrix (matrix_inverted parent_matrix_world)
  | None => Some Matrix_identity
  end = Some transform ->
  appends (_write_mesh_node self obj)
    ((if has_parent obj || (1 <? length divided)
      then node_record {| nd_name := name obj;
                          nd_childCount := Z.of_nat (length divided);
                          nd_active := true;
                          nd_transform := transform |}
      else [])
     ++ flat_map (mesh_record obj (node_properties_of self obj)) divided)
    (flat_map (mesh_warnings obj) divided).
Proof.
  intros Hms Hdiv Htransform.
  pose proof (_split_meshes_for_vertex_limit_fits _ _ Hdiv) as Hfits.
  pose proof (write_meshes_spec obj (node_properties_of self obj)
                divided Hfits) as Hmeshes.
  intros s. unfold _write_mesh_node.
  rewrite (lift_ok _ _ _ _ Hms), (lift_ok _ _ _ _ Hdiv).
  fold (node_properties_of self obj).
  destruct (has_parent obj || (1 <? length divided)) eqn:Hwrap.
  - assert (match parent obj with
            | Some parent_matrix_world =>
                match matrix_inverted parent_matrix_world with
                | Some inverted => ret (convert_matrix inverted)
                | None => raise ValueError
                end
            | None => ret Matrix_identity
            end = ret transform) as ->.
    { destruct (parent obj) as [pm|].
      - destruct (matrix_inverted pm); [|discriminate].
        injection Htransform as <-. reflexivity.
      - injection Htransform as <-. reflexivity. }
    revert s. eapply appends_eq;
      [eapply appends_bind; [apply wrapper_spec | exact Hmeshes]
      | reflexivity | reflexivity].
  - revert s. eapply appends_eq;
      [eapply appends_bind; [apply appends_ret | exact Hmeshes]
      | reflexivity | reflexivity].
Qed.

(** ** The walk over the hierarchy *)

Section Hierarchy.
Context `{Host}.
Variable self : NodeWriter.

(** The bodies of the two loops over objects. *)
Local Abbreviation visit_child :=
  (fun child : Object =>
     if visible_get child then _write_object self child else ret tt).

Local Abbreviation visit_top :=
  (fun obj : Object =>
     if negb (has_parent obj) && visible_get obj
     then _write_object self obj else ret tt).

(** The children that [_write_base_node] counts, below an object and below
    the root. *)
Local Abbreviation counted_child :=
  (fun child : Object =>
     negb (Py.startswith (name child) "__") && visible_get child).

Local Abbreviation counted_top :=
  (fun obj : Object =>
     negb (has_parent obj) && negb (Py.startswith (name obj) "__")
     && visible_get obj).

Lemma _write_object_eq (obj : Object) :
  _write_object self obj =
  if negb (Py.startswith (name obj) "__") && visible_get obj then
    ((if (type obj =? "MESH")%string then
        (match children obj with
         | _ :: _ =>
             raise (Exception ("A mesh cannot contain children ('" ++
                               name obj ++ "')")%string)
         | [] => ret tt
         end ;;
         _write_mesh_node self obj)
      else _write_base_node self (Some obj) (name obj)) ;;
     for_each visit_child (children obj))%writer
  else ret tt.
Proof. destruct obj. reflexivity. Qed.

Lemma count_if_app (p : Object -> bool) (l1 l2 : list Object) :
  count_if p (l1 ++ l2) = (count_if p l1 + count_if p l2)%Z.
Proof.
  unfold count_if. rewrite fold_left_app.
  generalize (fold_left
                (fun (n : Z) (o : Object) => if p o then (n + 1)%Z else n)
                l1 0%Z) as a.
  induction l2 as [|x l2 IH] using rev_ind; intros a; [cbn; lia|].
  rewrite !fold_left_app. cbn [fold_left]. rewrite (IH a), (IH 0%Z).
  destruct (p x); lia.
Qed.

Lemma count_if_skips (p : Object -> bool) (l1 l2 : list Object) (x : Object) :
  p x = false -> count_if p (l1 ++ x :: l2) = count_if p (l1 ++ l2).
Proof.
  intros Hx. rewrite !count_if_app.
  change (x :: l2) with ([x] ++ l2). rewrite count_if_app.
  unfold count_if at 2. cbn [fold_left]. rewrite Hx. lia.
Qed.

End Hierarchy.

(** ** C9: a material that the resolver does not know *)

Section UnresolvedMaterial.
Context `{Host}.
Variable self : NodeWriter.

(** What a grouping step that returns has gone through: the tangents, the
    check of the material slots, and the loop over the used slots. *)
Lemma _split_object_by_materials_ok (obj : Object) (ms : list Mesh) :
  _split_object_by_materials self obj = Ok ms ->
  calc_tangents (evaluated_mesh obj) = Ok tt /\
  materials (evaluated_mesh obj) <> [] /\
  Py.rfold (material_group self obj (evaluated_mesh obj))
    (set_iter (map material_index (mesh_triangles (evaluated_mesh obj)))) []
  = Ok ms.
Proof.
  unfold _split_object_by_materials.
  destruct (calc_tangents (evaluated_mesh obj)) as [[]|e]; cbn [rbind];
    [|discriminate].
  destruct (materials (evaluated_mesh obj)); [discriminate|].
  intros Hrun. split; [reflexivity|]. split; [discriminate | exact Hrun].
Qed.

(** The lookup of the material id is a subscript: for a name that is not in
    the mapping the group is not built and the grouping step raises. *)
Lemma material_group_unresolved (obj : Object) (mesh_copy : BlenderMesh)
    (meshes : list Mesh) (mi : nat) (material : Material)
    (st : vertex_dict * list nat) :
  Py.getitem (materials mesh_copy) mi = Ok (Some material) ->
  Py.startswith (material_name material) "__" = false ->
  Py.rfold (triangle_step obj mesh_copy mi) (mesh_triangles mesh_copy) ([], [])
  = Ok st ->
  Py.get String.eqb (material_positions self) (material_name material) = None ->
  material_group self obj mesh_copy meshes mi
  = Raise (KeyError (material_name material)).
Proof.
  intros Hslot Hname Hst Hget. unfold material_group.
  rewrite Hslot. cbn [rbind]. rewrite Hname, Hst. cbn [rbind].
  destruct st as [vertices indices].
  unfold material_position. rewrite Hget. reflexivity.
Qed.

Lemma rfold_invariant {A B} (f : B -> A -> Result B) (P : B -> Prop)
    (l : list A) :
  (forall b x b', P b -> f b x = Ok b' -> P b') ->
  forall b b', P b -> Py.rfold f l b = Ok b' -> P b'.
Proof.
  intros Hstep. induction l as [|x l IH]; intros b b' Hb; cbn [Py.rfold].
  - intros [= <-]. exact Hb.
  - destruct (f b x) as [b1|e] eqn:Hf; cbn [rbind]; [|discriminate].
    apply IH. exact (Hstep b x b1 Hb Hf).
Qed.

(** Every group that the grouping step returns carries a material id: the
    branch of [_write_mesh] for a group without one is never taken for
    them. *)
Lemma grouping_assigns_material (obj : Object) (ms : list Mesh) :
  _split_object_by_materials self obj = Ok ms ->
  Forall (fun m => material_id m <> None) ms.
Proof.
  intros Hrun. apply _split_object_by_materials_ok in Hrun.
  destruct Hrun as (_ & _ & Hrun). revert Hrun.
  apply rfold_invariant; [|constructor].
  intros meshes mi meshes' Hmeshes. unfold material_group.
  destruct (Py.getitem _ mi) as [[material|]|]; cbn [rbind]; try discriminate.
  destruct (Py.startswith _ _); [discriminate|].
  destruct (Py.rfold _ _ _) as [[vertices indices]|]; cbn [rbind];
    [|discriminate].
  destruct (material_position self _); cbn [rbind]; [|discriminate].
  intros [= <-]. apply Forall_app. split; [exact Hmeshes|].
  constructor; [discriminate | constructor].
Qed.

(** The branch itself: a group without a material id is written with the
    material reference 0 and adds a warning. *)
Lemma _write_mesh_without_material (obj : Object) (mesh : Mesh)
    (props : NodeProperties) :
  material_id mesh = None ->
  (Z.of_nat (length (vertices mesh)) <= 65536)%Z ->
  appends (_write_mesh obj mesh props) (mesh_record obj props mesh)
    [("No material to mesh '" ++ name obj ++ "' assigned")%string] /\
  nth_error (rev (mesh_record obj props mesh)) 6 = Some (Uint 0).
Proof.
  intros Hid Hlen. split.
  - pose proof (_write_mesh_spec obj mesh props Hlen) as Hw.
    unfold mesh_warnings in Hw. rewrite Hid in Hw. exact Hw.
  - unfold mesh_record. rewrite Hid, !app_assoc, rev_app_distr. reflexivity.
Qed.

End UnresolvedMaterial.

(** C9, on the code: the export of one triangle whose material "Paint" is
    not in the mapping stops with [KeyError] after the root node; no mesh
    record is written and no warning is added. *)
Theorem unresolved_material_stops_export :
  let root := {| nd_name := "BlenderFile"; nd_childCount := 1;
                 nd_active := true; nd_transform := Matrix_identity |} in
  write (Demo.writer [Demo.triangle_object] []) Demo.no_output
  = (Raise (KeyError "Paint"),
     {| file := node_record root; warnings := [] |}).
Proof. vm_compute. reflexivity. Qed.

(** ** The child counts of two exports *)

(** Exports whose child counts hold: a mesh alone, and a generic object
    with a mesh child. *)
Example child_counts_of_a_mesh :
  child_counts_hold
    (file (snd (write (Demo.writer [Demo.triangle_object] Demo.paint)
                  Demo.no_output))) = true.
Proof. vm_compute. reflexivity. Qed.

Example child_counts_of_a_car :
  let car := Demo.object "Car" "EMPTY" None
               [Demo.child_triangle; Demo.helper_object] Demo.no_mesh in
  child_counts_hold
    (file (snd (write (Demo.writer [car; Demo.quad_object] Demo.paint)
                  Demo.no_output))) = true.
Proof. vm_compute. reflexivity. Qed.


(** ** The groups that reach the splitter *)

Section Pipeline.
Context `{Host}.
Variable self : NodeWriter.

Lemma compact_value_is_position {K} (d : Py.dict K nat) p k v :
  compact d -> nth_error d p = Some (k, v) -> v = p /\ p < length d.
Proof.
  unfold compact. intros Hc Hp.
  assert (p < length d) as Hlt by (apply nth_error_Some; congruence).
  assert (nth_error (map snd d) p = Some v) as Hv
    by (rewrite nth_error_map, Hp; reflexivity).
  rewrite Hc, nth_error_seq in Hv.
  destruct (Nat.ltb_spec p (length d)); [|lia].
  cbn [Nat.add] in Hv. split; [congruence | exact Hlt].
Qed.

Lemma lookup_or_add_inv (d : vertex_dict) (v : UvVertex) :
  compact d ->
  compact (fst (lookup_or_add d v)) /\
  length d <= length (fst (lookup_or_add d v)) /\
  snd (lookup_or_add d v) < length (fst (lookup_or_add d v)).
Proof.
  intros Hc. unfold lookup_or_add.
  destruct (Py.get UvVertex_keq d v) as [i|] eqn:Hget; cbn [fst snd].
  - split; [exact Hc|]. split; [lia|].
    destruct (dict_get_nth _ _ _ _ Hget) as (p & k' & Hp & _).
    destruct (compact_value_is_position d p k' i Hc Hp) as [-> Hlt]. exact Hlt.
  - split; [apply compact_app; exact Hc|].
    rewrite length_app. cbn [length]. lia.
Qed.

Lemma face_loop_inv (obj : Object) (mesh_copy : BlenderMesh) (mi : nat)
    (triangle : LoopTriangle) (d : vertex_dict) (st : vertex_dict * list nat) :
  compact d ->
  face_loop obj mesh_copy mi triangle d = Ok st -> indexed (length d) st.
Proof.
  intros Hc. unfold face_loop.
  apply (rfold_invariant _ (indexed (length d))).
  - intros [d1 fi] l [d2 fi2] (Hc1 & Hlen1 & Hfi1). cbn [fst snd] in *.
    destruct (loop_vertex obj mesh_copy mi l) as [v|]; cbn [rbind];
      [|discriminate].
    rewrite add_vertex_spec. intros [= <- <-].
    destruct (lookup_or_add_inv d1 v Hc1) as (Hc2 & Hlen2 & Hi).
    split; [exact Hc2|]. split; [cbn [fst]; lia|]. cbn [fst snd].
    apply Forall_app. split; [|constructor; [exact Hi | constructor]].
    eapply Forall_impl; [|exact Hfi1]. cbv beta. intros i Hlt. lia.
  - split; [exact Hc|]. split; [cbn [fst]; lia | constructor].
Qed.

Lemma getitem_In {A} (l : list A) (i : nat) (x : A) :
  Py.getitem l i = Ok x -> In x l.
Proof.
  unfold Py.getitem. destruct (nth_error l i) eqn:E; [|discriminate].
  intros [= <-]. exact (nth_error_In _ _ E).
Qed.

Lemma extend_indices_inv (idx fi idx' : list nat) :
  extend_indices idx fi = Ok idx' ->
  exists extra, idx' = idx ++ extra /\ incl extra fi /\
                length extra mod 3 = 0.
Proof.
  unfold extend_indices.
  destruct (Py.getitem fi 1) as [f1|] eqn:H1; cbn [rbind]; [|discriminate].
  destruct (Py.getitem fi 2) as [f2|] eqn:H2; cbn [rbind]; [|discriminate].
  destruct (Py.getitem fi 0) as [f0|] eqn:H0; cbn [rbind]; [|discriminate].
  apply getitem_In in H0, H1, H2.
  destruct (length fi =? 4).
  - destruct (Py.getitem fi 3) as [f3|] eqn:H3; cbn [rbind]; [|discriminate].
    apply getitem_In in H3. intros [= <-].
    exists [f1; f2; f0; f2; f3; f0]. rewrite <- app_assoc.
    split; [reflexivity|]. split; [|reflexivity].
    intros x Hx. cbn in Hx. intuition (subst; assumption).
  - intros [= <-]. exists [f1; f2; f0].
    split; [reflexivity|]. split; [|reflexivity].
    intros x Hx. cbn in Hx. intuition (subst; assumption).
Qed.

Lemma triangle_step_inv (obj : Object) (mesh_copy : BlenderMesh) (mi : nat)
    (st st' : vertex_dict * list nat) (triangle : LoopTriangle) :
  grouped st -> triangle_step obj mesh_copy mi st triangle = Ok st' ->
  grouped st'.
Proof.
  intros Hst. unfold triangle_step.
  destruct (negb (mi =? material_index triangle)); [intros [= <-]; exact Hst|].
  destruct st as [d idx]. destruct Hst as (Hc & Hmod & Hidx). cbn [fst snd] in *.
  destruct (face_loop obj mesh_copy mi triangle d) as [[d' fi]|] eqn:Hface;
    cbn [rbind]; [|discriminate].
  destruct (face_loop_inv _ _ _ _ _ _ Hc Hface) as (Hc' & Hlen & Hfi).
  cbn [fst snd] in *.
  destruct (extend_indices idx fi) as [idx'|] eqn:Hext; cbn [rbind];
    [|discriminate].
  intros [= <-].
  destruct (extend_indices_inv _ _ _ Hext) as (extra & -> & Hincl & Hextra).
  split; [exact Hc'|]. cbn [fst snd]. split.
  - rewrite length_app, Nat.Div0.add_mod, Hmod, Hextra. reflexivity.
  - apply Forall_app. split.
    + eapply Forall_impl; [|exact Hidx]. cbv beta. intros i Hlt. lia.
    + apply Forall_forall. intros i Hi.
      exact (proj1 (Forall_forall _ _) Hfi i (Hincl i Hi)).
Qed.

Lemma grouped_mesh_wf (d : vertex_dict) (idx : list nat) (id : option Z) :
  grouped (d, idx) -> mesh_wf (mkMesh id (vertex_buffer d) idx) = true.
Proof.
  intros (Hc & Hmod & Hidx). cbn [fst snd] in *. unfold mesh_wf.
  cbn [vertices indices]. rewrite Hmod. cbn [Nat.eqb andb].
  rewrite (vertex_buffer_compact d Hc), length_map.
  apply forallb_forall. intros i Hi. apply Nat.ltb_lt.
  exact (proj1 (Forall_forall _ _) Hidx i Hi).
Qed.

(** The grouping step hands whole triangles and indices in range to the
    splitter. *)
Lemma grouping_yields_wf (obj : Object) (ms : list Mesh) :
  _split_object_by_materials self obj = Ok ms -> forallb mesh_wf ms = true.
Proof.
  intros Hrun. apply _split_object_by_materials_ok in Hrun.
  destruct Hrun as (_ & _ & Hrun). revert Hrun.
  apply (rfold_invariant _ (fun l => forallb mesh_wf l = true));
    [|reflexivity].
  intros meshes mi meshes' Hmeshes. unfold material_group.
  destruct (Py.getitem _ mi) as [[material|]|]; cbn [rbind]; try discriminate.
  destruct (Py.startswith _ _); [discriminate|].
  destruct (Py.rfold _ _ _) as [[d idx]|] eqn:Hfold; cbn [rbind];
    [|discriminate].
  destruct (material_position self _); cbn [rbind]; [|discriminate].
  intros [= <-]. rewrite forallb_app, Hmeshes. cbn [forallb andb].
  rewrite grouped_mesh_wf; [reflexivity|].
  refine (rfold_invariant _ grouped _ _ _ _ _ Hfold).
  - intros b x b'. apply triangle_step_inv.
  - split; [reflexivity|]. split; [reflexivity | constructor].
Qed.

(** So the splitter never raises on what the grouping step returns, and
    what C1 states holds of every group that is written. *)
Lemma splitter_after_grouping (obj : Object) (ms : list Mesh) :
  _split_object_by_materials self obj = Ok ms ->
  exists parts : list (list (Mesh * list nat)),
    _split_meshes_for_vertex_limit ms = Ok (map fst (concat parts)) /\
    Forall2 (fun m part => splits_into m part /\ triangles_kept m part)
      ms parts.
Proof.
  intros Hms. apply split_meshes_spec; [lia|].
  exact (grouping_yields_wf obj ms Hms).
Qed.

End Pipeline.

(** ** Child counts, where they hold *)

Lemma Nodes_app (a b : nat) (e1 e2 : list Event) :
  Nodes a e1 -> Nodes b e2 -> Nodes (a + b) (e1 ++ e2).
Proof.
  intros H1 H2. induction H1 as [|n record kids siblings cc Hne Hread Hk _ Hs IH].
  - exact H2.
  - cbn [Nat.add]. rewrite <- !app_assoc.
    apply Nodes_more with (child_count := cc); assumption.
Qed.

Lemma Nodes_read (n : nat) (evs : list Event) :
  Nodes n evs ->
  forall fuel rest, length evs <= fuel ->
    read_nodes fuel n (evs ++ rest) = Some rest.
Proof.
  induction 1 as [|n record kids siblings cc Hne Hread Hk IHk Hs IHs];
    intros fuel rest Hfuel.
  - destruct fuel; reflexivity.
  - rewrite !length_app in Hfuel.
    assert (0 < length record) by (destruct record; [congruence | cbn; lia]).
    destruct fuel as [|fuel]; [lia|]. cbn [read_nodes].
    rewrite <- !app_assoc, Hread.
    rewrite (IHk fuel (siblings ++ rest)) by lia.
    apply IHs. lia.
Qed.

Lemma Nodes_child_counts_hold (evs : list Event) :
  Nodes 1 evs -> child_counts_hold evs = true.
Proof.
  intros Hn. unfold child_counts_hold.
  pose proof (Nodes_read 1 evs Hn (S (length evs)) [] ltac:(lia)) as E.
  rewrite app_nil_r in E. rewrite E. reflexivity.
Qed.

Lemma read_node_record (nd : NodeData) (rest : list Event) :
  read_record (node_record nd ++ rest) = Some (nd_childCount nd, rest).
Proof. reflexivity. Qed.

Lemma skipn_exact {A} (l rest : list A) (n : nat) :
  n = length l -> skipn n (l ++ rest) = rest.
Proof.
  intros ->. rewrite skipn_app, skipn_all, Nat.sub_diag. reflexivity.
Qed.

Lemma vertex_events_length (vs : list UvVertex) :
  length (flat_map vertex_events vs) = 4 * length vs.
Proof.
  induction vs as [|v vs IH]; [reflexivity|].
  cbn [flat_map]. rewrite length_app, IH. cbn [vertex_events length]. lia.
Qed.

Lemma read_mesh_record (obj : Object) (props : NodeProperties) (g : Mesh)
    (rest : list Event) :
  read_record (mesh_record obj props g ++ rest) = Some (0%Z, rest).
Proof.
  unfold mesh_record. rewrite <- !app_assoc. cbn [app read_record].
  rewrite skipn_exact by (rewrite vertex_events_length, Nat2Z.id; reflexivity).
  cbn [app].
  rewrite skipn_exact by (rewrite length_map, Nat2Z.id; reflexivity).
  reflexivity.
Qed.

Lemma Nodes_mesh_records (obj : Object) (props : NodeProperties)
    (divided : list Mesh) :
  Nodes (length divided) (flat_map (mesh_record obj props) divided).
Proof.
  induction divided as [|g divided IH]; cbn [flat_map length].
  - constructor.
  - change (mesh_record obj props g ++ flat_map (mesh_record obj props) divided)
      with (mesh_record obj props g ++ []
            ++ flat_map (mesh_record obj props) divided).
    apply Nodes_more with (child_count := 0%Z);
      [discriminate | apply read_mesh_record | constructor | exact IH].
Qed.

Lemma Nodes_node (nd : NodeData) (n : nat) (kids : list Event) :
  nd_childCount nd = Z.of_nat n -> Nodes n kids ->
  Nodes 1 (node_record nd ++ kids).
Proof.
  intros Hcc Hkids.
  rewrite <- (app_nil_r kids).
  apply Nodes_more with (child_count := nd_childCount nd);
    [discriminate | apply read_node_record | | constructor].
  rewrite Hcc, Nat2Z.id. exact Hkids.
Qed.

Lemma count_if_filter (p : Object -> bool) (l : list Object) :
  count_if p l = Z.of_nat (length (filter p l)).
Proof.
  induction l as [|x l IH] using rev_ind; [reflexivity|].
  rewrite count_if_app, IH, filter_app, length_app.
  unfold count_if. cbn [fold_left filter]. destruct (p x); cbn [length]; lia.
Qed.

Lemma filter_insert_by_length {A} (key : A -> Z) (p : A -> bool) (x : A)
    (l : list A) :
  length (filter p (Py.insert_by key x l))
  = length (filter p (x :: l)).
Proof.
  induction l as [|y l IH]; [reflexivity|]. cbn [Py.insert_by].
  destruct (key y <=? key x)%Z; [|reflexivity].
  cbn [filter] in *. destruct (p y), (p x); cbn [length] in *; lia.
Qed.

Lemma filter_sorted_length {A} (key : A -> Z) (p : A -> bool) (l : list A) :
  length (filter p (Py.sorted key l)) = length (filter p l).
Proof.
  unfold Py.sorted.
  assert (forall acc,
            length (filter p (fold_left (fun acc x => Py.insert_by key x acc) l acc))
            = length (filter p acc) + length (filter p l)) as Hfold.
  { induction l as [|x l IH]; intros acc; cbn [fold_left]; [cbn; lia|].
    rewrite IH, filter_insert_by_length. cbn [filter].
    destruct (p x); cbn [length]; lia. }
  apply Hfold.
Qed.

Section ChildCounts.
Context `{Host}.
Variable self : NodeWriter.

Lemma _write_base_node_spec (obj : option Object) (node_name : string) :
  exists nd ws,
    appends (_write_base_node self obj node_name) (node_record nd) ws /\
    nd_childCount nd =
    match obj with
    | None =>
        count_if (fun obj => negb (has_parent obj)
                             && negb (Py.startswith (name obj) "__")
                             && visible_get obj) (objects self)
    | Some obj =>
        count_if (fun child => negb (Py.startswith (name child) "__")
                               && visible_get child) (children obj)
    end.
Proof.
  unfold _write_base_node. destruct obj as [obj|].
  - exists {| nd_name := node_name;
              nd_childCount :=
                count_if (fun child => negb (Py.startswith (name child) "__")
                                       && visible_get child) (children obj);
              nd_active := true;
              nd_transform := convert_matrix (matrix_local obj) |}.
    destruct (negb (_is_ac_object (name obj)) && negb (_any_child_is_mesh obj)).
    + eexists. split; [|reflexivity].
      intros s. unfold bind, warn, ret. cbn [fst snd].
      rewrite (_write_base_node_data_spec _ _). cbn [file warnings].
      rewrite <- app_assoc. reflexivity.
    + exists []. split; [|reflexivity].
      intros s. unfold bind, ret. cbn [fst snd].
      rewrite (_write_base_node_data_spec _ _). reflexivity.
  - exists {| nd_name := node_name;
              nd_childCount :=
                count_if (fun obj => negb (has_parent obj)
                                     && negb (Py.startswith (name obj) "__")
                                     && visible_get obj) (objects self);
              nd_active := true;
              nd_transform := Matrix_identity |}.
    exists []. split; [|reflexivity].
    intros s. unfold bind, ret.
    rewrite (_write_base_node_data_spec _ _). reflexivity.
Qed.

Lemma mesh_node_writes (obj : Object) s s' :
  (parent obj = None -> groups_of self obj <> Ok []) ->
  _write_mesh_node self obj s = (Ok tt, s') ->
  exists evs, file s' = file s ++ evs /\ Nodes 1 evs.
Proof.
  intros Hgroups Hrun.
  destruct (_split_object_by_materials self obj) as [ms|e] eqn:Hms;
    [|unfold _write_mesh_node, bind, lift in Hrun; rewrite Hms in Hrun;
      discriminate].
  destruct (_split_meshes_for_vertex_limit ms) as [divided|e] eqn:Hdiv;
    [|unfold _write_mesh_node, bind, lift in Hrun; rewrite Hms, Hdiv in Hrun;
      discriminate].
  destruct (match parent obj with
            | Some parent_matrix_world =>
                option_map convert_matrix (matrix_inverted parent_matrix_world)
            | None => Some Matrix_identity
            end) as [transform|] eqn:Htransform.
  - rewrite (_write_mesh_node_spec self obj ms divided transform
               Hms Hdiv Htransform s) in Hrun.
    injection Hrun as <-. eexists. split; [reflexivity|].
    destruct (has_parent obj || (1 <? length divided)) eqn:Hwrap.
    + apply Nodes_node with (n := length divided);
        [reflexivity | apply Nodes_mesh_records].
    + apply orb_false_elim in Hwrap. destruct Hwrap as [Hp Hlen].
      apply Nat.ltb_ge in Hlen. cbn [app].
      destruct divided as [|g [|g' divided]]; [| |cbn [length] in Hlen; lia].
      * exfalso. unfold has_parent in Hp.
        destruct (parent obj) eqn:Hpar; [discriminate|].
        apply Hgroups; [reflexivity|]. unfold groups_of.
        rewrite Hms. cbn [rbind]. exact Hdiv.
      * apply (Nodes_mesh_records obj (node_properties_of self obj) [g]).
  - destruct (parent obj) as [pm|] eqn:Hp; [|discriminate].
    destruct (matrix_inverted pm) eqn:Hinv; [discriminate|].
    unfold _write_mesh_node, bind, lift, has_parent in Hrun.
    rewrite Hms, Hdiv, Hp, Hinv in Hrun. cbn in Hrun. discriminate.
Qed.

Lemma children_write (cs : list Object) :
  Forall (visit_writes self) cs ->
  forall s s',
    (fix all (cs : list Object) : Prop :=
       match cs with
       | [] => True
       | c :: cs' => no_empty_mesh self c /\ all cs'
       end) cs ->
    for_each (fun child =>
                if visible_get child then _write_object self child else ret tt)
      cs s = (Ok tt, s') ->
    exists evs, file s' = file s ++ evs /\
                Nodes (length (filter exported cs)) evs.
Proof.
  induction 1 as [|c cs Hc _ IH]; intros s s' Hok Hrun; cbn [for_each] in Hrun.
  - injection Hrun as <-. exists []. rewrite app_nil_r.
    split; [reflexivity | constructor].
  - destruct Hok as [Hokc Hokcs]. unfold bind in Hrun.
    destruct ((if visible_get c then _write_object self c else ret tt) s)
      as [[[]|e] s1] eqn:Hvisit; [|discriminate].
    destruct (IH s1 s' Hokcs Hrun) as (evs2 & Hfile2 & Hnodes2).
    assert (exists evs1, file s1 = file s ++ evs1 /\
                         Nodes (if exported c then 1 else 0) evs1)
      as (evs1 & Hfile1 & Hnodes1).
    { destruct (visible_get c) eqn:Hv.
      - exact (Hc s s1 Hokc Hvisit).
      - injection Hvisit as <-. exists []. rewrite app_nil_r.
        split; [reflexivity|]. unfold exported. rewrite Hv, andb_false_r.
        constructor. }
    exists (evs1 ++ evs2). rewrite Hfile2, Hfile1, app_assoc.
    split; [reflexivity|]. cbn [filter].
    destruct (exported c); cbn [length];
      [exact (Nodes_app 1 _ _ _ Hnodes1 Hnodes2)
      | exact (Nodes_app 0 _ _ _ Hnodes1 Hnodes2)].
Qed.

Lemma visit_writes_all (obj : Object) : visit_writes self obj.
Proof.
  induction obj as [obj IH] using Object_children_ind.
  intros s s' Hok Hrun. rewrite _write_object_eq in Hrun.
  fold (exported obj) in Hrun.
  destruct (exported obj) eqn:Hexp.
  2:{ injection Hrun as <-. exists []. rewrite app_nil_r.
      split; [reflexivity | constructor]. }
  assert (no_empty_mesh self obj) as Hok' by exact Hok.
  destruct obj as [nm ty vis par cs ml mw dims props mesh].
  cbn [name type visible_get parent children] in *.
  cbn [no_empty_mesh children] in Hok. destruct Hok as [Hself Hkids].
  unfold bind in Hrun at 1.
  destruct (ty =? "MESH")%string eqn:Htype.
  - destruct cs as [|c cs]; [|discriminate].
    unfold bind in Hrun at 1. cbn [ret] in Hrun.
    match type of Hrun with
    | context [_write_mesh_node self ?o s] =>
        destruct (_write_mesh_node self o s) as [[[]|e] s1] eqn:Hmesh;
          [|discriminate];
        destruct (mesh_node_writes o s s1) as (evs & Hfile & Hnodes);
          [intros Hp; apply Hself; [exact Hexp | exact Htype | exact Hp]
          | exact Hmesh |]
    end.
    cbn [for_each ret] in Hrun. injection Hrun as <-.
    exists evs. split; [exact Hfile | exact Hnodes].
  - match type of Hrun with
    | context [_write_base_node self (Some ?o) ?n s] =>
        destruct (_write_base_node_spec (Some o) n) as (nd & ws & Happ & Hcc);
          rewrite (Happ s) in Hrun
    end.
    cbn [children] in Hcc.
    match type of Hrun with
    | for_each _ cs ?s1 = _ =>
        destruct (children_write cs IH s1 s' Hkids Hrun)
          as (kids & Hfile & Hnodes)
    end.
    cbn [file] in Hfile. exists (node_record nd ++ kids).
    rewrite Hfile, app_assoc. split; [reflexivity|].
    apply Nodes_node with (n := length (filter exported cs)); [|exact Hnodes].
    rewrite Hcc. apply count_if_filter.
Qed.

Lemma top_level_write (l : list Object) :
  (forall obj, In obj l -> no_empty_mesh self obj) ->
  forall s s',
    for_each (fun obj =>
                if negb (has_parent obj) && visible_get obj
                then _write_object self obj else ret tt) l s = (Ok tt, s') ->
    exists evs,
      file s' = file s ++ evs /\
      Nodes (length (filter (fun obj => negb (has_parent obj)
                                        && negb (Py.startswith (name obj) "__")
                                        && visible_get obj) l)) evs.
Proof.
  induction l as [|x l IH]; intros Hok s s' Hrun; cbn [for_each] in Hrun.
  - injection Hrun as <-. exists []. rewrite app_nil_r.
    split; [reflexivity | constructor].
  - unfold bind in Hrun.
    destruct ((if negb (has_parent x) && visible_get x
               then _write_object self x else ret tt) s)
      as [[[]|e] s1] eqn:Hvisit; [|discriminate].
    destruct (IH (fun o Ho => Hok o (or_intror Ho)) s1 s' Hrun)
      as (evs2 & Hfile2 & Hnodes2).
    assert (exists evs1,
              file s1 = file s ++ evs1 /\
              Nodes (if negb (has_parent x)
                        && negb (Py.startswith (name x) "__")
                        && visible_get x then 1 else 0) evs1)
      as (evs1 & Hfile1 & Hnodes1).
    { destruct (negb (has_parent x)) eqn:Hp; cbn [andb] in *.
      - destruct (visible_get x) eqn:Hv.
        + destruct (visit_writes_all x s s1 (Hok x (or_introl eq_refl)) Hvisit)
            as (evs1 & Hfile1 & Hnodes1).
          exists evs1. split; [exact Hfile1|].
          unfold exported in Hnodes1. rewrite Hv in Hnodes1. exact Hnodes1.
        + injection Hvisit as <-. exists []. rewrite app_nil_r, andb_false_r.
          split; [reflexivity | constructor].
      - injection Hvisit as <-. exists []. rewrite app_nil_r.
        split; [reflexivity | constructor]. }
    exists (evs1 ++ evs2). rewrite Hfile2, Hfile1, app_assoc.
    split; [reflexivity|]. cbn [filter].
    destruct (negb (has_parent x) && negb (Py.startswith (name x) "__")
              && visible_get x); cbn [length];
      [exact (Nodes_app 1 _ _ _ Hnodes1 Hnodes2)
      | exact (Nodes_app 0 _ _ _ Hnodes1 Hnodes2)].
Qed.

Lemma In_insert_by {A} (key : A -> Z) (x y : A) (l : list A) :
  In x (Py.insert_by key y l) -> x = y \/ In x l.
Proof.
  induction l as [|z l IH]; cbn [Py.insert_by].
  - intros [<-|[]]. left. reflexivity.
  - destruct (key z <=? key y)%Z; cbn [In].
    + intros [<-|Hin]; [right; left; reflexivity|].
      destruct (IH Hin) as [->|Hl]; [left; reflexivity | right; right; exact Hl].
    + intros [<-|[<-|Hin]]; auto.
Qed.

Lemma In_sorted {A} (key : A -> Z) (x : A) (l : list A) :
  In x (Py.sorted key l) -> In x l.
Proof.
  unfold Py.sorted.
  assert (forall acc,
            In x (fold_left (fun acc y => Py.insert_by key y acc) l acc) ->
            In x acc \/ In x l) as Hfold.
  { induction l as [|y l IH]; intros acc; cbn [fold_left]; [auto|].
    intros Hin. destruct (IH _ Hin) as [Hacc|Hl]; [|right; right; exact Hl].
    destruct (In_insert_by key x y acc Hacc) as [->|Ha];
      [right; left; reflexivity | left; exact Ha]. }
  intros Hin. destruct (Hfold [] Hin) as [[]|Hl]. exact Hl.
Qed.

(** Apart from exported mesh objects without a parent that are written as
    zero groups, the declared child counts hold: an export that ends well
    has written one root node, and every node of the stream is followed by
    as many child nodes as it declares. *)
Lemma child_counts_hold_otherwise (s s' : Streams) :
  (forall obj, In obj (objects self) -> no_empty_mesh self obj) ->
  write self s = (Ok tt, s') ->
  exists evs, file s' = file s ++ evs /\ Nodes 1 evs /\
              (file s = [] -> child_counts_hold (file s') = true).
Proof.
  intros Hok Hrun. unfold write, bind in Hrun.
  destruct (_write_base_node_spec None "BlenderFile")
    as (nd & ws & Happ & Hcc).
  rewrite (Happ s) in Hrun.
  match type of Hrun with
  | for_each _ ?l ?s1 = _ =>
      destruct (top_level_write l
                  (fun o Ho => Hok o (In_sorted _ o _ Ho)) s1 s' Hrun)
        as (kids & Hfile & Hnodes)
  end.
  cbn [file] in Hfile. rewrite filter_sorted_length in Hnodes.
  assert (Nodes 1 (node_record nd ++ kids)) as Hall.
  { eapply Nodes_node; [|exact Hnodes]. rewrite Hcc. apply count_if_filter. }
  exists (node_record nd ++ kids). rewrite Hfile, app_assoc.
  split; [reflexivity|]. split; [exact Hall|].
  intros ->. apply Nodes_child_counts_hold. exact Hall.
Qed.

End ChildCounts.

(** ** When a visit ends well *)

Lemma for_each_ok_iff {A} (body : A -> W unit) (Q : A -> Prop) (l : list A) :
  (forall x, In x l ->
             forall s, (exists s', body x s = (Ok tt, s')) <-> Q x) ->
  forall s, (exists s', for_each body l s = (Ok tt, s')) <-> Forall Q l.
Proof.
  induction l as [|x l IH]; intros Hbody s; cbn [for_each].
  - split; [constructor | intros _; exists s; reflexivity].
  - pose proof (Hbody x (or_introl eq_refl) s) as Hx.
    specialize (IH (fun y Hy => Hbody y (or_intror Hy))).
    unfold bind. destruct (body x s) as [[[]|e] s1].
    + rewrite IH. split.
      * intros Hl. constructor; [apply Hx; exists s1; reflexivity | exact Hl].
      * intros Hall. inversion Hall. assumption.
    + split.
      * intros [s' E]. discriminate.
      * intros Hall. inversion Hall as [|? ? Hq _]; subst.
        apply Hx in Hq. destruct Hq as [s' E]. discriminate.
Qed.

Lemma insert_by_In {A} (key : A -> Z) (x y : A) (l : list A) :
  x = y \/ In x l -> In x (Py.insert_by key y l).
Proof.
  induction l as [|z l IH]; cbn [Py.insert_by].
  - intros [->|[]]. left. reflexivity.
  - destruct (key z <=? key y)%Z; cbn [In].
    + intros [->|[->|Hin]];
        [right; apply IH; left; reflexivity
        | left; reflexivity
        | right; apply IH; right; exact Hin].
    + intros [->|[->|Hin]]; auto.
Qed.

Lemma sorted_In {A} (key : A -> Z) (x : A) (l : list A) :
  In x l -> In x (Py.sorted key l).
Proof.
  unfold Py.sorted.
  assert (forall acc,
            In x acc \/ In x l ->
            In x (fold_left (fun acc y => Py.insert_by key y acc) l acc))
    as Hfold.
  { induction l as [|y l IH]; intros acc; cbn [fold_left].
    - intros [Hacc|[]]. exact Hacc.
    - intros [Hacc|[->|Hl]]; apply IH.
      + left. apply insert_by_In. right. exact Hacc.
      + left. apply insert_by_In. left. reflexivity.
      + right. exact Hl. }
  intros Hin. apply Hfold. right. exact Hin.
Qed.

Section ExportEndsWell.
Context `{Host}.
Variable self : NodeWriter.

Lemma visit_ok_not_exported (obj : Object) :
  exported obj = false -> visit_ok self obj.
Proof.
  destruct obj. cbn [visit_ok]. intros E E'. congruence.
Qed.

Lemma _write_mesh_node_ok_iff (obj : Object) (s : Streams) :
  (exists s', _write_mesh_node self obj s = (Ok tt, s')) <->
  (exists ms, _split_object_by_materials self obj = Ok ms) /\
  (forall parent_matrix_world,
     parent obj = Some parent_matrix_world ->
     matrix_inverted parent_matrix_world <> None).
Proof.
  split.
  - intros [s' Hrun].
    destruct (_split_object_by_materials self obj) as [ms|e] eqn:Hms;
      [|unfold _write_mesh_node, bind, lift in Hrun; rewrite Hms in Hrun;
        discriminate].
    split; [exists ms; reflexivity|]. intros pm Hp Hinv.
    unfold _write_mesh_node, bind, lift, has_parent in Hrun.
    rewrite Hms, Hp, Hinv in Hrun.
    destruct (_split_meshes_for_vertex_limit ms); cbn in Hrun; discriminate.
  - intros [[ms Hms] Hinv].
    destruct (splitter_after_grouping self obj ms Hms) as (parts & Hdiv & _).
    assert (exists transform,
              match parent obj with
              | Some parent_matrix_world =>
                  option_map convert_matrix
                    (matrix_inverted parent_matrix_world)
              | None => Some Matrix_identity
              end = Some transform) as [transform Htransform].
    { destruct (parent obj) as [pm|] eqn:Hp; [|eexists; reflexivity].
      destruct (matrix_inverted pm) as [inv|] eqn:Hi;
        [eexists; reflexivity | exfalso; exact (Hinv pm eq_refl Hi)]. }
    eexists.
    exact (_write_mesh_node_spec self obj ms _ transform Hms Hdiv
             Htransform s).
Qed.

Lemma _write_object_ok_iff (obj : Object) :
  forall s, (exists s', _write_object self obj s = (Ok tt, s'))
            <-> visit_ok self obj.
Proof.
  induction obj as [obj IH] using Object_children_ind.
  intros s. rewrite _write_object_eq. fold (exported obj).
  destruct (exported obj) eqn:Hexp.
  2:{ split; [intros _; apply visit_ok_not_exported; exact Hexp
             | intros _; exists s; reflexivity]. }
  assert (visit_ok self obj <->
          if (type obj =? "MESH")%string then
            children obj = [] /\
            (exists ms, _split_object_by_materials self obj = Ok ms) /\
            (forall parent_matrix_world,
               parent obj = Some parent_matrix_world ->
               matrix_inverted parent_matrix_world <> None)
          else Forall (visit_ok self) (children obj)) as ->.
  { clear IH. destruct obj as [nm ty vis par cs ml mw dims props mesh].
    cbn [visit_ok type children parent] in *.
    assert ((fix all (cs : list Object) : Prop :=
               match cs with
               | [] => True
               | c :: cs' => visit_ok self c /\ all cs'
               end) cs <-> Forall (visit_ok self) cs) as Hall.
    { clear Hexp.
      induction cs as [|c cs IHcs]; [split; [constructor | exact (fun _ => I)]|].
      rewrite IHcs. split.
      - intros [Hc Hcs]. constructor; assumption.
      - intros Hcons. inversion Hcons. split; assumption. }
    destruct (ty =? "MESH")%string.
    - split; [intros Hok; exact (Hok Hexp) | intros Hok _; exact Hok].
    - rewrite <- Hall.
      split; [intros Hok; exact (Hok Hexp) | intros Hok _; exact Hok]. }
  unfold bind at 1.
  destruct (type obj =? "MESH")%string.
  - destruct (children obj) as [|c cs].
    + unfold bind at 1. cbn [ret].
      rewrite <- (_write_mesh_node_ok_iff obj s).
      destruct (_write_mesh_node self obj s) as [[[]|e] s1]; cbn [for_each ret].
      * split; [intros _; split; [reflexivity | exists s1; reflexivity]
               | intros _; exists s1; reflexivity].
      * split; [intros [s' E]; discriminate
               | intros [_ [s' E]]; discriminate].
    + unfold bind at 1. cbn [raise].
      split; [intros [s' E]; discriminate | intros [E _]; discriminate].
  - destruct (_write_base_node_spec self (Some obj) (name obj))
      as (nd & ws & Happ & _).
    rewrite (Happ s).
    apply for_each_ok_iff. intros c Hc s1.
    destruct (visible_get c) eqn:Hv.
    + exact (proj1 (Forall_forall _ _) IH c Hc s1).
    + split; [intros _; apply visit_ok_not_exported; unfold exported;
              rewrite Hv; apply andb_false_r
             | intros _; exists s1; reflexivity].
Qed.

End ExportEndsWell.

(** ** The result and the file do not depend on the warnings *)

Lemma same_output_refl {A} (x : Result A * Streams) : same_output x x.
Proof. split; reflexivity. Qed.

Lemma file_only_ret {A} (a : A) : file_only (ret a).
Proof. intros s t E. split; [reflexivity | exact E]. Qed.

Lemma file_only_raise {A} (e : Exn) : file_only (@raise A e).
Proof. intros s t E. split; [reflexivity | exact E]. Qed.

Lemma file_only_lift {A} (r : Result A) : file_only (lift r).
Proof. intros s t E. split; [reflexivity | exact E]. Qed.

Lemma file_only_emit (e : Event) : file_only (emit e).
Proof. intros s t E. split; [reflexivity|]. cbn. rewrite E. reflexivity. Qed.

Lemma file_only_warn (msg : string) : file_only (warn msg).
Proof. intros s t E. split; [reflexivity | exact E]. Qed.

Lemma file_only_bind {A B} (c : W A) (k : A -> W B) :
  file_only c -> (forall a, file_only (k a)) -> file_only (bind c k).
Proof.
  intros Hc Hk s t E. unfold bind. destruct (Hc s t E) as [Hr Hf].
  destruct (c s) as [[a|e] s1], (c t) as [[a'|e'] t1]; cbn [fst snd] in *;
    try discriminate.
  - injection Hr as <-. apply Hk. exact Hf.
  - injection Hr as <-. split; [reflexivity | exact Hf].
Qed.

Lemma file_only_for_each {A} (body : A -> W unit) (l : list A) :
  (forall x, In x l -> file_only (body x)) -> file_only (for_each body l).
Proof.
  induction l as [|x l IH]; intros Hbody; cbn [for_each].
  - apply file_only_ret.
  - apply file_only_bind; [apply Hbody; left; reflexivity|].
    intros _. apply IH. intros y Hy. apply Hbody. right. exact Hy.
Qed.

Ltac file_only_step :=
  first
    [ apply file_only_ret
    | apply file_only_raise
    | apply file_only_lift
    | apply file_only_emit
    | apply file_only_warn
    | apply file_only_for_each; intros ? _
    | apply file_only_bind; [|intros ?]
    | match goal with
      | |- file_only (if ?b then _ else _) => destruct b
      | |- file_only (match ?x with _ => _ end) => destruct x
      end ].

Lemma _write_mesh_file_only (obj : Object) (mesh : Mesh)
    (node_properties : NodeProperties) :
  file_only (_write_mesh obj mesh node_properties).
Proof.
  unfold _write_mesh, _write_bounding_sphere, _write_node_class.
  repeat file_only_step.
Qed.

(** ** Sorting and filtering *)

Lemma insert_by_sorted {A} (key : A -> Z) (x : A) (l : list A) :
  StronglySorted (fun a b => (key a <= key b)%Z) l ->
  StronglySorted (fun a b => (key a <= key b)%Z) (Py.insert_by key x l).
Proof.
  induction l as [|y l IH]; intros Hl; cbn [Py.insert_by].
  - constructor; constructor.
  - inversion Hl as [|? ? Hl' Hy]; subst.
    destruct (Z.leb_spec (key y) (key x)) as [Hle|Hgt].
    + constructor; [exact (IH Hl')|].
      apply Forall_forall. intros z Hz.
      destruct (In_insert_by key z x l Hz) as [->|Hin]; [exact Hle|].
      exact (proj1 (Forall_forall _ _) Hy z Hin).
    + constructor; [exact Hl|]. constructor; [lia|].
      eapply Forall_impl; [|exact Hy]. cbv beta. intros z Hz. lia.
Qed.

Lemma insert_by_first {A} (key : A -> Z) (x : A) (l : list A) :
  Forall (fun z => (key x < key z)%Z) l -> Py.insert_by key x l = x :: l.
Proof.
  destruct l as [|y l]; [reflexivity|]. intros Hl.
  inversion Hl as [|? ? Hy _]; subst. cbn [Py.insert_by].
  destruct (Z.leb_spec (key y) (key x)); [lia | reflexivity].
Qed.

Lemma filter_insert_by {A} (key : A -> Z) (p : A -> bool) (x : A)
    (l : list A) :
  StronglySorted (fun a b => (key a <= key b)%Z) l ->
  filter p (Py.insert_by key x l)
  = if p x then Py.insert_by key x (filter p l) else filter p l.
Proof.
  induction l as [|y l IH]; intros Hl; cbn [Py.insert_by filter].
  - destruct (p x); reflexivity.
  - inversion Hl as [|? ? Hl' Hy]; subst.
    destruct (Z.leb_spec (key y) (key x)) as [Hle|Hgt]; cbn [filter].
    + rewrite (IH Hl'). destruct (p y), (p x); try reflexivity.
      cbn [Py.insert_by]. destruct (Z.leb_spec (key y) (key x)); [|lia].
      reflexivity.
    + destruct (p x); [|reflexivity].
      symmetry. apply (insert_by_first key x (filter p (y :: l))).
      apply Forall_forall. intros z Hz. apply filter_In in Hz.
      destruct Hz as [[<-|Hz] _]; [exact Hgt|].
      pose proof (proj1 (Forall_forall _ _) Hy z Hz) as Hyz.
      cbv beta in Hyz. lia.
Qed.

Lemma filter_sorted {A} (key : A -> Z) (p : A -> bool) (l : list A) :
  filter p (Py.sorted key l) = Py.sorted key (filter p l).
Proof.
  unfold Py.sorted.
  assert (forall acc,
            StronglySorted (fun a b => (key a <= key b)%Z) acc ->
            filter p (fold_left (fun acc x => Py.insert_by key x acc) l acc)
            = fold_left (fun acc x => Py.insert_by key x acc) (filter p l)
                (filter p acc)) as Hfold.
  { induction l as [|x l IH]; intros acc Hacc; cbn [fold_left filter];
      [reflexivity|].
    rewrite (IH _ (insert_by_sorted key x acc Hacc)).
    rewrite (filter_insert_by key p x acc Hacc).
    destruct (p x); reflexivity. }
  apply (Hfold []). constructor.
Qed.

Lemma for_each_filter {A} (body : A -> W unit) (keep : A -> bool)
    (l : list A) :
  (forall x, In x l -> keep x = false -> forall s, body x s = (Ok tt, s)) ->
  forall s, for_each body (filter keep l) s = for_each body l s.
Proof.
  induction l as [|x l IH]; intros Hdrop s; cbn [filter for_each];
    [reflexivity|].
  specialize (IH (fun y Hy => Hdrop y (or_intror Hy))).
  destruct (keep x) eqn:Hx; cbn [for_each]; unfold bind.
  - destruct (body x s) as [[[]|e] s1]; [apply IH | reflexivity].
  - rewrite (Hdrop x (or_introl eq_refl) Hx s). apply IH.
Qed.

Lemma count_if_kept (p keep : Object -> bool) (l : list Object) :
  (forall x, In x l -> keep x = false -> p x = false) ->
  count_if p (filter keep l) = count_if p l.
Proof.
  intros Hdrop. rewrite !count_if_filter. f_equal. f_equal.
  induction l as [|x l IH]; [reflexivity|]. cbn [filter].
  specialize (IH (fun y Hy => Hdrop y (or_intror Hy))).
  destruct (keep x) eqn:Hx; cbn [filter].
  - rewrite IH. reflexivity.
  - rewrite (Hdrop x (or_introl eq_refl) Hx). exact IH.
Qed.

Section Walk.
Context `{Host}.
Variable self : NodeWriter.

Lemma _write_mesh_node_file_only (obj : Object) :
  file_only (_write_mesh_node self obj).
Proof.
  unfold _write_mesh_node, _write_base_node_data, _write_node_class.
  repeat first [apply _write_mesh_file_only | file_only_step].
Qed.

(** The record and the warnings of the generic node of an object. *)
Lemma _write_base_node_some (obj : Object) (node_name : string) :
  exists ws,
    appends (_write_base_node self (Some obj) node_name)
      (node_record
         {| nd_name := node_name;
            nd_childCount :=
              count_if (fun child => negb (Py.startswith (name child) "__")
                                     && visible_get child) (children obj);
            nd_active := true;
            nd_transform := convert_matrix (matrix_local obj) |}) ws.
Proof.
  unfold _write_base_node.
  destruct (negb (_is_ac_object (name obj)) && negb (_any_child_is_mesh obj)).
  - eexists. intros s. unfold bind, warn, ret. cbn [fst snd].
    rewrite (_write_base_node_data_spec _ _). cbn [file warnings].
    rewrite <- app_assoc. reflexivity.
  - exists []. intros s. unfold bind, ret. cbn [fst snd].
    rewrite (_write_base_node_data_spec _ _). reflexivity.
Qed.

Lemma _write_base_node_root (node_name : string) :
  appends (_write_base_node self None node_name)
    (node_record
       {| nd_name := node_name;
          nd_childCount :=
            count_if (fun obj => negb (has_parent obj)
                                 && negb (Py.startswith (name obj) "__")
                                 && visible_get obj) (objects self);
          nd_active := true;
          nd_transform := Matrix_identity |}) [].
Proof.
  intros s. unfold _write_base_node, bind, ret.
  rewrite (_write_base_node_data_spec _ _). reflexivity.
Qed.

Lemma _write_base_node_file_only (obj : option Object) (node_name : string) :
  file_only (_write_base_node self obj node_name).
Proof.
  assert (exists evs ws, appends (_write_base_node self obj node_name) evs ws)
    as (evs & ws & Happ).
  { destruct obj as [obj|].
    - destruct (_write_base_node_some obj node_name) as [ws Happ].
      eexists _, ws. exact Happ.
    - eexists _, _. exact (_write_base_node_root node_name). }
  intros s t E. rewrite (Happ s), (Happ t). split; [reflexivity|].
  cbn [snd file]. rewrite E. reflexivity.
Qed.

Lemma _write_object_file_only (obj : Object) :
  file_only (_write_object self obj).
Proof.
  induction obj as [obj IH] using Object_children_ind.
  rewrite _write_object_eq.
  destruct (negb (Py.startswith (name obj) "__") && visible_get obj);
    [|apply file_only_ret].
  apply file_only_bind.
  - destruct (type obj =? "MESH")%string.
    + apply file_only_bind; [|intros _; apply _write_mesh_node_file_only].
      destruct (children obj); [apply file_only_ret | apply file_only_raise].
    + apply _write_base_node_file_only.
  - intros _. apply file_only_for_each. intros c Hc.
    destruct (visible_get c); [|apply file_only_ret].
    exact (proj1 (Forall_forall _ _) IH c Hc).
Qed.

Lemma _write_object_not_exported (obj : Object) :
  exported obj = false -> forall s, _write_object self obj s = (Ok tt, s).
Proof.
  intros Hexp s. rewrite _write_object_eq. fold (exported obj).
  rewrite Hexp. reflexivity.
Qed.

(** The visit of an object without some children that are not exported. *)
Lemma _write_object_kept (keep : Object -> bool) (p : Object) :
  (type p =? "MESH")%string = false ->
  (forall c, In c (children p) -> keep c = false -> exported c = false) ->
  forall s,
    same_output (_write_object self p s)
      (_write_object self (with_children p (filter keep (children p))) s).
Proof.
  intros Htype Hdrop s. rewrite !_write_object_eq.
  cbn [with_children name visible_get type children]. rewrite Htype.
  destruct (negb (Py.startswith (name p) "__") && visible_get p);
    [|apply same_output_refl].
  unfold bind.
  destruct (_write_base_node_some p (name p)) as [ws Happ].
  destruct (_write_base_node_some
              (with_children p (filter keep (children p))) (name p))
    as [ws' Happ'].
  rewrite (Happ s), (Happ' s).
  cbn [with_children children matrix_local].
  rewrite count_if_kept.
  2:{ intros c Hc Hk. exact (Hdrop c Hc Hk). }
  rewrite for_each_filter.
  2:{ intros c Hc Hk s0. destruct (visible_get c); [|reflexivity].
      apply _write_object_not_exported. exact (Hdrop c Hc Hk). }
  apply file_only_for_each; [|reflexivity].
  intros c _. destruct (visible_get c); [|apply file_only_ret].
  apply _write_object_file_only.
Qed.

Lemma _write_object_with_objects (objs : list Object) (obj : Object) :
  forall s, _write_object (with_objects self objs) obj s
            = _write_object self obj s.
Proof.
  induction obj as [obj IH] using Object_children_ind.
  intros s. rewrite !_write_object_eq.
  destruct (negb (Py.startswith (name obj) "__") && visible_get obj);
    [|reflexivity].
  unfold bind at 1 3.
  change (_write_base_node (with_objects self objs) (Some obj) (name obj))
    with (_write_base_node self (Some obj) (name obj)).
  change (_write_mesh_node (with_objects self objs) obj)
    with (_write_mesh_node self obj).
  match goal with
  | |- match ?c s with _ => _ end = _ => destruct (c s) as [[[]|e] s1]
  end; [|reflexivity].
  clear s. revert s1.
  induction (children obj) as [|c cs IHcs]; intros s1; cbn [for_each];
    [reflexivity|].
  inversion IH as [|? ? Hc Hcs]; subst. unfold bind.
  assert ((if visible_get c then _write_object (with_objects self objs) c
           else ret tt) s1
          = (if visible_get c then _write_object self c else ret tt) s1) as ->
    by (destruct (visible_get c); [apply Hc | reflexivity]).
  destruct ((if visible_get c then _write_object self c else ret tt) s1)
    as [[[]|e] s2]; [apply (IHcs Hcs) | reflexivity].
Qed.

End Walk.

(** The export without some objects that have a parent or are not
    exported. *)
Lemma write_kept `{Host} (self : NodeWriter) (keep : Object -> bool) :
  (forall o, In o (objects self) -> keep o = false ->
             has_parent o = true \/ exported o = false) ->
  forall s, write self s
            = write (with_objects self (filter keep (objects self))) s.
Proof.
  intros Hdrop s. unfold write, bind.
  rewrite (_write_base_node_root self "BlenderFile" s).
  rewrite (_write_base_node_root
             (with_objects self (filter keep (objects self)))
             "BlenderFile" s).
  cbn [with_objects objects]. rewrite count_if_kept.
  2:{ intros o Ho Hk. destruct (Hdrop o Ho Hk) as [Hp|He].
      - rewrite Hp. reflexivity.
      - unfold exported in He. rewrite <- andb_assoc, He. apply andb_false_r. }
  rewrite <- filter_sorted.
  match goal with
  | |- for_each ?body ?l ?s1 = _ =>
      rewrite <- (for_each_filter body keep l)
  end.
  - assert (forall l s0,
              for_each (fun obj => if negb (has_parent obj) && visible_get obj
                                   then _write_object self obj else ret tt)
                l s0
              = for_each (fun obj => if negb (has_parent obj)
                                        && visible_get obj
                                     then _write_object
                                            (with_objects self
                                               (filter keep (objects self)))
                                            obj
                                     else ret tt) l s0) as Hsame.
    { induction l as [|x l IHl]; intros s0; cbn [for_each]; [reflexivity|].
      unfold bind. destruct (negb (has_parent x) && visible_get x).
      - rewrite _write_object_with_objects.
        destruct (_write_object self x s0) as [[[]|e] s1];
          [apply IHl | reflexivity].
      - cbn [ret]. apply IHl. }
    apply Hsame.
  - intros o Ho Hk s0. apply In_sorted in Ho.
    destruct (Hdrop o Ho Hk) as [Hp|He].
    + rewrite Hp. reflexivity.
    + destruct (negb (has_parent o) && visible_get o); [|reflexivity].
      apply _write_object_not_exported. exact He.
Qed.

(** ** C6: a mesh object with children *)

Section MeshWithChildren.
Context `{Host}.
Variable self : NodeWriter.

(** An exception of a visit is the exception of every visit that has
    arrived at it. *)
Lemma walk_raises (target anc : Object) (s s' s'' : Streams) (e : Exn) :
  walk_reaches self target anc s s' ->
  _write_object self target s' = (Raise e, s'') ->
  _write_object self anc s = (Raise e, s'').
Proof.
  intros Hwalk Hraise.
  induction Hwalk
    as [s|p c before after s s1 s' Hexp Htype Hcs Hrun Hvis Hwalk IH].
  - exact Hraise.
  - rewrite _write_object_eq. fold (exported p). rewrite Hexp, Htype, Hcs.
    unfold bind in Hrun |- *.
    destruct (_write_base_node self (Some p) (name p) s) as [[[]|e0] s0];
      [|discriminate].
    apply for_each_raises with (s1 := s1); [exact Hrun|].
    rewrite Hvis. exact (IH Hraise).
Qed.

Lemma export_raises (target : Object) (s s' s'' : Streams) (e : Exn) :
  export_reaches self target s s' ->
  _write_object self target s' = (Raise e, s'') ->
  write self s = (Raise e, s'').
Proof.
  intros (before & top & after & s1 & Hsorted & Hrun & Hparent & Hvis & Hwalk)
    Hraise.
  unfold write. rewrite Hsorted. unfold bind in Hrun |- *.
  destruct (_write_base_node self None "BlenderFile" s) as [[[]|e0] s0];
    [|discriminate].
  apply for_each_raises with (s1 := s1); [exact Hrun|].
  rewrite Hparent, Hvis. exact (walk_raises _ _ _ _ _ _ Hwalk Hraise).
Qed.

Lemma visit_ok_children (p c : Object) :
  exported p = true -> (type p =? "MESH")%string = false ->
  In c (children p) -> visit_ok self p -> visit_ok self c.
Proof.
  intros Hexp Htype Hc Hok.
  destruct p as [nm ty vis par cs ml mw dims props mesh].
  cbn [visit_ok type children] in *. specialize (Hok Hexp).
  rewrite Htype in Hok. clear Hexp Htype.
  induction cs as [|c0 cs IH]; [destruct Hc|].
  destruct Hok as [Hc0 Hcs]. destruct Hc as [->|Hc]; [exact Hc0|].
  exact (IH Hc Hcs).
Qed.

Lemma visit_ok_below (anc target : Object) :
  reached_below anc target -> visit_ok self anc -> visit_ok self target.
Proof.
  induction 1 as [obj|p c target Hexp Htype Hc Hvis Hbelow IH]; intros Hok;
    [exact Hok|].
  apply IH. exact (visit_ok_children p c Hexp Htype Hc Hok).
Qed.

Lemma visit_top_ok_iff (obj : Object) (s : Streams) :
  (exists s', (if negb (has_parent obj) && visible_get obj
               then _write_object self obj else ret tt) s = (Ok tt, s'))
  <-> (has_parent obj = false -> visible_get obj = true ->
       visit_ok self obj).
Proof.
  destruct (has_parent obj), (visible_get obj); cbn [negb andb].
  - split; [intros _ E; discriminate | intros _; exists s; reflexivity].
  - split; [intros _ E; discriminate | intros _; exists s; reflexivity].
  - rewrite _write_object_ok_iff.
    split; [intros Hok _ _; exact Hok | intros Hok; exact (Hok eq_refl eq_refl)].
  - split; [intros _ _ E; discriminate | intros _; exists s; reflexivity].
Qed.

Lemma write_ok_visits (s s' : Streams) (obj : Object) :
  write self s = (Ok tt, s') ->
  In obj (objects self) -> has_parent obj = false -> visible_get obj = true ->
  visit_ok self obj.
Proof.
  unfold write, bind. rewrite (_write_base_node_root self "BlenderFile" s).
  intros Hrun Hin Hparent Hvis.
  match type of Hrun with
  | for_each ?body ?l ?s1 = _ =>
      pose proof (proj1 (for_each_ok_iff body _ l
                           (fun o _ s0 => visit_top_ok_iff o s0) s1)
                    (ex_intro _ s' Hrun)) as Hall
  end.
  exact (proj1 (Forall_forall _ _) Hall obj (sorted_In _ _ _ Hin) Hparent Hvis).
Qed.

(** C6.  Visiting a visible, non-excluded object of type MESH that has at
    least one child raises the exception whose message names the object,
    with nothing written and no warning added.  The exception is not caught
    at any depth: every visit that has arrived at the object, and every
    export that has arrived at it, raises this exception, and the output
    stops at what had been written on arrival.  Whatever else happens, an
    export whose walk has such an object below an object without a parent
    does not end well. *)
Theorem mesh_with_children_aborts (obj : Object) :
  Py.startswith (name obj) "__" = false ->
  visible_get obj = true ->
  type obj = "MESH" ->
  children obj <> [] ->
  let e := Exception ("A mesh cannot contain children ('" ++ name obj ++ "')")%string in
  (exists before after,
     "A mesh cannot contain children ('" ++ name obj ++ "')"
     = before ++ name obj ++ after)%string /\
  aborts (_write_object self obj) e /\
  (forall anc s s',
     walk_reaches self obj anc s s' ->
     _write_object self anc s = (Raise e, s')) /\
  (forall s s',
     export_reaches self obj s s' -> write self s = (Raise e, s')) /\
  (forall top s,
     In top (objects self) -> has_parent top = false ->
     reached_below top obj ->
     exists e' s', write self s = (Raise e', s')).
Proof.
  intros Hname Hvis Htype Hchildren e.
  assert (aborts (_write_object self obj) e) as Habort.
  { intros s. rewrite _write_object_eq, Hname, Hvis, Htype. cbn [negb andb].
    rewrite String.eqb_refl.
    destruct (children obj) as [|c cs]; [congruence|]. reflexivity. }
  split; [exists "A mesh cannot contain children ('"%string, "')"%string;
          reflexivity|].
  split; [exact Habort|]. split; [|split].
  - intros anc s s' Hwalk. exact (walk_raises _ _ _ _ _ _ Hwalk (Habort s')).
  - intros s s' Hreach. exact (export_raises _ _ _ _ _ Hreach (Habort s')).
  - intros top s Hin Hparent Hbelow.
    destruct (write self s) as [[[]|e'] s'] eqn:Hrun; [exfalso|eauto].
    assert (visible_get top = true) as Htop.
    { inversion Hbelow as [|? ? ? Hexp]; subst; [exact Hvis|].
      unfold exported in Hexp. apply andb_prop in Hexp. exact (proj2 Hexp). }
    pose proof (visit_ok_below _ _ Hbelow
                  (write_ok_visits s s' top Hrun Hin Hparent Htop)) as Hok.
    destruct obj as [nm ty vis par cs ml mw dims props mesh].
    cbn [visit_ok name visible_get type children] in *.
    unfold exported in Hok. cbn [name visible_get] in Hok.
    rewrite Hname, Hvis, Htype, String.eqb_refl in Hok.
    destruct (Hok eq_refl) as [Hnone _]. exact (Hchildren Hnone).
Qed.

End MeshWithChildren.

Lemma mesh_with_children_aborts_witness :
  let seat := Demo.object "Seat" "EMPTY" (Some Matrix_identity) [] Demo.no_mesh in
  let body := Demo.object "Body" "MESH" (Some Matrix_identity) [seat]
                (Demo.triangle_mesh "Paint") in
  let chassis := Demo.object "Chassis" "EMPTY" (Some Matrix_identity)
                   [Demo.child_triangle; body] Demo.no_mesh in
  let car := Demo.object "Car" "EMPTY" None [chassis] Demo.no_mesh in
  let self := Demo.writer [car] Demo.paint in
  let e := Exception "A mesh cannot contain children ('Body')" in
  Py.startswith (name body) "__" = false /\
  visible_get body = true /\
  type body = "MESH"%string /\
  children body <> [] /\
  reached_below car body /\
  exists s',
    export_reaches self body Demo.no_output s' /\
    write self Demo.no_output = (Raise e, s') /\
    map (fun ev => match ev with Str n => n | _ => EmptyString end)
      (filter (fun ev => match ev with Str _ => true | _ => false end)
         (file s'))
    = ["BlenderFile"; "Car"; "Chassis"; "Wheel"; "Wheel"].
Proof.
  intros seat body chassis car self e.
  assert (children body <> []) as Hchildren by discriminate.
  destruct (mesh_with_children_aborts self body eq_refl eq_refl eq_refl
              Hchildren) as (_ & _ & _ & Hexport & _).
  split; [reflexivity|]. split; [reflexivity|]. split; [reflexivity|].
  split; [exact Hchildren|]. split.
  { apply below_child with (c := chassis);
      [reflexivity | reflexivity | left; reflexivity | reflexivity|].
    apply below_child with (c := body);
      [reflexivity | reflexivity | right; left; reflexivity | reflexivity|].
    apply below_here. }
  set (visit_child := fun child : Object =>
         if visible_get child then _write_object self child else ret tt).
  set (visit_top := fun obj : Object =>
         if negb (has_parent obj) && visible_get obj
         then _write_object self obj else ret tt).
  set (s1 := snd ((_write_base_node self None "BlenderFile" ;;
                   for_each visit_top [Demo.child_triangle; seat])%writer
                    Demo.no_output)).
  set (s2 := snd ((_write_base_node self (Some car) (name car) ;;
                   for_each visit_child [])%writer s1)).
  set (s3 := snd ((_write_base_node self (Some chassis) (name chassis) ;;
                   for_each visit_child [Demo.child_triangle])%writer s2)).
  assert (export_reaches self body Demo.no_output s3) as Hreach.
  { exists [Demo.child_triangle; seat], car, [body; chassis], s1.
    split; [vm_compute; reflexivity|]. split; [vm_compute; reflexivity|].
    split; [reflexivity|]. split; [reflexivity|].
    apply reaches_below with (c := chassis) (before := []) (after := [])
                             (s1 := s2);
      [reflexivity | reflexivity | reflexivity | vm_compute; reflexivity
      | reflexivity |].
    apply reaches_below with (c := body) (before := [Demo.child_triangle])
                             (after := []) (s1 := s3);
      [reflexivity | reflexivity | reflexivity | vm_compute; reflexivity
      | reflexivity |].
    apply reaches_here. }
  exists s3. split; [exact Hreach|]. split; [exact (Hexport _ _ Hreach)|].
  vm_compute. reflexivity.
Defined.

(** ** C8: excluded objects *)

Section ExcludedObjects.
Context `{Host}.
Variable self : NodeWriter.

(** C8.  An object whose name starts with the double underscore is visited
    without any effect, whatever its children are: nothing is written for
    it and its children are not visited through it.  The record of an
    object declares as many children as it has exported children, so that
    an excluded child is not counted; and the visit of an object that is
    not a mesh gives the same result and the same file as the visit of the
    object without its excluded children.  The root declares the number of
    the exported objects without a parent, and the export is the export of
    the scene without the excluded objects and without the objects that
    have a parent, which are what lies below an excluded object.  (A mesh
    raises for any child, excluded or not.) *)
Theorem excluded_object_contributes_nothing :
  (forall obj s,
     Py.startswith (name obj) "__" = true ->
     _write_object self obj s = (Ok tt, s)) /\
  (forall p node_name,
     exists ws,
       appends (_write_base_node self (Some p) node_name)
         (node_record
            {| nd_name := node_name;
               nd_childCount :=
                 Z.of_nat (length (filter exported (children p)));
               nd_active := true;
               nd_transform := convert_matrix (matrix_local p) |}) ws) /\
  (forall p keep s,
     (type p =? "MESH")%string = false ->
     forallb (fun c => keep c || Py.startswith (name c) "__") (children p)
     = true ->
     same_output (_write_object self p s)
       (_write_object self (with_children p (filter keep (children p))) s)) /\
  (forall node_name,
     appends (_write_base_node self None node_name)
       (node_record
          {| nd_name := node_name;
             nd_childCount :=
               Z.of_nat (length (filter (fun obj => negb (has_parent obj)
                                                    && exported obj)
                                   (objects self)));
             nd_active := true;
             nd_transform := Matrix_identity |}) []) /\
  (forall keep s,
     forallb (fun obj => keep obj || Py.startswith (name obj) "__"
                         || has_parent obj) (objects self) = true ->
     write self s
     = write (with_objects self (filter keep (objects self))) s).
Proof.
  split; [|split; [|split; [|split]]].
  - intros obj s Hname. apply _write_object_not_exported.
    unfold exported. rewrite Hname. reflexivity.
  - intros p node_name.
    destruct (_write_base_node_some self p node_name) as [ws Happ].
    exists ws. rewrite <- count_if_filter. exact Happ.
  - intros p keep s Htype Hkeep. apply _write_object_kept; [exact Htype|].
    intros c Hc Hk. pose proof (proj1 (forallb_forall _ _) Hkeep c Hc) as Hb.
    cbv beta in Hb. rewrite Hk in Hb. cbn [orb] in Hb. unfold exported. rewrite Hb.
    reflexivity.
  - intros node_name.
    pose proof (_write_base_node_root self node_name) as Happ.
    rewrite count_if_filter in Happ.
    erewrite filter_ext; [exact Happ|].
    intros o. unfold exported. cbv beta. rewrite andb_assoc. reflexivity.
  - intros keep s Hkeep. apply write_kept.
    intros o Ho Hk. pose proof (proj1 (forallb_forall _ _) Hkeep o Ho) as Hb.
    cbv beta in Hb. rewrite Hk in Hb. cbn [orb] in Hb. apply orb_prop in Hb.
    destruct Hb as [Hb|Hb]; [right | left; exact Hb].
    unfold exported. rewrite Hb. reflexivity.
Qed.

End ExcludedObjects.

Lemma excluded_object_contributes_nothing_witness :
  let car := Demo.object "Car" "EMPTY" None
               [Demo.child_triangle; Demo.helper_object] Demo.no_mesh in
  let self := Demo.writer [car] Demo.paint in
  let keep := fun obj : Object =>
                negb (Py.startswith (name obj) "__")
                && negb (name obj =? "Hidden")%string in
  Py.startswith (name Demo.helper_object) "__" = true /\
  children Demo.helper_object <> [] /\
  _write_object self Demo.helper_object Demo.no_output
  = (Ok tt, Demo.no_output) /\
  (type car =? "MESH")%string = false /\
  forallb (fun c => keep c || Py.startswith (name c) "__") (children car)
  = true /\
  same_output (_write_object self car Demo.no_output)
    (_write_object self (with_children car [Demo.child_triangle])
       Demo.no_output) /\
  forallb (fun obj => keep obj || Py.startswith (name obj) "__"
                      || has_parent obj) (objects self) = true /\
  write self Demo.no_output
  = write (with_objects self [car; Demo.child_triangle]) Demo.no_output.
Proof.
  intros car self keep.
  destruct (excluded_object_contributes_nothing self)
    as (Hnothing & _ & Hchildren & _ & Hobjects).
  split; [reflexivity|]. split; [discriminate|].
  split; [exact (Hnothing Demo.helper_object Demo.no_output eq_refl)|].
  split; [reflexivity|].
  assert (forallb (fun c => keep c || Py.startswith (name c) "__")
            (children car) = true) as Hc by (vm_compute; reflexivity).
  split; [exact Hc|].
  split; [exact (Hchildren car keep Demo.no_output eq_refl Hc)|].
  assert (forallb (fun obj => keep obj || Py.startswith (name obj) "__"
                              || has_parent obj) (objects self) = true) as Ho
    by (vm_compute; reflexivity).
  split; [exact Ho|].
  exact (Hobjects keep Demo.no_output Ho).
Defined.

(** * Further properties *)

(** ** The splitter on any input *)

Lemma remap_inv_in_range (d : index_dict) ni c :
  remap_inv d ni c -> Forall (fun j => j < length d) ni.
Proof.
  intros Hinv. apply Forall_forall. intros j Hj.
  assert (In (nth_error (map fst d) j) (map Some c)) as Hin
    by (rewrite <- (ri_sources _ _ _ Hinv); apply in_map; exact Hj).
  apply in_map_iff in Hin. destruct Hin as (x & Hx & _).
  rewrite <- (length_map fst). apply nth_error_Some. congruence.
Qed.

Lemma remap_inv_referenced (d : index_dict) ni c :
  remap_inv d ni c -> forall p, p < length d -> In p ni.
Proof.
  intros Hinv p Hp.
  destruct (nth_error (map fst d) p) as [k|] eqn:Hk;
    [|apply nth_error_None in Hk; rewrite length_map in Hk; lia].
  assert (In (Some k) (map (nth_error (map fst d)) ni)) as Hin.
  { rewrite (ri_sources _ _ _ Hinv). apply in_map.
    apply (ri_keys _ _ _ Hinv). exact (nth_error_In _ _ Hk). }
  apply in_map_iff in Hin. destruct Hin as (j & Hj & Hjin).
  assert (j = p) as <-; [|exact Hjin].
  apply (proj1 (NoDup_nth_error (map fst d)) (ri_nodup _ _ _ Hinv)).
  - apply nth_error_Some. congruence.
  - congruence.
Qed.

Lemma fill_group_full (limit : Z) (idx : list nat) (n : nat) :
  forall i st i' st',
    fill_group limit idx (Py.range_from n i 3) i st = Ok (i', st') ->
    (limit - 3 <= Z.of_nat (length (fst st')))%Z \/ i' = i + 3 * n.
Proof.
  induction n as [|n IH]; intros i st i' st'; cbn [Py.range_from fill_group].
  - intros [= <- <-]. right. lia.
  - destruct (remap_face (Py.slice idx i (i + 3)) st) as [st1|]; cbn [rbind];
      [|discriminate].
    destruct (Z.leb_spec (limit - 3) (Z.of_nat (length (fst st1)))) as [Hb|Hc].
    + intros [= <- <-]. left. exact Hb.
    + intros Hrun. destruct (IH _ _ _ _ Hrun) as [Hfull|Hi];
        [left; exact Hfull | right; lia].
Qed.

Lemma removelast_cons_cons {A} (x y : A) (l : list A) :
  removelast (x :: y :: l) = x :: removelast (y :: l).
Proof. reflexivity. Qed.

Section SplitAnyInput.

Variable limit : Z.
Hypothesis limit_range : (4 <= limit <= 65536)%Z.
Variable m : Mesh.
Hypothesis m_in_range : indices_in_range m = true.

Lemma m_indices_lt : Forall (fun i => i < length (vertices m)) (indices m).
Proof.
  apply Forall_forall. intros i Hi. apply Nat.ltb_lt.
  exact (proj1 (forallb_forall _ _) m_in_range i Hi).
Qed.

Lemma split_loop_groups (fuel : nat) :
  forall s0 acc,
    length (indices m) - s0 <= fuel ->
    exists news,
      split_loop limit fuel m s0 acc = Ok (acc ++ news) /\
      Forall (produced limit m) news /\
      Forall (full limit) (removelast news) /\
      (length (indices m) <= s0 <-> news = []).
Proof.
  induction fuel as [|fuel IH]; intros s0 acc Hfuel;
    cbn [split_loop]; destruct (Nat.ltb_spec s0 (length (indices m))) as [Hlt|Hge];
    try lia;
    try (exists []; rewrite app_nil_r; split; [reflexivity|];
         split; [constructor|]; split; [constructor | split; [reflexivity | lia]]).
  unfold Py.range3.
  set (n := (length (indices m) - s0 + 2) / 3).
  assert (0 < n /\ length (indices m) <= s0 + 3 * n) as [Hn Hcover].
  { pose proof (Nat.div_mod_eq (length (indices m) - s0 + 2) 3) as E.
    pose proof (Nat.mod_upper_bound (length (indices m) - s0 + 2) 3) as B.
    fold n in E. lia. }
  assert (remap_inv ([] : index_dict) [] (Py.slice (indices m) s0 s0)) as Hinit
    by (rewrite slice_nil; exact remap_inv_init).
  destruct (fill_group_spec limit (indices m) s0 n s0 [] [] (le_n _) Hinit)
    as (i' & d' & ni' & Hfill & Hinv & (k & -> & Hk & Hpos) & Hbound).
  cbv zeta. rewrite Hfill. cbn [rbind]. unfold Py.items.
  rewrite (sorted_id _ _ (compact_is_sorted _ 0 (ri_compact _ _ _ Hinv))).
  assert (Forall (fun j => j < length (vertices m)) (map fst d')) as Hkeys.
  { apply Forall_forall. intros j Hj.
    apply (ri_keys _ _ _ Hinv), slice_incl in Hj.
    exact (proj1 (Forall_forall _ _) m_indices_lt _ Hj). }
  destruct (gather_spec (vertices m) d' Hkeys) as (verts & -> & Hverts).
  cbn [rbind]. specialize (Hpos Hn).
  assert (length verts = length d') as Hlen.
  { pose proof (f_equal (@length _) Hverts) as E.
    rewrite !length_map in E. exact E. }
  destruct (IH (s0 + 3 * k) (acc ++ [mkMesh (material_id m) verts ni']))
    as (news & -> & Hnews & Hfull & Hend); [lia|].
  exists (mkMesh (material_id m) verts ni' :: news).
  split; [rewrite <- app_assoc; reflexivity|].
  assert (produced limit m (mkMesh (material_id m) verts ni')) as Hg.
  { unfold produced, indices_in_range, all_referenced.
    cbn [material_id vertices indices]. rewrite Hlen.
    split; [reflexivity|]. split; [|split].
    - apply forallb_forall. intros j Hj. apply Nat.ltb_lt.
      exact (proj1 (Forall_forall _ _) (remap_inv_in_range _ _ _ Hinv) j Hj).
    - apply forallb_forall. intros p Hp. apply in_seq in Hp.
      apply existsb_exists. exists p. split; [|apply Nat.eqb_refl].
      apply (remap_inv_referenced _ _ _ Hinv). lia.
    - cbn [length] in Hbound. lia. }
  split; [constructor; assumption|].
  split; [|split; [lia | discriminate]].
  destruct news as [|g' news]; [constructor|].
  rewrite removelast_cons_cons. constructor; [|exact Hfull].
  destruct (fill_group_full _ _ _ _ _ _ _ Hfill) as [Hf|Hi].
  - unfold full. cbn [vertices fst] in *. lia.
  - assert (g' :: news = []) by (apply (proj1 Hend); lia). discriminate.
Qed.

End SplitAnyInput.

(** The accumulator of the splitter is only a prefix of its result. *)
Lemma split_loop_acc (limit : Z) (m : Mesh) (fuel : nat) :
  forall s0 acc,
    split_loop limit fuel m s0 acc
    = (out <- split_loop limit fuel m s0 [] ;; Ok (acc ++ out))%result.
Proof.
  induction fuel as [|fuel IH]; intros s0 acc; cbn [split_loop];
    destruct (s0 <? length (indices m));
    try reflexivity; try (cbn [rbind]; rewrite app_nil_r; reflexivity).
  cbv zeta.
  destruct (fill_group _ _ _ _ _) as [[i' [d' ni']]|]; cbn [rbind];
    [|reflexivity].
  destruct (gather _ _) as [verts|]; cbn [rbind]; [|reflexivity].
  rewrite (IH i' (acc ++ _)), (IH i' ([] ++ _)).
  destruct (split_loop limit fuel m i' []); cbn [rbind]; [|reflexivity].
  rewrite <- app_assoc. reflexivity.
Qed.

Lemma split_mesh_acc (limit : Z) (m : Mesh) (acc : list Mesh) :
  split_mesh limit acc m
  = (out <- split_mesh limit [] m ;; Ok (acc ++ out))%result.
Proof.
  unfold split_mesh. destruct (Z.of_nat (length (vertices m)) >? limit)%Z.
  - apply split_loop_acc.
  - reflexivity.
Qed.

Lemma split_meshes_acc (limit : Z) (ms : list Mesh) :
  forall acc,
    split_meshes limit ms acc
    = (out <- split_meshes limit ms [] ;; Ok (acc ++ out))%result.
Proof.
  induction ms as [|m ms IH]; intros acc; cbn [split_meshes].
  - cbn [rbind]. rewrite app_nil_r. reflexivity.
  - rewrite (split_mesh_acc limit m acc).
    destruct (split_mesh limit [] m) as [o1|]; cbn [rbind]; [|reflexivity].
    rewrite (IH (acc ++ o1)), (IH o1).
    destruct (split_meshes limit ms []); cbn [rbind]; [|reflexivity].
    rewrite app_assoc. reflexivity.
Qed.

Lemma split_meshes_app (limit : Z) (ms1 ms2 : list Mesh) :
  split_meshes limit (ms1 ++ ms2) []
  = (out1 <- split_meshes limit ms1 [] ;;
     out2 <- split_meshes limit ms2 [] ;;
     Ok (out1 ++ out2))%result.
Proof.
  induction ms1 as [|m ms1 IH]; cbn [split_meshes app].
  - cbn [rbind]. destruct (split_meshes limit ms2 []); reflexivity.
  - destruct (split_mesh limit [] m) as [o1|]; cbn [rbind]; [|reflexivity].
    rewrite (split_meshes_acc limit (ms1 ++ ms2) o1), IH.
    rewrite (split_meshes_acc limit ms1 o1).
    destruct (split_meshes limit ms1 []) as [o2|]; cbn [rbind]; [|reflexivity].
    destruct (split_meshes limit ms2 []) as [o3|]; cbn [rbind]; [|reflexivity].
    rewrite app_assoc. reflexivity.
Qed.

Lemma split_mesh_any (m : Mesh) :
  indices_in_range m = true ->
  exists out,
    split_mesh (2 ^ 16) [] m = Ok out /\
    (oversize m = false -> out = [m]) /\
    (oversize m = true ->
     Forall (produced (2 ^ 16) m) out /\
     Forall (full (2 ^ 16)) (removelast out) /\
     (indices m = [] <-> out = [])).
Proof.
  intros Hm. unfold split_mesh, oversize.
  destruct (Z.of_nat (length (vertices m)) >? 2 ^ 16)%Z.
  - destruct (split_loop_groups (2 ^ 16) ltac:(lia) m Hm
                (length (indices m)) 0 []) as (news & E & Hp & Hf & He); [lia|].
    exists news. split; [exact E|]. split; [discriminate|]. intros _.
    split; [exact Hp|]. split; [exact Hf|].
    split.
    + intros Hidx. apply (proj1 He). rewrite Hidx. cbn. lia.
    + intros Hout. apply (proj2 He) in Hout.
      destruct (indices m); [reflexivity | cbn in Hout; lia].
  - exists [m]. split; [reflexivity|]. split; [reflexivity | discriminate].
Qed.

Lemma produced_checks (m g : Mesh) :
  produced (2 ^ 16) m g ->
  indices_in_range g = true /\ oversize g = false /\ ushort_indices g = true.
Proof.
  intros (_ & Hr & _ & Hlt). split; [exact Hr|]. split.
  - unfold oversize. destruct (Z.gtb_spec (Z.of_nat (length (vertices g))) (2 ^ 16));
      [lia | reflexivity].
  - unfold ushort_indices. apply forallb_forall. intros i Hi.
    apply Z.ltb_lt.
    pose proof (proj1 (forallb_forall _ _) Hr i Hi) as Hlt'.
    apply Nat.ltb_lt in Hlt'. lia.
Qed.

(** X1.  Groups of at most 65536 vertices go through the splitter as they
    are, in their order. *)
Theorem splitter_keeps_small_groups (divided_meshes : list Mesh) :
  forallb (fun g => negb (oversize g)) divided_meshes = true ->
  _split_meshes_for_vertex_limit divided_meshes = Ok divided_meshes.
Proof.
  unfold _split_meshes_for_vertex_limit.
  induction divided_meshes as [|m ms IH]; intros Hsmall; [reflexivity|].
  cbn [forallb] in Hsmall. apply andb_prop in Hsmall.
  destruct Hsmall as [Hm Hms]. cbn [split_meshes].
  unfold split_mesh. unfold oversize in Hm.
  destruct (Z.of_nat (length (vertices m)) >? 2 ^ 16)%Z; [discriminate|].
  cbn [rbind app]. rewrite split_meshes_acc, (IH Hms). reflexivity.
Qed.

Lemma splitter_keeps_small_groups_witness :
  forallb (fun g => negb (oversize g)) [Demo.small_group; Demo.ten_vertices]
  = true /\
  _split_meshes_for_vertex_limit [Demo.small_group; Demo.ten_vertices]
  = Ok [Demo.small_group; Demo.ten_vertices].
Proof.
  split; [vm_compute; reflexivity|].
  apply splitter_keeps_small_groups. vm_compute. reflexivity.
Defined.

(** What the splitter returns for groups whose indices are in range. *)
Lemma splitter_checks (divided_meshes : list Mesh) :
  forallb indices_in_range divided_meshes = true ->
  exists out,
    _split_meshes_for_vertex_limit divided_meshes = Ok out /\
    forallb indices_in_range out = true /\
    forallb (fun g => negb (oversize g)) out = true /\
    forallb ushort_indices out = true.
Proof.
  unfold _split_meshes_for_vertex_limit.
  induction divided_meshes as [|m ms IH]; intros Hrange.
  - exists []. repeat split; reflexivity.
  - cbn [forallb] in Hrange. apply andb_prop in Hrange.
    destruct Hrange as [Hm Hms].
    destruct (IH Hms) as (out2 & E2 & Hr2 & Hs2 & Hu2).
    destruct (split_mesh_any m Hm) as (out1 & E1 & Hsmall & Hbig).
    exists (out1 ++ out2). cbn [split_meshes]. rewrite E1. cbn [rbind].
    rewrite split_meshes_acc, E2. cbn [rbind].
    split; [reflexivity|]. rewrite !forallb_app, Hr2, Hs2, Hu2, !andb_true_r.
    destruct (oversize m) eqn:Ho.
    + destruct (Hbig eq_refl) as (Hp & _ & _).
      assert (forall g, In g out1 ->
                indices_in_range g = true /\ oversize g = false
                /\ ushort_indices g = true) as Hall.
      { intros g Hg. apply (produced_checks m).
        exact (proj1 (Forall_forall _ _) Hp g Hg). }
      repeat split; apply forallb_forall; intros g Hg;
        destruct (Hall g Hg) as (H1 & H2 & H3); try assumption.
      rewrite H2. reflexivity.
    + rewrite (Hsmall eq_refl). cbn [forallb]. rewrite Hm, Ho.
      rewrite !andb_true_r. repeat split; try reflexivity.
      unfold ushort_indices. apply forallb_forall. intros i Hi.
      apply Z.ltb_lt.
      pose proof (proj1 (forallb_forall _ _) Hm i Hi) as Hlt.
      apply Nat.ltb_lt in Hlt. unfold oversize in Ho.
      destruct (Z.gtb_spec (Z.of_nat (length (vertices m))) (2 ^ 16));
        [discriminate | lia].
Qed.

(** X2.  When every index of every group refers to a vertex of its group,
    the splitter does not raise, and in every group it returns the indices
    refer to vertices of that group, there are at most 65536 vertices, and
    every index can be written as an unsigned 16-bit number. *)
Theorem splitter_returns_indexed_groups (divided_meshes : list Mesh) :
  forallb indices_in_range divided_meshes = true ->
  exists out,
    _split_meshes_for_vertex_limit divided_meshes = Ok out /\
    forallb indices_in_range out = true /\
    forallb (fun g => negb (oversize g)) out = true /\
    forallb ushort_indices out = true.
Proof. exact (splitter_checks divided_meshes). Qed.

Lemma splitter_returns_indexed_groups_witness :
  forallb indices_in_range [Demo.small_group; Demo.large_group] = true /\
  exists out,
    _split_meshes_for_vertex_limit [Demo.small_group; Demo.large_group]
    = Ok out /\
    forallb indices_in_range out = true /\
    forallb (fun g => negb (oversize g)) out = true /\
    forallb ushort_indices out = true.
Proof.
  split; [vm_compute; reflexivity|].
  apply splitter_returns_indexed_groups. vm_compute. reflexivity.
Defined.

(** X3.  A group of more than 65536 vertices whose indices refer to its
    vertices is cut into sub-groups that carry its material id, have at most
    65535 vertices, and whose vertices are exactly the ones their indices
    refer to: every index is in range and every vertex is referred to. *)
Theorem oversize_group_is_repacked (m : Mesh) :
  oversize m = true ->
  indices_in_range m = true ->
  exists out,
    _split_meshes_for_vertex_limit [m] = Ok out /\
    Forall (fun g => material_id g = material_id m /\
                     indices_in_range g = true /\
                     all_referenced g = true /\
                     (Z.of_nat (length (vertices g)) <= 65535)%Z) out.
Proof.
  intros Ho Hm.
  destruct (split_mesh_any m Hm) as (out & E & _ & Hbig).
  destruct (Hbig Ho) as (Hp & _ & _).
  exists out. unfold _split_meshes_for_vertex_limit. cbn [split_meshes].
  rewrite E. cbn [rbind]. split; [reflexivity|].
  eapply Forall_impl; [|exact Hp].
  intros g (H1 & H2 & H3 & H4). repeat split; try assumption. lia.
Qed.

Lemma oversize_group_is_repacked_witness :
  oversize Demo.large_group = true /\
  indices_in_range Demo.large_group = true /\
  exists out,
    _split_meshes_for_vertex_limit [Demo.large_group] = Ok out /\
    Forall (fun g => material_id g = material_id Demo.large_group /\
                     indices_in_range g = true /\
                     all_referenced g = true /\
                     (Z.of_nat (length (vertices g)) <= 65535)%Z) out.
Proof.
  split; [vm_compute; reflexivity|]. split; [vm_compute; reflexivity|].
  apply oversize_group_is_repacked; vm_compute; reflexivity.
Defined.

(** X4.  Of the sub-groups that a group of more than 65536 vertices is cut
    into, every one but the last holds at least 65533 vertices; and no
    sub-group is returned exactly when the group has no index at all, in
    which case its vertices are dropped. *)
Theorem oversize_group_fills_subgroups (m : Mesh) :
  oversize m = true ->
  indices_in_range m = true ->
  exists out,
    _split_meshes_for_vertex_limit [m] = Ok out /\
    Forall (fun g => (65533 <= Z.of_nat (length (vertices g)))%Z)
      (removelast out) /\
    (indices m = [] <-> out = []).
Proof.
  intros Ho Hm.
  destruct (split_mesh_any m Hm) as (out & E & _ & Hbig).
  destruct (Hbig Ho) as (_ & Hf & He).
  exists out. unfold _split_meshes_for_vertex_limit. cbn [split_meshes].
  rewrite E. cbn [rbind]. split; [reflexivity|]. split; [|exact He].
  eapply Forall_impl; [|exact Hf]. intros g Hg. unfold full in Hg. lia.
Qed.

Lemma oversize_group_fills_subgroups_witness :
  let m := {| material_id := Some 7%Z;
              vertices := Demo.points_from (Z.to_nat 65537) 0;
              indices := [] |} in
  oversize m = true /\
  indices_in_range m = true /\
  exists out,
    _split_meshes_for_vertex_limit [m] = Ok out /\
    Forall (fun g => (65533 <= Z.of_nat (length (vertices g)))%Z)
      (removelast out) /\
    (indices m = [] <-> out = []).
Proof.
  intros m. split; [vm_compute; reflexivity|]. split; [reflexivity|].
  apply oversize_group_fills_subgroups; vm_compute; reflexivity.
Defined.

(** X5.  The splitter works group by group: the result for a concatenation
    of two lists of groups is the concatenation of the results, and it
    raises the exception of the first list that raises. *)
Theorem splitter_distributes (ms1 ms2 : list Mesh) :
  _split_meshes_for_vertex_limit (ms1 ++ ms2)
  = (out1 <- _split_meshes_for_vertex_limit ms1 ;;
     out2 <- _split_meshes_for_vertex_limit ms2 ;;
     Ok (out1 ++ out2))%result.
Proof. apply split_meshes_app. Qed.

(** The closing of full sub-groups, seen with a limit of 7: the first two
    sub-groups are closed with at least 4 vertices. *)
Example full_subgroups_with_limit_7 :
  exists news,
    split_loop 7 (length (indices Demo.ten_vertices)) Demo.ten_vertices 0 []
    = Ok ([] ++ news) /\
    Forall (full 7) (removelast news) /\ length news = 3.
Proof.
  destruct (split_loop_groups 7 ltac:(lia) Demo.ten_vertices eq_refl
              (length (indices Demo.ten_vertices)) 0 [] (le_n _))
    as (news & E & _ & Hf & _).
  exists news. split; [exact E|]. split; [exact Hf|].
  assert (option_map (@length Mesh)
            (match split_loop 7 (length (indices Demo.ten_vertices))
                     Demo.ten_vertices 0 [] with
             | Ok l => Some l | Raise _ => None end) = Some 3) as Hl
    by (vm_compute; reflexivity).
  rewrite E in Hl. cbn in Hl. congruence.
Qed.

(** ** What the grouping step returns *)

Lemma wind_map {A B} (f : A -> B) (face : list A) :
  wind (map f face) = map f (wind face).
Proof.
  destruct face as [|a [|b [|c [|d [|e rest]]]]]; reflexivity.
Qed.

Lemma Forall2_wind {A B} (R : A -> B -> Prop) (l : list A) (l' : list B) :
  Forall2 R l l' -> Forall2 R (wind l) (wind l').
Proof.
  intros H.
  destruct H as [|a a' ? ? Ha H]; [constructor|].
  destruct H as [|b b' ? ? Hb H]; [constructor|].
  destruct H as [|c c' ? ? Hc H]; [constructor|].
  destruct H as [|d d' ? ? Hd H]; cbn [wind app].
  - repeat constructor; assumption.
  - destruct H; cbn [app]; repeat constructor; assumption.
Qed.

Lemma extend_indices_wind (idx fi idx' : list nat) :
  extend_indices idx fi = Ok idx' -> idx' = idx ++ wind fi.
Proof.
  unfold extend_indices, Py.getitem.
  destruct fi as [|a [|b [|c rest]]]; cbn [nth_error rbind]; try discriminate.
  destruct rest as [|d [|e rest]]; cbn [length Nat.eqb nth_error rbind wind app].
  - intros [= <-]. reflexivity.
  - intros [= <-]. rewrite <- app_assoc. reflexivity.
  - intros [= <-]. reflexivity.
Qed.

Section GroupingProofs.
Context `{Host}.

Lemma same_vertex_keq (a b : UvVertex) :
  same_vertex a b -> UvVertex_keq a b = true.
Proof.
  intros (Hc & Hn & Hu).
  rewrite <- (UvVertex_keq_same_identity a b Hc Hn Hu a).
  apply UvVertex_keq_refl.
Qed.

Lemma dict_get_none_all {K V} (keq : K -> K -> bool) (d : Py.dict K V) k :
  Py.get keq d k = None -> Forall (fun k' => keq k' k = false) (map fst d).
Proof.
  induction d as [|[k' v'] d IH]; cbn [Py.get map fst]; [constructor|].
  destruct (keq k' k) eqn:E; [discriminate|].
  intros Hg. constructor; [exact E | exact (IH Hg)].
Qed.

Lemma stands_for_app (buffer more : list UvVertex) (i : nat) (v : UvVertex) :
  stands_for buffer i v -> stands_for (buffer ++ more) i v.
Proof.
  intros (k & Hk & Hs). exists k. split; [|exact Hs].
  rewrite nth_error_app1; [exact Hk|]. apply nth_error_Some. congruence.
Qed.

Lemma grouping_inv_step (d : vertex_dict) (idx : list nat)
    (soup : list UvVertex) (v : UvVertex) :
  grouping_inv (d, idx) soup ->
  exists added,
    fst (lookup_or_add d v) = d ++ added /\
    grouping_inv (fst (lookup_or_add d v), idx) soup /\
    stands_for (map fst (fst (lookup_or_add d v))) (snd (lookup_or_add d v)) v.
Proof.
  intros (Hc & Hd & Hs). cbn [fst snd] in *. unfold lookup_or_add.
  destruct (Py.get UvVertex_keq d v) as [i|] eqn:Hget; cbn [fst snd].
  - exists []. rewrite app_nil_r. split; [reflexivity|].
    split; [split; [exact Hc|]; split; assumption|].
    destruct (dict_get_nth _ _ _ _ Hget) as (p & k & Hp & Hk).
    destruct (compact_value_is_position d p k i Hc Hp) as [-> _].
    exists k. split; [rewrite nth_error_map, Hp; reflexivity|].
    exact Hk.
  - exists [(v, length d)]. split; [reflexivity|].
    pose proof (dict_get_none_all _ _ _ Hget) as Hnone.
    split; [split; [apply compact_app; exact Hc|]; split|].
    + cbn [fst]. rewrite map_app. cbn [map fst]. intros p q a b Hpq Ha Hb.
      assert (q < length (map fst d ++ [v]))
        by (apply nth_error_Some; congruence).
      rewrite length_app in *. cbn [length] in *.
      destruct (Nat.lt_ge_cases q (length (map fst d))) as [Hq|Hq].
      * rewrite nth_error_app1 in Ha, Hb by lia. exact (Hd p q a b Hpq Ha Hb).
      * assert (q = length (map fst d)) as -> by lia.
        rewrite nth_error_app1 in Ha by lia.
        rewrite nth_error_app2, Nat.sub_diag in Hb by lia.
        injection Hb as <-.
        exact (proj1 (Forall_forall _ _) Hnone a (nth_error_In _ _ Ha)).
    + cbn [fst snd]. rewrite map_app.
      eapply Forall2_impl; [|exact Hs]. intros i w. apply stands_for_app.
    + exists v. rewrite map_app. cbn [map fst]. split.
      * rewrite nth_error_app2; rewrite length_map; [|lia].
        rewrite Nat.sub_diag. reflexivity.
      * apply UvVertex_keq_refl.
Qed.

Lemma Forall2_snoc {A B} (R : A -> B -> Prop) l l' x y :
  Forall2 R l l' -> R x y -> Forall2 R (l ++ [x]) (l' ++ [y]).
Proof.
  intros Hl Hxy. apply Forall2_app; [exact Hl|]. constructor; [exact Hxy|].
  constructor.
Qed.

(** The loop over the loops of a triangle. *)
Lemma face_loop_corners (obj : Object) (mesh_copy : BlenderMesh) (mi : nat)
    (ls : list nat) :
  forall d fi soup st,
    grouping_inv (d, fi) soup ->
    Py.rfold (fun st loop_index =>
                (vertex <- loop_vertex obj mesh_copy mi loop_index ;;
                 add_vertex st vertex)%result) ls (d, fi) = Ok st ->
    exists face new added,
      Forall2 (fun l v => loop_vertex obj mesh_copy mi l = Ok v) ls face /\
      fst st = d ++ added /\ snd st = fi ++ new /\
      grouping_inv st (soup ++ face).
Proof.
  induction ls as [|l ls IH]; intros d fi soup st Hinv; cbn [Py.rfold].
  - intros [= <-]. exists [], [], []. rewrite !app_nil_r.
    split; [constructor|]. repeat split; try reflexivity; apply Hinv.
  - destruct (loop_vertex obj mesh_copy mi l) as [v|] eqn:Hv; cbn [rbind];
      [|discriminate].
    rewrite add_vertex_spec. cbn [rbind]. intros Hrun.
    destruct (grouping_inv_step d fi soup v Hinv) as (added1 & Hd1 & Hinv1 & Hsf).
    assert (grouping_inv (fst (lookup_or_add d v),
                          fi ++ [snd (lookup_or_add d v)]) (soup ++ [v]))
      as Hinv2.
    { destruct Hinv1 as (Hc1 & Hdist1 & Hs1). cbn [fst snd] in *.
      split; [exact Hc1|]. split; [exact Hdist1|].
      apply Forall2_snoc; assumption. }
    destruct (IH _ _ _ _ Hinv2 Hrun)
      as (face & new & added2 & Hface & Hd2 & Hnew & Hinv3).
    exists (v :: face), (snd (lookup_or_add d v) :: new), (added1 ++ added2).
    split; [constructor; assumption|].
    split; [rewrite Hd2, Hd1, app_assoc; reflexivity|].
    split; [rewrite Hnew, <- app_assoc; reflexivity|].
    rewrite <- app_assoc in Hinv3. exact Hinv3.
Qed.

(** The body of the loop over the triangles. *)
Lemma triangle_step_soup (obj : Object) (mesh_copy : BlenderMesh) (mi : nat)
    (st st' : vertex_dict * list nat) (soup : list UvVertex)
    (triangle : LoopTriangle) :
  grouping_inv st soup ->
  triangle_step obj mesh_copy mi st triangle = Ok st' ->
  if mi =? material_index triangle then
    exists face,
      corners obj mesh_copy mi triangle face /\
      grouping_inv st' (soup ++ wind face)
  else st' = st.
Proof.
  intros Hinv. unfold triangle_step.
  destruct (mi =? material_index triangle); cbn [negb];
    [|intros [= <-]; reflexivity].
  destruct st as [d idx]. unfold face_loop.
  destruct (Py.rfold _ (loops triangle) (d, [])) as [[d' fi]|] eqn:Hloop;
    cbn [rbind]; [|discriminate].
  destruct (extend_indices idx fi) as [idx'|] eqn:Hext; cbn [rbind];
    [|discriminate].
  intros [= <-]. apply extend_indices_wind in Hext. subst idx'.
  assert (grouping_inv (d, []) []) as Hinit.
  { destruct Hinv as (Hc & Hdist & _). split; [exact Hc|].
    split; [exact Hdist | constructor]. }
  destruct (face_loop_corners _ _ _ _ _ _ _ _ Hinit Hloop)
    as (face & new & added & Hface & Hd' & Hnew & Hinv').
  cbn [fst snd app] in *. subst d' fi.
  exists face. split; [exact Hface|].
  destruct Hinv as (_ & _ & Hs). destruct Hinv' as (Hc' & Hdist' & Hs').
  cbn [fst snd] in *.
  split; [exact Hc'|]. split; [exact Hdist'|]. cbn [fst snd].
  apply Forall2_app.
  - rewrite map_app. eapply Forall2_impl; [|exact Hs].
    intros i w. apply stands_for_app.
  - apply Forall2_wind. exact Hs'.
Qed.

Lemma triangles_soup (obj : Object) (mesh_copy : BlenderMesh) (mi : nat)
    (ts : list LoopTriangle) :
  forall st st' soup,
    grouping_inv st soup ->
    Py.rfold (triangle_step obj mesh_copy mi) ts st = Ok st' ->
    exists faces,
      Forall2 (corners obj mesh_copy mi)
        (filter (fun t => mi =? material_index t) ts) faces /\
      grouping_inv st' (soup ++ flat_map wind faces).
Proof.
  induction ts as [|t ts IH]; intros st st' soup Hinv; cbn [Py.rfold filter].
  - intros [= <-]. exists []. rewrite app_nil_r.
    split; [constructor | exact Hinv].
  - destruct (triangle_step obj mesh_copy mi st t) as [st1|] eqn:Hstep;
      cbn [rbind]; [|discriminate].
    intros Hrun. pose proof (triangle_step_soup _ _ _ _ _ _ _ Hinv Hstep) as Ht.
    destruct (mi =? material_index t).
    + destruct Ht as (face & Hface & Hinv1).
      destruct (IH _ _ _ Hinv1 Hrun) as (faces & Hfaces & Hinv2).
      exists (face :: faces). split; [constructor; assumption|].
      cbn [flat_map]. rewrite app_assoc. exact Hinv2.
    + subst st1. exact (IH _ _ _ Hinv Hrun).
Qed.

Lemma rfold_collect {A B} (f : list B -> A -> Result (list B))
    (P : A -> B -> Prop) (l : list A) :
  (forall b x b', f b x = Ok b' -> exists y, b' = b ++ [y] /\ P x y) ->
  forall b b', Py.rfold f l b = Ok b' ->
    exists ys, b' = b ++ ys /\ Forall2 P l ys.
Proof.
  intros Hstep. induction l as [|x l IH]; intros b b'; cbn [Py.rfold].
  - intros [= <-]. exists []. rewrite app_nil_r. split; [reflexivity|constructor].
  - destruct (f b x) as [b1|] eqn:Hf; cbn [rbind]; [|discriminate].
    intros Hrun. destruct (Hstep _ _ _ Hf) as (y & -> & Hy).
    destruct (IH _ _ Hrun) as (ys & -> & Hys).
    exists (y :: ys). rewrite <- app_assoc. split; [reflexivity|].
    constructor; assumption.
Qed.

Variable self : NodeWriter.

Lemma material_group_spec (obj : Object) (meshes meshes' : list Mesh)
    (mi : nat) :
  material_group self obj (evaluated_mesh obj) meshes mi = Ok meshes' ->
  exists g, meshes' = meshes ++ [g] /\ group_of self obj mi g.
Proof.
  unfold material_group, Py.getitem.
  destruct (nth_error (materials (evaluated_mesh obj)) mi) as [[material|]|]
    eqn:Hslot; cbn [rbind]; try discriminate.
  destruct (Py.startswith (material_name material) "__") eqn:Hname;
    [discriminate|].
  destruct (Py.rfold _ _ _) as [[d idx]|] eqn:Hfold; cbn [rbind];
    [|discriminate].
  unfold material_position.
  destruct (Py.get String.eqb (material_positions self) (material_name material))
    as [id|] eqn:Hid; cbn [rbind]; [|discriminate].
  intros [= <-]. eexists. split; [reflexivity|].
  assert (grouping_inv (([] : vertex_dict), ([] : list nat)) []) as Hinit.
  { split; [reflexivity|]. split; [|constructor].
    intros p q a b _ Ha. destruct p; discriminate. }
  destruct (triangles_soup _ _ _ _ _ _ _ Hinit Hfold)
    as (faces & Hfaces & Hc & Hdist & Hs).
  cbn [fst snd app] in *.
  unfold group_of. cbn [material_id vertices indices].
  rewrite (vertex_buffer_compact d Hc).
  split; [exists material; repeat split; try assumption; discriminate|].
  split.
  - intros p q a b Hpq Ha Hb Hsame.
    pose proof (Hdist p q a b Hpq Ha Hb) as Hne.
    rewrite (same_vertex_keq a b Hsame) in Hne. discriminate.
  - exists faces. split; [exact Hfaces | exact Hs].
Qed.

Lemma grouping_groups (obj : Object) (ms : list Mesh) :
  _split_object_by_materials self obj = Ok ms ->
  materials (evaluated_mesh obj) <> [] /\
  Forall2 (group_of self obj)
    (set_iter (map material_index (mesh_triangles (evaluated_mesh obj))))
    ms.
Proof.
  intros Hrun. apply _split_object_by_materials_ok in Hrun.
  destruct Hrun as (_ & Hm & Hrun). split; [exact Hm|].
  destruct (rfold_collect _ (group_of self obj) _
              (fun b x b' => material_group_spec obj b b' x) _ _ Hrun)
    as (ys & -> & Hys).
  exact Hys.
Qed.

End GroupingProofs.

Lemma Forall2_Forall_r {A B} (R : A -> B -> Prop) (P : B -> Prop)
    (l : list A) (l' : list B) :
  (forall x y, R x y -> P y) -> Forall2 R l l' -> Forall P l'.
Proof.
  intros HRP HF. induction HF as [|x y l l' Hxy _ IH]; constructor;
    [exact (HRP x y Hxy) | exact IH].
Qed.

Section GroupingExtras.
Context `{Host}.
Variable self : NodeWriter.

(** X6.  When the grouping step returns, the mesh has material slots and
    there is exactly one group per material slot used by a triangle, in the
    order in which the set of the used slots is iterated, whatever that
    order is: the slot holds a material, its name does not start with the
    double underscore, it is known to the material resolver, and the group
    carries the id the resolver gives it.  A mesh without triangles gives
    no group. *)
Theorem grouping_one_group_per_material (obj : Object) (ms : list Mesh) :
  _split_object_by_materials self obj = Ok ms ->
  let used_materials :=
    set_iter (map material_index (mesh_triangles (evaluated_mesh obj))) in
  materials (evaluated_mesh obj) <> [] /\
  (mesh_triangles (evaluated_mesh obj) = [] -> ms = []) /\
  NoDup used_materials /\
  (forall mi, In mi used_materials <->
              exists t, In t (mesh_triangles (evaluated_mesh obj)) /\
                        material_index t = mi) /\
  Forall2
    (fun mi g =>
       exists material,
         nth_error (materials (evaluated_mesh obj)) mi = Some (Some material) /\
         Py.startswith (material_name material) "__" = false /\
         Py.get String.eqb (material_positions self) (material_name material)
         = material_id g /\
         material_id g <> None)
    used_materials ms.
Proof.
  intros Hrun used_materials.
  destruct (grouping_groups self obj ms Hrun) as [Hm Hg].
  fold used_materials in Hg.
  split; [exact Hm|]. split; [|split; [|split]].
  - intros Ht. subst used_materials. rewrite Ht in Hg. cbn [map] in Hg.
    destruct (set_iter []) as [|mi l] eqn:E; [inversion Hg; reflexivity|].
    exfalso.
    apply (proj1 (set_iter_In [] mi)). rewrite E. left. reflexivity.
  - apply set_iter_NoDup.
  - intros mi. unfold used_materials. rewrite set_iter_In, in_map_iff.
    split; intros (t & H1 & H2); exists t; split; assumption.
  - eapply Forall2_impl; [|exact Hg]. intros mi g (Hmat & _). exact Hmat.
Qed.

(** X7.  The indices of every group stand for the corners of the triangles
    of its material slot, triangle after triangle in the order of the mesh:
    a triangle with the loops (A, B, C) contributes three indices, which
    refer to the vertices of the buffer that the dictionary holds for the
    vertices computed for the loops B, C and A. *)
Theorem grouping_keeps_triangles (obj : Object) (ms : list Mesh) :
  _split_object_by_materials self obj = Ok ms ->
  Forall2
    (fun mi g =>
       exists faces,
         Forall2 (corners obj (evaluated_mesh obj) mi)
           (triangles_of (evaluated_mesh obj) mi) faces /\
         Forall2 (stands_for (vertices g)) (indices g) (flat_map wind faces))
    (set_iter (map material_index (mesh_triangles (evaluated_mesh obj))))
    ms.
Proof.
  intros Hrun. destruct (grouping_groups self obj ms Hrun) as [_ Hg].
  eapply Forall2_impl; [|exact Hg]. intros mi g (_ & _ & Hfaces). exact Hfaces.
Qed.

(** X8.  No two vertices of the vertex buffer of a group have the same
    position, normal and UV: deduplication is complete. *)
Theorem grouping_buffer_without_duplicates (obj : Object) (ms : list Mesh) :
  _split_object_by_materials self obj = Ok ms ->
  Forall (fun g =>
            forall p q a b,
              p < q -> nth_error (vertices g) p = Some a ->
              nth_error (vertices g) q = Some b -> ~ same_vertex a b) ms.
Proof.
  intros Hrun. destruct (grouping_groups self obj ms Hrun) as [_ Hg].
  refine (Forall2_Forall_r _ _ _ _ _ Hg).
  intros mi g (_ & Hdist & _). exact Hdist.
Qed.

(** X9.  An exception of the grouping step is the exception of the visit of
    the object, and nothing of the object is written before it: no wrapping
    node, no mesh record, no warning. *)
Theorem grouping_error_leaves_no_record (obj : Object) (e : Exn) :
  _split_object_by_materials self obj = Raise e ->
  aborts (_write_mesh_node self obj) e /\
  (Py.startswith (name obj) "__" = false -> visible_get obj = true ->
   type obj = "MESH"%string -> children obj = [] ->
   aborts (_write_object self obj) e).
Proof.
  intros Hrun.
  assert (aborts (_write_mesh_node self obj) e) as Hnode.
  { intros s. unfold _write_mesh_node, bind, lift. rewrite Hrun. reflexivity. }
  split; [exact Hnode|].
  intros Hname Hvis Htype Hchildren s.
  rewrite _write_object_eq, Hname, Hvis, Htype, Hchildren, String.eqb_refl.
  cbn [negb andb]. unfold bind at 1. unfold bind at 1. cbn [ret].
  rewrite (Hnode s). reflexivity.
Qed.

End GroupingExtras.

Lemma grouping_one_group_per_material_witness :
  let self := Demo.writer [Demo.two_materials] Demo.palette in
  let obj := Demo.two_materials in
  let ms := Demo.value [] (_split_object_by_materials self obj) in
  _split_object_by_materials self obj = Ok ms /\
  map material_index (mesh_triangles (evaluated_mesh obj)) = [1; 0] /\
  map material_id ms = [Some 4%Z; Some 9%Z] /\
  Forall2
    (fun mi g =>
       exists material,
         nth_error (materials (evaluated_mesh obj)) mi = Some (Some material) /\
         Py.startswith (material_name material) "__" = false /\
         Py.get String.eqb (material_positions self) (material_name material)
         = material_id g /\
         material_id g <> None)
    (set_iter (map material_index (mesh_triangles (evaluated_mesh obj)))) ms.
Proof.
  intros self obj ms.
  assert (_split_object_by_materials self obj = Ok ms) as Hrun
    by (vm_compute; reflexivity).
  split; [exact Hrun|]. split; [reflexivity|].
  split; [vm_compute; reflexivity|].
  exact (proj2 (proj2 (proj2 (proj2
           (grouping_one_group_per_material self obj ms Hrun))))).
Defined.

Lemma grouping_keeps_triangles_witness :
  let self := Demo.writer [Demo.two_materials] Demo.palette in
  let obj := Demo.two_materials in
  let ms := Demo.value [] (_split_object_by_materials self obj) in
  _split_object_by_materials self obj = Ok ms /\
  map material_index (mesh_triangles (evaluated_mesh obj)) = [1; 0] /\
  map indices ms = [[1; 2; 0]; [1; 2; 0]] /\
  Forall2
    (fun mi g =>
       exists faces,
         Forall2 (corners obj (evaluated_mesh obj) mi)
           (triangles_of (evaluated_mesh obj) mi) faces /\
         Forall2 (stands_for (vertices g)) (indices g) (flat_map wind faces))
    (set_iter (map material_index (mesh_triangles (evaluated_mesh obj))))
    ms.
Proof.
  intros self obj ms.
  assert (_split_object_by_materials self obj = Ok ms) as Hrun
    by (vm_compute; reflexivity).
  split; [exact Hrun|]. split; [reflexivity|].
  split; [vm_compute; reflexivity|].
  exact (grouping_keeps_triangles self obj ms Hrun).
Defined.

Lemma grouping_buffer_without_duplicates_witness :
  let self := Demo.writer [Demo.quad_object] Demo.paint in
  let obj := Demo.quad_object in
  let ms := Demo.value [] (_split_object_by_materials self obj) in
  _split_object_by_materials self obj = Ok ms /\
  Forall (fun g =>
            forall p q a b,
              p < q -> nth_error (vertices g) p = Some a ->
              nth_error (vertices g) q = Some b -> ~ same_vertex a b) ms.
Proof.
  intros self obj ms.
  assert (_split_object_by_materials self obj = Ok ms) as Hrun
    by (vm_compute; reflexivity).
  split; [exact Hrun|].
  exact (grouping_buffer_without_duplicates self obj ms Hrun).
Defined.

Lemma grouping_error_leaves_no_record_witness :
  let obj :=
    Demo.object "Bare" "MESH" None []
      {| mesh_vertices := mesh_vertices (Demo.triangle_mesh "Paint");
         mesh_loops := mesh_loops (Demo.triangle_mesh "Paint");
         mesh_triangles := mesh_triangles (Demo.triangle_mesh "Paint");
         uv_layer := uv_layer (Demo.triangle_mesh "Paint");
         materials := [] |} in
  let self := Demo.writer [obj] Demo.paint in
  let e := Exception "Object 'Bare' has no material assigned" in
  _split_object_by_materials self obj = Raise e /\
  aborts (_write_mesh_node self obj) e /\
  aborts (_write_object self obj) e.
Proof.
  intros obj self e.
  assert (_split_object_by_materials self obj = Raise e) as Hrun
    by reflexivity.
  destruct (grouping_error_leaves_no_record self obj e Hrun) as [Hn Ho].
  split; [exact Hrun|]. split; [exact Hn|].
  apply Ho; reflexivity.
Defined.

(** ** Meshes without UV data *)




Section UvData.
Context `{Host}.
Variable self : NodeWriter.




End UvData.


(** ** The vertex limit of a mesh record *)

Lemma str_of_limit : Py.str (2 ^ 16) = "65536"%string.
Proof. vm_compute. reflexivity. Qed.

(** X11.  [_write_mesh] refuses a group of more than 65536 vertices, but
    only after it has written the first seven fields of the record: the
    exception leaves the class tag, the name, the child count and the four
    flags in the file. *)
Theorem write_mesh_rejects_oversize (obj : Object) (mesh : Mesh)
    (props : NodeProperties) (s : Streams) :
  oversize mesh = true ->
  _write_mesh obj mesh props s =
  (Raise (Exception ("Only 65536 vertices per mesh allowed. ('" ++
                     name obj ++ "')")%string),
   appended s [Uint 2; Str (name obj); Uint 0; Bool true;
               Bool (castShadows props); Bool (visible props);
               Bool (transparent props)]).
Proof.
  unfold oversize. intros Hbig. unfold _write_mesh.
  rewrite Hbig, str_of_limit.
  unfold bind, _write_node_class, write_uint, write_string, write_bool, emit,
    raise, appended.
  cbn. rewrite <- !app_assoc. reflexivity.
Qed.

Lemma write_mesh_rejects_oversize_witness :
  oversize Demo.large_group = true /\
  fst (_write_mesh Demo.triangle_object Demo.large_group
         (NodeProperties_init Demo.triangle_object) Demo.no_output)
  = Raise (Exception "Only 65536 vertices per mesh allowed. ('Tri')").
Proof.
  split; [vm_compute; reflexivity|].
  rewrite write_mesh_rejects_oversize by (vm_compute; reflexivity).
  reflexivity.
Defined.

Section MeshNodeTotal.
Context `{Host}.
Variable self : NodeWriter.

(** X12.  Once the grouping step has returned, writing the mesh node can
    only fail on a parent whose world matrix has no inverse: the splitter
    does not raise on what the grouping step returns, and the vertex limit
    of [_write_mesh] is never hit.  Without such a parent the visit appends
    its records and does not raise. *)
Theorem mesh_node_after_grouping (obj : Object) (ms : list Mesh) :
  _split_object_by_materials self obj = Ok ms ->
  (forall parent_matrix_world,
     parent obj = Some parent_matrix_world ->
     matrix_inverted parent_matrix_world <> None) ->
  exists divided evs ws,
    _split_meshes_for_vertex_limit ms = Ok divided /\
    forallb (fun g => negb (oversize g)) divided = true /\
    appends (_write_mesh_node self obj) evs ws.
Proof.
  intros Hms Hinv.
  destruct (splitter_after_grouping self obj ms Hms) as (parts & Hdiv & _).
  set (divided := map fst (concat parts)) in *.
  pose proof (_split_meshes_for_vertex_limit_fits _ _ Hdiv) as Hfits.
  exists divided.
  assert (exists transform,
            match parent obj with
            | Some parent_matrix_world =>
                option_map convert_matrix (matrix_inverted parent_matrix_world)
            | None => Some Matrix_identity
            end = Some transform) as [transform Htransform].
  { destruct (parent obj) as [pm|] eqn:Hp; [|eexists; reflexivity].
    destruct (matrix_inverted pm) as [inv|] eqn:Hi;
      [eexists; reflexivity | exfalso; exact (Hinv pm eq_refl Hi)]. }
  eexists _, _. split; [exact Hdiv|]. split.
  - apply forallb_forall. intros g Hg.
    pose proof (proj1 (Forall_forall _ _) Hfits g Hg) as Hfit.
    unfold fits in Hfit. unfold oversize.
    destruct (Z.gtb_spec (Z.of_nat (length (vertices g))) (2 ^ 16));
      [lia | reflexivity].
  - exact (_write_mesh_node_spec self obj ms divided transform
             Hms Hdiv Htransform).
Qed.

End MeshNodeTotal.

Lemma mesh_node_after_grouping_witness :
  let self := Demo.writer [Demo.quad_object] Demo.paint in
  let obj := Demo.quad_object in
  let ms := Demo.value [] (_split_object_by_materials self obj) in
  _split_object_by_materials self obj = Ok ms /\
  parent obj = None /\
  exists divided evs ws,
    _split_meshes_for_vertex_limit ms = Ok divided /\
    forallb (fun g => negb (oversize g)) divided = true /\
    appends (_write_mesh_node self obj) evs ws.
Proof.
  intros self obj ms.
  assert (_split_object_by_materials self obj = Ok ms) as Hrun
    by (vm_compute; reflexivity).
  split; [exact Hrun|]. split; [reflexivity|].
  apply (mesh_node_after_grouping self obj ms Hrun).
  intros pm Hp. discriminate.
Defined.

(** ** C2: the child counts of an export that ends well *)

Section Accounting.
Context `{Host}.
Variable self : NodeWriter.

Lemma triangle_step_indices (obj : Object) (mesh_copy : BlenderMesh) (mi : nat)
    (st st' : vertex_dict * list nat) (triangle : LoopTriangle) :
  fst st = [] \/ snd st <> [] ->
  triangle_step obj mesh_copy mi st triangle = Ok st' ->
  fst st' = [] \/ snd st' <> [].
Proof.
  intros Hst. unfold triangle_step.
  destruct (negb (mi =? material_index triangle)); [intros [= <-]; exact Hst|].
  destruct st as [d idx].
  destruct (face_loop obj mesh_copy mi triangle d) as [[d' fi]|];
    cbn [rbind]; [|discriminate].
  unfold extend_indices.
  destruct (Py.getitem fi 1) as [f1|]; cbn [rbind]; [|discriminate].
  destruct (Py.getitem fi 2) as [f2|]; cbn [rbind]; [|discriminate].
  destruct (Py.getitem fi 0) as [f0|]; cbn [rbind]; [|discriminate].
  destruct (length fi =? 4).
  - destruct (Py.getitem fi 3) as [f3|]; cbn [rbind]; [|discriminate].
    intros [= <-]. right. cbn [snd]. destruct idx; discriminate.
  - intros [= <-]. right. cbn [snd]. destruct idx; discriminate.
Qed.

(** A group with vertices has indices. *)
Lemma grouping_groups_have_indices (obj : Object) (ms : list Mesh) :
  _split_object_by_materials self obj = Ok ms ->
  Forall (fun g => vertices g = [] \/ indices g <> []) ms.
Proof.
  intros Hrun. apply _split_object_by_materials_ok in Hrun.
  destruct Hrun as (_ & _ & Hrun). revert Hrun.
  apply rfold_invariant; [|constructor].
  intros meshes mi meshes' Hmeshes. unfold material_group.
  destruct (Py.getitem _ mi) as [[material|]|]; cbn [rbind]; try discriminate.
  destruct (Py.startswith _ _); [discriminate|].
  destruct (Py.rfold _ _ _) as [[d idx]|] eqn:Hfold; cbn [rbind];
    [|discriminate].
  destruct (material_position self _); cbn [rbind]; [|discriminate].
  intros [= <-]. apply Forall_app. split; [exact Hmeshes|].
  constructor; [|constructor]. cbn [vertices indices].
  assert (fst (d, idx) = [] \/ snd (d, idx) <> []) as Hst.
  { refine (rfold_invariant _ (fun st => fst st = [] \/ snd st <> [])
              _ _ _ _ _ Hfold).
    - intros b x b'. apply triangle_step_indices.
    - left. reflexivity. }
  cbn [fst snd] in Hst. destruct Hst as [->|Hidx];
    [left; reflexivity | right; exact Hidx].
Qed.

(** A mesh with a triangle is never written as zero groups. *)
Lemma groups_of_mesh_with_faces (obj : Object) :
  mesh_triangles (evaluated_mesh obj) <> [] -> groups_of self obj <> Ok [].
Proof.
  intros Hfaces Hgroups. unfold groups_of in Hgroups.
  destruct (_split_object_by_materials self obj) as [ms|] eqn:Hms;
    cbn [rbind] in Hgroups; [|discriminate].
  destruct (grouping_groups self obj ms Hms) as [_ Hg].
  pose proof (grouping_yields_wf self obj ms Hms) as Hwf.
  pose proof (grouping_groups_have_indices obj ms Hms) as Hidx.
  destruct (mesh_triangles (evaluated_mesh obj)) as [|t ts]; [contradiction|].
  destruct ms as [|g ms].
  { inversion Hg as [Hused|].
    pose proof (proj2 (set_iter_In (map material_index (t :: ts))
                         (material_index t)) (or_introl eq_refl)) as Hin.
    cbn [map] in Hin, Hused. rewrite <- Hused in Hin. destruct Hin. }
  cbn [forallb] in Hwf. apply andb_prop in Hwf. destruct Hwf as [Hwf _].
  unfold mesh_wf in Hwf. apply andb_prop in Hwf. destruct Hwf as [_ Hrange].
  destruct (split_mesh_any g Hrange) as (out & E & Hsmall & Hbig).
  unfold _split_meshes_for_vertex_limit in Hgroups.
  cbn [split_meshes] in Hgroups. rewrite E in Hgroups. cbn [rbind] in Hgroups.
  rewrite split_meshes_acc in Hgroups.
  destruct (split_meshes (2 ^ 16) ms []) as [rest|]; cbn [rbind] in Hgroups;
    [|discriminate].
  injection Hgroups as Hnil. apply app_eq_nil in Hnil. destruct Hnil as [-> _].
  destruct (oversize g) eqn:Ho.
  - destruct (Hbig eq_refl) as (_ & _ & Hempty).
    pose proof (proj2 Hempty eq_refl) as Hnone.
    inversion Hidx as [|g' ms' [Hv|Hi] _]; subst.
    + unfold oversize in Ho. rewrite Hv in Ho. discriminate.
    + exact (Hi Hnone).
  - specialize (Hsmall eq_refl). discriminate.
Qed.

Lemma faces_no_empty_mesh (obj : Object) :
  meshes_have_faces obj = true -> no_empty_mesh self obj.
Proof.
  induction obj as [obj IH] using Object_children_ind.
  destruct obj as [nm ty vis par cs ml mw dims props mesh].
  cbn [meshes_have_faces no_empty_mesh children evaluated_mesh type parent]
    in *.
  intros Hfaces. apply andb_prop in Hfaces. destruct Hfaces as [Hself Hkids].
  split.
  - intros Hexp Htype Hpar. apply groups_of_mesh_with_faces.
    cbn [evaluated_mesh]. rewrite Hexp, Htype in Hself.
    unfold has_parent in Hself. cbn [parent] in Hself. rewrite Hpar in Hself.
    cbn [andb negb] in Hself.
    destruct (mesh_triangles mesh); [discriminate | discriminate].
  - clear Hself. induction cs as [|c cs IHcs]; [exact I|].
    cbn [forallb] in Hkids. apply andb_prop in Hkids.
    destruct Hkids as [Hc Hcs]. inversion IH as [|c' cs' Pc Pcs]; subst.
    split; [exact (Pc Hc) | exact (IHcs Pcs Hcs)].
Qed.

Lemma consistent_no_empty_mesh (obj : Object) :
  meshes_consistent obj = true -> no_empty_mesh self obj.
Proof.
  induction obj as [obj IH] using Object_children_ind.
  destruct obj as [nm ty vis par cs ml mw dims props mesh].
  cbn [meshes_consistent no_empty_mesh children evaluated_mesh type parent]
    in *.
  intros Hcons. apply andb_prop in Hcons. destruct Hcons as [Hself Hkids].
  split.
  - intros _ _ _ Hgroups.
    refine (groups_of_mesh_with_faces _ _ Hgroups). cbn [evaluated_mesh].
    unfold groups_of in Hgroups.
    destruct (_split_object_by_materials self _) as [ms|] eqn:Hms;
      [|discriminate].
    apply _split_object_by_materials_ok in Hms. destruct Hms as (Ht & _).
    destruct (calc_tangents_uv _ Ht) as (uv & data & Huv).
    cbn [evaluated_mesh] in Huv. unfold uv_on_faces in Hself.
    rewrite Huv in Hself.
    destruct (mesh_triangles mesh); [discriminate | discriminate].
  - clear Hself. induction cs as [|c cs IHcs]; [exact I|].
    cbn [forallb] in Hkids. apply andb_prop in Hkids.
    destruct Hkids as [Hc Hcs]. inversion IH as [|c' cs' Pc Pcs]; subst.
    split; [exact (Pc Hc) | exact (IHcs Pcs Hcs)].
Qed.

(** C2.  In the file of an export that ends well, the child count of every
    node record is the number of the records that follow as its children:
    the file is one root node, and every node of it, at every depth, is
    followed by exactly as many child nodes as it declares, a mesh record
    by none.  The meshes are Blender meshes: one that has UV data has a
    face.  (A mesh without UV data does not get past the tangents, so that
    no mesh object is written as no record at all.) *)
Theorem declared_child_counts_hold (s' : Streams) (ws : list string) :
  forallb meshes_consistent (objects self) = true ->
  write self {| file := []; warnings := ws |} = (Ok tt, s') ->
  Nodes 1 (file s') /\ child_counts_hold (file s') = true.
Proof.
  intros Hcons Hrun.
  destruct (child_counts_hold_otherwise self _ _
              (fun obj Hin => consistent_no_empty_mesh obj
                                (proj1 (forallb_forall _ _) Hcons obj Hin))
              Hrun)
    as (evs & Hfile & Hnodes & Hcounts).
  cbn [file app] in Hfile. rewrite Hfile. split; [exact Hnodes|].
  rewrite <- Hfile. exact (Hcounts eq_refl).
Qed.

(** X13.  When every exported mesh object without a parent has at least one
    triangle, an export that ends well has written a well-formed hierarchy:
    one root node, and every node of the file is followed by exactly as
    many child nodes as it declares. *)
Theorem child_counts_hold_with_faces (s' : Streams) (ws : list string) :
  forallb meshes_have_faces (objects self) = true ->
  write self {| file := []; warnings := ws |} = (Ok tt, s') ->
  Nodes 1 (file s') /\ child_counts_hold (file s') = true.
Proof.
  intros Hfaces Hrun.
  destruct (child_counts_hold_otherwise self _ _
              (fun obj Hin => faces_no_empty_mesh obj
                                (proj1 (forallb_forall _ _) Hfaces obj Hin))
              Hrun)
    as (evs & Hfile & Hnodes & Hcounts).
  cbn [file app] in Hfile. rewrite Hfile. split; [exact Hnodes|].
  rewrite <- Hfile. exact (Hcounts eq_refl).
Qed.

End Accounting.

Lemma child_counts_hold_with_faces_witness :
  let car := Demo.object "Car" "EMPTY" None
               [Demo.child_triangle; Demo.helper_object] Demo.no_mesh in
  let self := Demo.writer [car; Demo.quad_object] Demo.paint in
  let s' := snd (write self Demo.no_output) in
  forallb meshes_have_faces (objects self) = true /\
  write self Demo.no_output = (Ok tt, s') /\
  child_counts_hold (file s') = true.
Proof.
  intros car self s'.
  assert (forallb meshes_have_faces (objects self) = true) as Hfaces
    by (vm_compute; reflexivity).
  assert (write self Demo.no_output = (Ok tt, s')) as Hrun
    by (vm_compute; reflexivity).
  split; [exact Hfaces|]. split; [exact Hrun|].
  exact (proj2 (child_counts_hold_with_faces self s' [] Hfaces Hrun)).
Defined.

Lemma declared_child_counts_hold_witness :
  let car := Demo.object "Car" "EMPTY" None
               [Demo.child_triangle; Demo.helper_object] Demo.no_mesh in
  let self := Demo.writer [car; Demo.two_materials] Demo.palette in
  let s' := snd (write self Demo.no_output) in
  forallb meshes_consistent (objects self) = true /\
  write self Demo.no_output = (Ok tt, s') /\
  Nodes 1 (file s') /\
  child_counts_hold (file s') = true.
Proof.
  intros car self s'.
  assert (forallb meshes_consistent (objects self) = true) as Hcons
    by (vm_compute; reflexivity).
  assert (write self Demo.no_output = (Ok tt, s')) as Hrun
    by (vm_compute; reflexivity).
  split; [exact Hcons|]. split; [exact Hrun|].
  exact (declared_child_counts_hold self s' [] Hcons Hrun).
Defined.

(** ** The bounding sphere and the vertices *)

Ltac qc_to_q :=
  unfold Qcle, Qclt, Qcminus, Qcplus, Qcmult, Qcopp, Z2Qc in *;
  cbn [this Q2Qc] in *;
  rewrite ?Qred_correct in *.

Lemma Qc_eq_Qeq (a b : Qc) : a = b -> (this a == this b)%Q.
Proof. intros ->. reflexivity. Qed.

Lemma axis_in_sphere_Q (lo hi x h M : Q) :
  (lo <= x -> x <= hi -> h * 2 == hi - lo -> h <= M ->
   (x - (lo + h)) * (x - (lo + h)) <= M * M)%Q.
Proof.
  intros H1 H2 H3 H4.
  assert (0 <= h)%Q by lra.
  assert (- h <= x - (lo + h) <= h)%Q as [Ha Hb] by lra.
  nra.
Qed.

Lemma axis_in_sphere (lo hi x M : Qc) :
  (lo <= x -> x <= hi -> (hi - lo) / Z2Qc 2 <= M ->
   (x - (lo + (hi - lo) / Z2Qc 2)) * (x - (lo + (hi - lo) / Z2Qc 2))
   <= M * M)%Qc.
Proof.
  intros H1 H2 H4.
  pose proof (Qc_eq_Qeq _ _ (half_double (hi - lo)%Qc)) as H3.
  set (h := ((hi - lo) / Z2Qc 2)%Qc) in *. clearbody h.
  qc_to_q.
  exact (axis_in_sphere_Q _ _ _ _ _ H1 H2 H3 H4).
Qed.

Lemma sum_in_sphere (a b c M : Qc) :
  (a <= M * M -> b <= M * M -> c <= M * M ->
   a + b + c <= M * Z2Qc 2 * (M * Z2Qc 2))%Qc.
Proof.
  intros Ha Hb Hc. qc_to_q.
  change (inject_Z 2) with 2%Q. nra.
Qed.

Lemma max3_upper (a b c : Qc) :
  (a <= Py.max3 Qc_ltb a b c /\ b <= Py.max3 Qc_ltb a b c /\
   c <= Py.max3 Qc_ltb a b c)%Qc.
Proof.
  unfold Py.max3.
  destruct (Qc_ltb_spec a b) as [Hab|Hab];
    [destruct (Qc_ltb_spec b c) as [Hc|Hc] | destruct (Qc_ltb_spec a c) as [Hc|Hc]];
    repeat split;
    eauto using Qcle_refl, Qclt_le_weak, Qcnot_lt_le, Qcle_trans, Qclt_trans.
Qed.

Lemma axis_bounds (f : vec3 -> Qc) (vs : list UvVertex) (w : UvVertex)
    (lo hi : Qc) :
  In w vs ->
  (smallest lo (axis f vs) <= f (co w) /\
   f (co w) <= largest hi (axis f vs))%Qc.
Proof.
  intros Hw.
  assert (In (f (co w)) (axis f vs)) as Hin
    by (unfold axis; apply in_map_iff; exists w; split; [reflexivity | exact Hw]).
  split.
  - destruct (smallest_is_minimum (axis f vs) lo) as [_ Hall].
    exact (proj1 (Forall_forall _ _) Hall _ (or_intror Hin)).
  - destruct (largest_is_maximum (axis f vs) hi) as [_ Hall].
    exact (proj1 (Forall_forall _ _) Hall _ (or_intror Hin)).
Qed.

Lemma half_extent_nonnegative (lo hi x : Qc) :
  (lo <= x -> x <= hi -> Z2Qc 0 <= (hi - lo) / Z2Qc 2)%Qc.
Proof.
  intros H1 H2.
  pose proof (Qc_eq_Qeq _ _ (half_double (hi - lo)%Qc)) as H3.
  set (h := ((hi - lo) / Z2Qc 2)%Qc) in *. clearbody h.
  qc_to_q.
  change (inject_Z 0) with 0%Q. change (inject_Z 2) with 2%Q in H3. lra.
Qed.

(** X14.  Every vertex of a group lies in the sphere that is written for
    it, whatever the coordinates are (in exact arithmetic): the square of
    its distance to the centre is at most the square of the radius, and the
    radius of a non-empty group is not negative. *)
Theorem bounding_sphere_contains_vertices (vertices : list UvVertex)
    (vertex : UvVertex) :
  In vertex vertices ->
  (Z2Qc 0 <= snd (bounding_sphere vertices))%Qc /\
  (sq_distance (co vertex) (fst (bounding_sphere vertices))
   <= snd (bounding_sphere vertices) * snd (bounding_sphere vertices))%Qc.
Proof.
  intros Hw. unfold bounding_sphere. rewrite fold_bounds.
  cbn [fst snd max_x max_y max_z min_x min_y min_z]. cbv zeta.
  destruct (axis_bounds v3_0 vertices vertex (min_x Bounds_init)
              (max_x Bounds_init) Hw) as [Hx1 Hx2].
  destruct (axis_bounds v3_1 vertices vertex (min_y Bounds_init)
              (max_y Bounds_init) Hw) as [Hy1 Hy2].
  destruct (axis_bounds v3_2 vertices vertex (min_z Bounds_init)
              (max_z Bounds_init) Hw) as [Hz1 Hz2].
  set (lx := smallest _ (axis v3_0 vertices)) in *.
  set (hx := largest _ (axis v3_0 vertices)) in *.
  set (ly := smallest _ (axis v3_1 vertices)) in *.
  set (hy := largest _ (axis v3_1 vertices)) in *.
  set (lz := smallest _ (axis v3_2 vertices)) in *.
  set (hz := largest _ (axis v3_2 vertices)) in *.
  destruct (max3_upper ((hx - lx) / Z2Qc 2) ((hy - ly) / Z2Qc 2)
              ((hz - lz) / Z2Qc 2)) as (Mx & My & Mz).
  set (M := Py.max3 Qc_ltb _ _ _) in *.
  split.
  - pose proof (half_extent_nonnegative _ _ _ Hx1 Hx2) as Hh.
    pose proof (Qcle_trans _ _ _ Hh Mx) as HM.
    replace (Z2Qc 0) with (Z2Qc 0 * Z2Qc 2)%Qc by (apply Qc_is_canon; reflexivity).
    apply Qcmult_le_compat_r; [exact HM | apply Qclt_le_weak, two_positive].
  - unfold sq_distance. cbn [v3_0 v3_1 v3_2 fst snd].
    apply sum_in_sphere; apply axis_in_sphere; assumption.
Qed.

Lemma bounding_sphere_contains_vertices_witness :
  In Demo.far_vertex [Demo.far_vertex] /\
  (sq_distance (co Demo.far_vertex) (fst (bounding_sphere [Demo.far_vertex]))
   <= snd (bounding_sphere [Demo.far_vertex])
      * snd (bounding_sphere [Demo.far_vertex]))%Qc.
Proof.
  split; [left; reflexivity|].
  apply (bounding_sphere_contains_vertices [Demo.far_vertex] Demo.far_vertex).
  left. reflexivity.
Defined.

(** ** Hidden objects *)

Section HiddenObjects.
Context `{Host}.
Variable self : NodeWriter.

(** X15.  An object that is not visible in the view layer is visited
    without any effect, whatever its children are: nothing is written for
    it, and its children are not visited through it even when they are
    visible.  The visit of an object that is not a mesh gives the same
    result and the same file, child count included, as the visit of the
    object without its hidden children; and the export, root record
    included, is the export of the scene without the hidden objects. *)
Theorem hidden_object_contributes_nothing :
  (forall obj s,
     visible_get obj = false -> _write_object self obj s = (Ok tt, s)) /\
  (forall p keep s,
     (type p =? "MESH")%string = false ->
     forallb (fun c => keep c || negb (visible_get c)) (children p) = true ->
     same_output (_write_object self p s)
       (_write_object self (with_children p (filter keep (children p))) s)) /\
  (forall keep s,
     forallb (fun obj => keep obj || negb (visible_get obj)) (objects self)
     = true ->
     write self s
     = write (with_objects self (filter keep (objects self))) s).
Proof.
  assert (forall o : Object, negb (visible_get o) = true -> exported o = false)
    as Hhidden.
  { intros o Ho. unfold exported. apply negb_true_iff in Ho. rewrite Ho.
    apply andb_false_r. }
  split; [|split].
  - intros obj s Hvis. apply _write_object_not_exported. apply Hhidden.
    rewrite Hvis. reflexivity.
  - intros p keep s Htype Hkeep. apply _write_object_kept; [exact Htype|].
    intros c Hc Hk. pose proof (proj1 (forallb_forall _ _) Hkeep c Hc) as Hb.
    cbv beta in Hb. rewrite Hk in Hb. exact (Hhidden c Hb).
  - intros keep s Hkeep. apply write_kept.
    intros o Ho Hk. pose proof (proj1 (forallb_forall _ _) Hkeep o Ho) as Hb.
    cbv beta in Hb. rewrite Hk in Hb. right. exact (Hhidden o Hb).
Qed.

(** ** The warning of a generic node *)

Lemma _any_child_is_mesh_descendants (obj : Object) :
  _any_child_is_mesh obj = existsb is_mesh_or_curve (descendants obj).
Proof.
  induction obj as [obj IH] using Object_children_ind.
  destruct obj as [nm ty vis par cs ml mw dims props mesh].
  cbn [_any_child_is_mesh descendants children] in *.
  induction cs as [|c cs IHcs]; [reflexivity|].
  inversion IH as [|c' cs' Pc Pcs]; subst.
  cbn [existsb]. rewrite (IHcs Pcs), Pc, existsb_app.
  unfold is_mesh_or_curve.
  destruct (type c =? "MESH")%string, (type c =? "CURVE")%string,
    (existsb _ (descendants c)); reflexivity.
Qed.

(** X16.  Writing the generic node of an object never fails, and what goes
    to the file does not depend on the warning.  The warning is added
    exactly when the name of the object is none of the known Assetto Corsa
    objects and no object below it, at any depth, hidden and excluded ones
    included, is a mesh or a curve.  Its second line is the same for every
    object: the placeholder [{obj.name}] is written as it stands. *)
Theorem base_node_warning (obj : Object) (node_name : string) :
  appends (_write_base_node self (Some obj) node_name)
    (node_record
       {| nd_name := node_name;
          nd_childCount :=
            count_if (fun child => negb (Py.startswith (name child) "__")
                                   && visible_get child) (children obj);
          nd_active := true;
          nd_transform := convert_matrix (matrix_local obj) |})
    (if _is_ac_object (name obj)
        || existsb is_mesh_or_curve (descendants obj)
     then []
     else [unknown_object_warning (name obj)]).
Proof.
  intros s. unfold _write_base_node.
  rewrite <- _any_child_is_mesh_descendants.
  destruct (_is_ac_object (name obj)); cbn [negb andb orb].
  - unfold bind, ret. cbn [fst snd].
    rewrite (_write_base_node_data_spec _ _). cbn [file warnings].
    rewrite app_nil_r. reflexivity.
  - destruct (_any_child_is_mesh obj); cbn [negb].
    + unfold bind, ret. cbn [fst snd].
      rewrite (_write_base_node_data_spec _ _). cbn [file warnings].
      rewrite app_nil_r. reflexivity.
    + unfold bind, warn, ret. cbn [fst snd].
      rewrite (_write_base_node_data_spec _ _). cbn [file warnings].
      rewrite app_nil_r. reflexivity.
Qed.

End HiddenObjects.

Lemma hidden_object_contributes_nothing_witness :
  let spare :=
    {| name := "Spare"; type := "EMPTY"; visible_get := false;
       parent := None; children := [Demo.child_triangle];
       matrix_local := Matrix_identity; matrix_world := Matrix_identity;
       dimensions := (Z2Qc 1, Z2Qc 1, Z2Qc 1);
       ac_properties := None; evaluated_mesh := Demo.no_mesh |} in
  let self :=
    {| objects := [spare; Demo.triangle_object]; node_settings := [];
       material_positions := Demo.paint |} in
  visible_get spare = false /\
  _write_object self spare Demo.no_output = (Ok tt, Demo.no_output) /\
  forallb (fun obj => visible_get obj || negb (visible_get obj))
    (objects self) = true /\
  write self Demo.no_output
  = write (with_objects self [Demo.triangle_object]) Demo.no_output.
Proof.
  intros spare self.
  destruct (hidden_object_contributes_nothing self)
    as (Hnothing & _ & Hobjects).
  split; [reflexivity|].
  split; [exact (Hnothing spare Demo.no_output eq_refl)|].
  assert (forallb (fun obj => visible_get obj || negb (visible_get obj))
            (objects self) = true) as Ho by reflexivity.
  split; [exact Ho|].
  exact (Hobjects visible_get Demo.no_output Ho).
Defined.

(** ** The properties of a mesh node *)

Lemma fold_or_else {A} (l : list (option A)) : forall default : A,
  fold_left (fun a o => or_else o a) l default
  = or_else (last_given l) default.
Proof.
  induction l as [|o l IH]; intros default; [reflexivity|].
  cbn [fold_left last_given]. rewrite IH.
  destruct (last_given l); [reflexivity|]. destruct o; reflexivity.
Qed.

Lemma fold_apply_overrides (os : list NodeOverrides) :
  forall p : NodeProperties,
    fold_left (fun p o => apply_overrides o p) os p =
    {| lodIn := fold_left (fun a o => or_else o a) (map o_lodIn os) (lodIn p);
       lodOut := fold_left (fun a o => or_else o a) (map o_lodOut os) (lodOut p);
       layer := fold_left (fun a o => or_else o a) (map o_layer os) (layer p);
       castShadows := fold_left (fun a o => or_else o a) (map o_castShadows os)
                        (castShadows p);
       visible := fold_left (fun a o => or_else o a) (map o_visible os)
                    (visible p);
       transparent := fold_left (fun a o => or_else o a) (map o_transparent os)
                        (transparent p);
       renderable := fold_left (fun a o => or_else o a) (map o_renderable os)
                       (renderable p) |}.
Proof.
  induction os as [|o os IH]; intros p.
  - destruct p. reflexivity.
  - cbn [fold_left map]. rewrite IH. reflexivity.
Qed.

Lemma fold_settings (nss : list NodeSettings) : forall p : NodeProperties,
  fold_left (fun node_properties node_setting =>
               apply_settings_to_node node_setting node_properties) nss p
  = fold_left (fun p o => apply_overrides o p) (map settings nss) p.
Proof.
  induction nss as [|ns nss IH]; intros p; [reflexivity|].
  cbn [fold_left map]. rewrite IH. reflexivity.
Qed.

Lemma node_properties_of_overrides (self : NodeWriter) (obj : Object) :
  node_properties_of self obj =
  fold_left (fun p o => apply_overrides o p) (overrides_of self obj)
    {| lodIn := Z2Qc 0; lodOut := Z2Qc 1000; layer := 0%Z;
       castShadows := true; visible := true; transparent := false;
       renderable := true |}.
Proof.
  unfold node_properties_of, overrides_of, NodeProperties_init.
  rewrite fold_settings, fold_left_app.
  destruct (ac_properties obj); reflexivity.
Qed.

(** X17.  Every attribute of the properties a mesh node is written with is
    the one given last in the chain made of the [ac_properties] of the
    object and of the settings of every node key, in their order, and the
    default (0, 1000, 0, true, true, false, true) when none gives it.  The
    pattern of a node key is never matched against the name of the object:
    the settings of every node key apply to every mesh, and two writers
    whose node keys carry the same settings write the same properties. *)
Theorem node_properties_last_setting_wins (self : NodeWriter) (obj : Object) :
  let chain := overrides_of self obj in
  let p := node_properties_of self obj in
  (lodIn p = or_else (last_given (map o_lodIn chain)) (Z2Qc 0) /\
   lodOut p = or_else (last_given (map o_lodOut chain)) (Z2Qc 1000) /\
   layer p = or_else (last_given (map o_layer chain)) 0%Z /\
   castShadows p = or_else (last_given (map o_castShadows chain)) true /\
   visible p = or_else (last_given (map o_visible chain)) true /\
   transparent p = or_else (last_given (map o_transparent chain)) false /\
   renderable p = or_else (last_given (map o_renderable chain)) true) /\
  (forall (other : NodeWriter) (obj' : Object),
     map settings (node_settings other) = map settings (node_settings self) ->
     ac_properties obj' = ac_properties obj ->
     node_properties_of other obj' = p).
Proof.
  intros chain p. subst chain p. split.
  - rewrite node_properties_of_overrides, fold_apply_overrides.
    cbn [lodIn lodOut layer castShadows visible transparent renderable].
    rewrite !fold_or_else. repeat split; reflexivity.
  - intros other obj' Hsettings Hprops.
    rewrite !node_properties_of_overrides. unfold overrides_of.
    rewrite Hsettings, Hprops. reflexivity.
Qed.

Lemma node_properties_last_setting_wins_witness :
  let nothing := mkNodeOverrides None None None None None None None in
  let hide := mkNodeOverrides None None None None (Some false) None None in
  let show := mkNodeOverrides None None (Some 3%Z) None (Some true) None None in
  let self :=
    {| objects := [Demo.triangle_object];
       node_settings := [mkNodeSettings "Wheel.*" hide;
                         mkNodeSettings "Glass" show;
                         mkNodeSettings "Door" nothing];
       material_positions := Demo.paint |} in
  let other :=
    {| objects := [Demo.quad_object];
       node_settings := [mkNodeSettings "A" hide; mkNodeSettings "B" show;
                         mkNodeSettings "C" nothing];
       material_positions := Demo.paint |} in
  map settings (node_settings other) = map settings (node_settings self) /\
  ac_properties Demo.quad_object = ac_properties Demo.triangle_object /\
  node_properties_of other Demo.quad_object
  = node_properties_of self Demo.triangle_object /\
  visible (node_properties_of self Demo.triangle_object) = true /\
  layer (node_properties_of self Demo.triangle_object) = 3%Z.
Proof.
  intros nothing hide show self other.
  split; [reflexivity|]. split; [reflexivity|]. split.
  - apply (proj2 (node_properties_last_setting_wins self Demo.triangle_object)
             other Demo.quad_object); reflexivity.
  - destruct (proj1 (node_properties_last_setting_wins self
                       Demo.triangle_object))
      as (_ & _ & Hlayer & _ & Hvisible & _).
    split; [exact Hvisible | exact Hlayer].
Defined.

(** ** When the export ends well *)

Section ExportEndsWellTheorem.
Context `{Host}.
Variable self : NodeWriter.

(** X19.  The export ends well exactly when the visit of every object
    without a parent meets none of three obstacles: among the exported
    objects that the walk reaches, no mesh object has children, the
    grouping step of every mesh object returns, and the world matrix of the
    parent of every mesh object has an inverse.  Nothing else in the
    module raises: not the vertex limit, not the bounding sphere, not the
    lookup of the class tags. *)
Theorem export_ends_well_iff (s : Streams) :
  (exists s', write self s = (Ok tt, s')) <->
  (forall obj, In obj (objects self) -> has_parent obj = false ->
               visit_ok self obj).
Proof.
  unfold write, bind.
  destruct (_write_base_node_spec self None "BlenderFile")
    as (nd & ws & Happ & _).
  rewrite (Happ s).
  rewrite (for_each_ok_iff _
             (fun obj => has_parent obj = false -> visit_ok self obj)).
  - rewrite Forall_forall. split.
    + intros Hall obj Hin. apply Hall, sorted_In. exact Hin.
    + intros Hall obj Hin. apply Hall. exact (In_sorted _ _ _ Hin).
  - intros obj _ s1. destruct (has_parent obj); cbn [negb andb].
    + split; [intros _ E; discriminate | intros _; exists s1; reflexivity].
    + destruct (visible_get obj) eqn:Hv.
      * rewrite _write_object_ok_iff.
        split; [intros Hok _; exact Hok | intros Hok; exact (Hok eq_refl)].
      * split; [intros _ _; apply visit_ok_not_exported; unfold exported;
                rewrite Hv; apply andb_false_r
               | intros _; exists s1; reflexivity].
Qed.

End ExportEndsWellTheorem.

Lemma export_ends_well_iff_witness :
  let car := Demo.object "Car" "EMPTY" None
               [Demo.child_triangle; Demo.helper_object] Demo.no_mesh in
  let self := Demo.writer [car; Demo.quad_object] Demo.paint in
  (exists s', write self Demo.no_output = (Ok tt, s')) /\
  visit_ok self car.
Proof.
  intros car self.
  assert (exists s', write self Demo.no_output = (Ok tt, s')) as Hrun
    by (exists (snd (write self Demo.no_output)); vm_compute; reflexivity).
  split; [exact Hrun|].
  apply (proj1 (export_ends_well_iff self Demo.no_output) Hrun car);
    [left; reflexivity | reflexivity].
Defined.

(** ** When the grouping step returns *)

Lemma rfold_ok_iff {A B} (f : B -> A -> Result B) (Q : A -> Prop)
    (l : list A) :
  (forall x, In x l -> forall b, (exists b', f b x = Ok b') <-> Q x) ->
  forall b, (exists b', Py.rfold f l b = Ok b') <-> Forall Q l.
Proof.
  induction l as [|x l IH]; intros Hf b; cbn [Py.rfold].
  - split; [constructor | intros _; exists b; reflexivity].
  - pose proof (Hf x (or_introl eq_refl) b) as Hx.
    specialize (IH (fun y Hy => Hf y (or_intror Hy))).
    destruct (f b x) as [b1|e]; cbn [rbind].
    + rewrite IH. split.
      * intros Hl. constructor; [apply Hx; exists b1; reflexivity | exact Hl].
      * intros Hall. inversion Hall. assumption.
    + split.
      * intros [b' E]. discriminate.
      * intros Hall. inversion Hall as [|? ? Hq _]; subst.
        apply Hx in Hq. destruct Hq as [b' E]. discriminate.
Qed.

Lemma extend_indices_ok_iff (indices face_indices : list nat) :
  (exists indices', extend_indices indices face_indices = Ok indices')
  <-> 3 <= length face_indices.
Proof.
  unfold extend_indices, Py.getitem.
  destruct face_indices as [|f0 [|f1 [|f2 [|f3 [|f4 rest]]]]];
    cbn [nth_error rbind length Nat.eqb];
    try (split; [intros [i E]; discriminate | lia]);
    (split; [intros _; lia | intros _; eexists; reflexivity]).
Qed.

Section GroupingEndsWell.
Context `{Host}.
Variable self : NodeWriter.

Lemma loop_vertex_ok_iff (obj : Object) (mesh_copy : BlenderMesh)
    (data : list vec2) (mi loop_index : nat) :
  uv_layer mesh_copy = Some data ->
  (exists v, loop_vertex obj mesh_copy mi loop_index = Ok v)
  <-> loop_ok mesh_copy loop_index = true.
Proof.
  intros Hmi. unfold loop_vertex, loop_ok, Py.getitem.
  destruct (nth_error (mesh_loops mesh_copy) loop_index) as [loop|];
    cbn [rbind]; [|split; [intros [v E]; discriminate | discriminate]].
  destruct (nth_error (mesh_vertices mesh_copy) (vertex_index loop))
    as [vertex_co|];
    cbn [rbind]; [|split; [intros [v E]; discriminate | discriminate]].
  rewrite Hmi.
  destruct (nth_error data loop_index) as [uv|] eqn:Huv; cbn [rbind].
  - split; [|intros _; eexists; reflexivity].
    intros _. apply Nat.ltb_lt, nth_error_Some. congruence.
  - split; [intros [v E]; discriminate|].
    intros Hlt. apply Nat.ltb_lt, nth_error_Some in Hlt. congruence.
Qed.

Lemma loop_step_ok_iff (obj : Object) (mesh_copy : BlenderMesh)
    (data : list vec2) (mi loop_index : nat) (st : vertex_dict * list nat) :
  uv_layer mesh_copy = Some data ->
  (exists st', (vertex <- loop_vertex obj mesh_copy mi loop_index ;;
                add_vertex st vertex)%result = Ok st')
  <-> loop_ok mesh_copy loop_index = true.
Proof.
  intros Hmi.
  rewrite <- (loop_vertex_ok_iff obj mesh_copy data mi loop_index Hmi).
  destruct st as [d fi].
  destruct (loop_vertex obj mesh_copy mi loop_index) as [v|e]; cbn [rbind].
  - rewrite add_vertex_spec. split; intros _; eexists; reflexivity.
  - split; intros [x E]; discriminate.
Qed.

Lemma face_loop_length (obj : Object) (mesh_copy : BlenderMesh) (mi : nat)
    (ls : list nat) :
  forall d fi st,
    Py.rfold (fun st loop_index =>
                (vertex <- loop_vertex obj mesh_copy mi loop_index ;;
                 add_vertex st vertex)%result) ls (d, fi) = Ok st ->
    length (snd st) = length fi + length ls.
Proof.
  induction ls as [|l ls IH]; intros d fi st; cbn [Py.rfold].
  - intros [= <-]. cbn [snd length]. lia.
  - destruct (loop_vertex obj mesh_copy mi l) as [v|]; cbn [rbind];
      [|discriminate].
    rewrite add_vertex_spec. cbn [rbind]. intros Hrun.
    rewrite (IH _ _ _ Hrun), length_app. cbn [length]. lia.
Qed.

Lemma triangle_step_ok_iff (obj : Object) (mesh_copy : BlenderMesh)
    (data : list vec2) (mi : nat) (triangle : LoopTriangle)
    (st : vertex_dict * list nat) :
  uv_layer mesh_copy = Some data ->
  (exists st', triangle_step obj mesh_copy mi st triangle = Ok st')
  <-> (mi = material_index triangle ->
       triangle_ok mesh_copy triangle = true).
Proof.
  intros Hmi. unfold triangle_step.
  destruct (Nat.eqb_spec mi (material_index triangle)) as [Heq|Hne];
    cbn [negb].
  2:{ split; [intros _ E; contradiction | intros _; exists st; reflexivity]. }
  destruct st as [d idx]. unfold face_loop, triangle_ok.
  pose proof (rfold_ok_iff _ _ (loops triangle)
                (fun l _ b => loop_step_ok_iff obj mesh_copy data mi l b Hmi)
                (d, [])) as Hloops.
  rewrite Forall_forall in Hloops.
  destruct (Py.rfold _ (loops triangle) (d, [])) as [[d' fi]|e] eqn:Hface;
    cbn [rbind].
  - pose proof (face_loop_length _ _ _ _ _ _ _ Hface) as Hlen.
    cbn [snd length Nat.add] in Hlen.
    assert (forallb (loop_ok mesh_copy) (loops triangle) = true) as Hall
      by (apply forallb_forall, Hloops; eexists; reflexivity).
    rewrite Hall, andb_true_r, <- Hlen.
    destruct (extend_indices idx fi) as [idx'|e] eqn:Hext; cbn [rbind].
    + split; [|intros _; eexists; reflexivity].
      intros _ _. apply Nat.leb_le, (extend_indices_ok_iff idx fi).
      exists idx'. exact Hext.
    + split; [intros [st' E]; discriminate|].
      intros Hok. specialize (Hok Heq). apply Nat.leb_le in Hok.
      apply (extend_indices_ok_iff idx fi) in Hok.
      destruct Hok as [idx' E]. congruence.
  - split; [intros [st' E]; discriminate|].
    intros Hok. specialize (Hok Heq). apply andb_prop in Hok.
    destruct Hok as [_ Hall].
    assert (exists b', @Raise (vertex_dict * list nat) e = Ok b') as [b' E]
      by (apply Hloops; intros l Hl;
          exact (proj1 (forallb_forall _ _) Hall l Hl)).
    discriminate.
Qed.

Lemma material_group_ok_iff (obj : Object) (data : list vec2)
    (meshes : list Mesh) (mi : nat) :
  uv_layer (evaluated_mesh obj) = Some data ->
  (exists meshes',
     material_group self obj (evaluated_mesh obj) meshes mi = Ok meshes')
  <-> (forall t, In t (mesh_triangles (evaluated_mesh obj)) ->
                 mi = material_index t ->
                 triangle_ok (evaluated_mesh obj) t = true) /\
      exists material,
        nth_error (materials (evaluated_mesh obj)) mi = Some (Some material) /\
        Py.startswith (material_name material) "__" = false /\
        Py.get String.eqb (material_positions self) (material_name material)
        <> None.
Proof.
  intros Hmi. unfold material_group, Py.getitem.
  destruct (nth_error (materials (evaluated_mesh obj)) mi) as [[material|]|]
    eqn:Hslot; cbn [rbind];
    try (split; [intros [m E]; discriminate
                | intros [_ (material & E & _)]; discriminate]).
  destruct (Py.startswith (material_name material) "__") eqn:Hname.
  { split; [intros [m E]; discriminate|].
    intros [_ (material' & [= <-] & E & _)]. congruence. }
  pose proof (rfold_ok_iff _ _ (mesh_triangles (evaluated_mesh obj))
                (fun t _ st =>
                   triangle_step_ok_iff obj (evaluated_mesh obj) data mi t st
                     Hmi)
                ([], [])) as Hts.
  rewrite Forall_forall in Hts.
  destruct (Py.rfold _ _ _) as [[d idx]|e] eqn:Hfold; cbn [rbind].
  - assert (forall t, In t (mesh_triangles (evaluated_mesh obj)) ->
                      mi = material_index t ->
                      triangle_ok (evaluated_mesh obj) t = true) as Hall
      by (apply Hts; eexists; reflexivity).
    unfold material_position.
    destruct (Py.get String.eqb (material_positions self)
                (material_name material)) as [id|] eqn:Hid; cbn [rbind].
    + split; [|intros _; eexists; reflexivity].
      intros _. split; [exact Hall|]. exists material.
      split; [reflexivity|]. split; [exact Hname|]. rewrite Hid. discriminate.
    + split; [intros [m E]; discriminate|].
      intros [_ (material' & [= <-] & _ & Hknown)]. congruence.
  - split; [intros [m E]; discriminate|]. intros [Hall _].
    assert (exists b', @Raise (vertex_dict * list nat) e = Ok b') as [b' E]
      by (apply Hts; exact Hall).
    discriminate.
Qed.

(** X20.  The grouping step returns exactly when the tangents of the mesh
    can be computed, the mesh has a material slot and, for every triangle,
    the slot of the triangle holds a material whose name does not start
    with the double underscore and that the material writer knows, the
    triangle has at least three loops, and every loop and its vertex exist
    and the active UV layer has an entry for the loop.  Material slots that
    no triangle uses are not looked at, and neither are the dimensions of
    the object. *)
Theorem grouping_returns_iff (obj : Object) :
  (exists ms, _split_object_by_materials self obj = Ok ms)
  <-> mesh_ok self obj = true.
Proof.
  unfold _split_object_by_materials, mesh_ok.
  destruct (calc_tangents (evaluated_mesh obj)) as [[]|e] eqn:Ht;
    cbn [rbind]; [|split; [intros [ms E]; discriminate | discriminate]].
  destruct (calc_tangents_uv _ Ht) as (uv & data & Huv).
  destruct (materials (evaluated_mesh obj)) as [|slot slots] eqn:Hm.
  { split; [intros [ms E]; discriminate | discriminate]. }
  rewrite (rfold_ok_iff _ _ _
             (fun mi _ meshes =>
                material_group_ok_iff obj (uv :: data) meshes mi Huv)).
  rewrite Forall_forall, forallb_forall. rewrite Hm. split.
  - intros Hall t Ht0.
    destruct (Hall (material_index t)) as [Htri (material & Hslot & Hname & Hid)].
    { apply set_iter_In, in_map. exact Ht0. }
    unfold slot_known. rewrite Hm, Hslot, Hname. cbn [negb andb].
    destruct (Py.get String.eqb (material_positions self)
                (material_name material)); [|congruence].
    exact (Htri t Ht0 eq_refl).
  - intros Hall mi Hmi. apply set_iter_In, in_map_iff in Hmi.
    destruct Hmi as (t0 & <- & Ht0). split.
    + intros t Ht1 _. specialize (Hall t Ht1). apply andb_prop in Hall.
      exact (proj2 Hall).
    + specialize (Hall t0 Ht0). apply andb_prop in Hall.
      destruct Hall as [Hslot _]. unfold slot_known in Hslot.
      rewrite Hm in Hslot.
      destruct (nth_error (slot :: slots) (material_index t0))
        as [[material|]|]; try discriminate.
      apply andb_prop in Hslot. destruct Hslot as [Hname Hid].
      exists material. split; [reflexivity|].
      split; [apply negb_true_iff; exact Hname|].
      destruct (Py.get String.eqb (material_positions self)
                  (material_name material)); [discriminate | discriminate].
Qed.

End GroupingEndsWell.

Lemma grouping_returns_iff_witness :
  let self := Demo.writer [Demo.two_materials] Demo.palette in
  mesh_ok self Demo.two_materials = true /\
  exists ms, _split_object_by_materials self Demo.two_materials = Ok ms.
Proof.
  intros self.
  assert (mesh_ok self Demo.two_materials = true) as Hok
    by (vm_compute; reflexivity).
  split; [exact Hok|].
  exact (proj2 (grouping_returns_iff self Demo.two_materials) Hok).
Defined.

(** ** The writer only appends, and the indices it writes fit 16 bits *)

Lemma only_appends_nothing {A} (c : W A) :
  (forall s, snd (c s) = s) -> only_appends c.
Proof.
  intros Hc s. exists [], []. rewrite Hc, !app_nil_r. destruct s.
  split; [reflexivity | constructor].
Qed.

Lemma only_appends_ret {A} (a : A) : only_appends (ret a).
Proof. apply only_appends_nothing. reflexivity. Qed.

Lemma only_appends_raise {A} (e : Exn) : only_appends (@raise A e).
Proof. apply only_appends_nothing. reflexivity. Qed.

Lemma only_appends_lift {A} (r : Result A) : only_appends (lift r).
Proof. apply only_appends_nothing. reflexivity. Qed.

Lemma only_appends_emit (e : Event) : ushort_event e -> only_appends (emit e).
Proof.
  intros He s. exists [e], []. cbn. rewrite app_nil_r.
  split; [reflexivity | constructor; [exact He | constructor]].
Qed.

Lemma only_appends_warn (msg : string) : only_appends (warn msg).
Proof.
  intros s. exists [], [msg]. cbn. rewrite app_nil_r.
  split; [reflexivity | constructor].
Qed.

Lemma only_appends_bind {A B} (c : W A) (k : A -> W B) :
  only_appends c -> (forall a, only_appends (k a)) -> only_appends (bind c k).
Proof.
  intros Hc Hk s. unfold bind. destruct (Hc s) as (evs1 & ws1 & E1 & P1).
  destruct (c s) as [[a|e] s1]; cbn [snd] in *.
  - destruct (Hk a s1) as (evs2 & ws2 & E2 & P2).
    exists (evs1 ++ evs2), (ws1 ++ ws2).
    rewrite E2, E1. cbn [file warnings]. rewrite !app_assoc.
    split; [reflexivity | apply Forall_app; split; assumption].
  - exists evs1, ws1. split; [exact E1 | exact P1].
Qed.

Lemma only_appends_for_each {A} (body : A -> W unit) (l : list A) :
  (forall x, In x l -> only_appends (body x)) ->
  only_appends (for_each body l).
Proof.
  induction l as [|x l IH]; intros Hbody; cbn [for_each].
  - apply only_appends_ret.
  - apply only_appends_bind; [apply Hbody; left; reflexivity|].
    intros _. apply IH. intros y Hy. apply Hbody. right. exact Hy.
Qed.

Lemma only_appends_appends (c : W unit) (evs : list Event) (ws : list string) :
  appends c evs ws -> Forall ushort_event evs -> only_appends c.
Proof.
  intros Happ Hevs s. exists evs, ws. rewrite (Happ s).
  split; [reflexivity | exact Hevs].
Qed.

Lemma node_record_ushort (nd : NodeData) : Forall ushort_event (node_record nd).
Proof. repeat constructor. Qed.

Ltac only_appends_step :=
  first
    [ apply only_appends_ret
    | apply only_appends_raise
    | apply only_appends_lift
    | apply only_appends_emit; exact I
    | apply only_appends_warn
    | apply only_appends_bind; [|intros ?]
    | match goal with
      | |- only_appends (if ?b then _ else _) => destruct b
      | |- only_appends (match ?x with _ => _ end) => destruct x
      end ].

Lemma _write_node_class_only_appends (node_class : string) :
  only_appends (_write_node_class node_class).
Proof. unfold _write_node_class. repeat only_appends_step. Qed.

Lemma _write_base_node_data_only_appends (node_data : NodeData) :
  only_appends (_write_base_node_data node_data).
Proof.
  apply (only_appends_appends _ _ _ (_write_base_node_data_spec node_data)).
  apply node_record_ushort.
Qed.

Lemma _write_mesh_only_appends (obj : Object) (mesh : Mesh)
    (node_properties : NodeProperties) :
  ushort_indices mesh = true ->
  only_appends (_write_mesh obj mesh node_properties).
Proof.
  intros Hu. unfold _write_mesh, _write_bounding_sphere.
  repeat first
    [ apply _write_node_class_only_appends
    | match goal with
      | |- only_appends (for_each (fun i => write_ushort i) _) =>
          apply only_appends_for_each; intros i Hi;
          apply only_appends_emit; cbn [ushort_event];
          apply Z.ltb_lt; exact (proj1 (forallb_forall _ _) Hu i Hi)
      | |- only_appends (for_each _ _) =>
          apply only_appends_for_each; intros ? _
      end
    | only_appends_step ].
Qed.

Section OnlyAppends.
Context `{Host}.
Variable self : NodeWriter.

Lemma _write_mesh_node_only_appends (obj : Object) :
  only_appends (_write_mesh_node self obj).
Proof.
  destruct (_split_object_by_materials self obj) as [ms|e] eqn:Hms.
  2:{ apply only_appends_nothing. intros s.
      unfold _write_mesh_node, bind, lift. rewrite Hms. reflexivity. }
  destruct (splitter_checks ms) as (divided & Hdiv & _ & _ & Hu).
  { pose proof (grouping_yields_wf self obj ms Hms) as Hwf.
    apply forallb_forall. intros g Hg.
    pose proof (proj1 (forallb_forall _ _) Hwf g Hg) as Hg'.
    unfold mesh_wf in Hg'. apply andb_prop in Hg'. exact (proj2 Hg'). }
  intros s. unfold _write_mesh_node.
  rewrite (lift_ok _ _ _ _ Hms), (lift_ok _ _ _ _ Hdiv). revert s.
  apply (@only_appends_bind unit unit).
  - repeat first [apply _write_base_node_data_only_appends
                 | only_appends_step].
  - intros _. apply only_appends_for_each. intros g Hg.
    apply _write_mesh_only_appends.
    exact (proj1 (forallb_forall _ _) Hu g Hg).
Qed.

Lemma _write_base_node_only_appends (obj : option Object)
    (node_name : string) :
  only_appends (_write_base_node self obj node_name).
Proof.
  destruct (_write_base_node_spec self obj node_name) as (nd & ws & Happ & _).
  exact (only_appends_appends _ _ _ Happ (node_record_ushort nd)).
Qed.

Lemma _write_object_only_appends (obj : Object) :
  only_appends (_write_object self obj).
Proof.
  induction obj as [obj IH] using Object_children_ind.
  rewrite _write_object_eq.
  destruct (negb (Py.startswith (name obj) "__") && visible_get obj);
    [|apply only_appends_ret].
  apply only_appends_bind.
  - destruct (type obj =? "MESH")%string.
    + apply only_appends_bind; [|intros _; apply _write_mesh_node_only_appends].
      destruct (children obj); [apply only_appends_ret | apply only_appends_raise].
    + apply _write_base_node_only_appends.
  - intros _. apply only_appends_for_each. intros c Hc.
    destruct (visible_get c); [|apply only_appends_ret].
    exact (proj1 (Forall_forall _ _) IH c Hc).
Qed.

Lemma write_appends (s : Streams) :
  exists evs ws,
    snd (write self s) =
    {| file := file s
               ++ node_record
                    {| nd_name := "BlenderFile";
                       nd_childCount :=
                         count_if (fun obj => negb (has_parent obj)
                                              && negb (Py.startswith (name obj) "__")
                                              && visible_get obj)
                           (objects self);
                       nd_active := true;
                       nd_transform := Matrix_identity |}
               ++ evs;
       warnings := warnings s ++ ws |} /\
    Forall ushort_event evs.
Proof.
  unfold write, bind.
  assert (appends (_write_base_node self None "BlenderFile")
            (node_record
               {| nd_name := "BlenderFile";
                  nd_childCount :=
                    count_if (fun obj => negb (has_parent obj)
                                         && negb (Py.startswith (name obj) "__")
                                         && visible_get obj)
                      (objects self);
                  nd_active := true;
                  nd_transform := Matrix_identity |}) []) as Hroot.
  { intros s0. unfold _write_base_node, bind, ret.
    rewrite (_write_base_node_data_spec _ _). reflexivity. }
  rewrite (Hroot s).
  match goal with
  | |- context [for_each ?body ?l ?s1] =>
      destruct (only_appends_for_each body l) with (s := s1)
        as (evs & ws & E & P)
  end.
  { intros obj _. destruct (negb (has_parent obj) && visible_get obj);
      [apply _write_object_only_appends | apply only_appends_ret]. }
  exists evs, ws. rewrite E. cbn [file warnings].
  rewrite app_nil_r, app_assoc. split; [reflexivity | exact P].
Qed.

(** X21.  Whether the export ends well or raises, what was in the file and
    in the list of warnings before it is still there, unchanged and in
    front: the writer only appends, and an export that raises leaves behind
    the records written so far.  The first thing it appends is the record
    of the root node, with the name "BlenderFile", the identity transform
    and the number of the exported objects without a parent. *)
Theorem write_only_appends (s : Streams) :
  exists evs ws,
    snd (write self s) =
    {| file := file s
               ++ node_record
                    {| nd_name := "BlenderFile";
                       nd_childCount :=
                         count_if (fun obj => negb (has_parent obj)
                                              && negb (Py.startswith (name obj) "__")
                                              && visible_get obj)
                           (objects self);
                       nd_active := true;
                       nd_transform := Matrix_identity |}
               ++ evs;
       warnings := warnings s ++ ws |}.
Proof.
  destruct (write_appends s) as (evs & ws & E & _).
  exists evs, ws. exact E.
Qed.

(** X22.  Every index that an export writes, whether it ends well or
    raises, can be written as an unsigned 16-bit number: the groups that
    reach [_write_mesh] have been cut by the splitter, so that
    [write_ushort] is never handed a number beyond 65535. *)
Theorem written_indices_fit_16_bits (s : Streams) :
  Forall ushort_event (file s) ->
  Forall ushort_event (file (snd (write self s))).
Proof.
  intros Hs. destruct (write_appends s) as (evs & ws & E & P).
  rewrite E. cbn [file]. apply Forall_app. split; [exact Hs|].
  apply Forall_app. split; [apply node_record_ushort | exact P].
Qed.

End OnlyAppends.

Lemma written_indices_fit_16_bits_witness :
  let car := Demo.object "Car" "EMPTY" None
               [Demo.child_triangle; Demo.helper_object] Demo.no_mesh in
  let self := Demo.writer [car; Demo.quad_object] Demo.paint in
  Forall ushort_event (file Demo.no_output) /\
  Forall ushort_event (file (snd (write self Demo.no_output))).
Proof.
  intros car self.
  assert (Forall ushort_event (file Demo.no_output)) as Hs by constructor.
  split; [exact Hs|].
  exact (written_indices_fit_16_bits self Demo.no_output Hs).
Defined.
